(** * The release-note plugin (prow/plugins/releasenote/releasenote.go)

    A shallow embedding of the plugin and of the parts of the Go
    libraries it calls (strings, strconv, regexp), followed by the
    properties of its label logic.

    Go strings are byte sequences: they are modelled as [list ascii].
    The GitHub client is an interface: its methods are the constructors
    of [Op], the handlers are programs over these operations, and [run]
    executes a program against any implementation of the interface,
    recording every call that was made. *)

From Stdlib Require Import String Ascii.
From Stdlib Require Import List ZArith Lia Bool Arith.
From Stdlib Require DecimalString.
Import ListNotations.

Set Implicit Arguments.

(** Go [string]: an immutable sequence of bytes. *)
Definition str := list ascii.

(** String constants of the source are written [lit "..."]. *)
Definition lit (s : String.string) : str := String.list_ascii_of_string s.

Definition nl : ascii := "010"%char.
Definition quote : ascii := "034"%char.

Definition str_eqb (a b : str) : bool :=
  if list_eq_dec ascii_dec a b then true else false.

(** ** Package strings *)
Module Strings.

(** Byte value of a character. *)
Definition code (c : ascii) : nat := nat_of_ascii c.

Definition byte (n : nat) : ascii := ascii_of_nat n.

Definition isASCIIbyte (c : ascii) : bool := code c <? 128.

Definition isASCII (s : str) : bool := forallb isASCIIbyte s.

Definition isUpper (c : ascii) : bool := (65 <=? code c) && (code c <=? 90).

(** [c += 'a' - 'A'] on the bytes 'A'..'Z'. *)
Definition lowerByte (c : ascii) : ascii :=
  if isUpper c then byte (code c + 32) else c.

(** [strings.ToLower]: the library lowers an all-ASCII string byte by
    byte and hands any other string to its table-driven mapping
    [Map(unicode.ToLower, s)].  The Unicode case tables are not part of
    this development: that second path is the parameter [unicodeLower]. *)
Definition ToLower (unicodeLower : str -> str) (s : str) : str :=
  if isASCII s then map lowerByte s else unicodeLower s.

Fixpoint HasPrefix (s prefix : str) : bool :=
  match prefix, s with
  | [], _ => true
  | p :: prefix', c :: s' => Ascii.eqb c p && HasPrefix s' prefix'
  | _ :: _, [] => false
  end.

(** [strings.Contains(s, substr)]. *)
Fixpoint Contains (s substr : str) : bool :=
  HasPrefix s substr ||
  match s with
  | [] => false
  | _ :: s' => Contains s' substr
  end.

(** [strings.Join(elems, sep)]. *)
Fixpoint Join (elems : list str) (sep : str) : str :=
  match elems with
  | [] => []
  | [e] => e
  | e :: rest => e ++ sep ++ Join rest sep
  end.

(** [strings.Split(s, sep)] for a non-empty separator: [skip] counts the
    bytes of a separator that was just recognised and are still to be
    passed over, [cur] is the current piece, reversed. *)
Fixpoint splitFrom (sep : str) (skip : nat) (cur : str) (s : str) : list str :=
  match s with
  | [] => [rev cur]
  | c :: s' =>
      match skip with
      | S k => splitFrom sep k cur s'
      | O =>
          if HasPrefix s sep
          then rev cur :: splitFrom sep (length sep - 1) [] s'
          else splitFrom sep 0 (c :: cur) s'
      end
  end.

Definition Split (s sep : str) : list str := splitFrom sep 0 [] s.

(** The white space of [unicode.IsSpace], as UTF-8 byte sequences:
    '\t', '\n', '\v', '\f', '\r', ' ', U+0085, U+00A0, U+1680,
    U+2000..U+200A, U+2028, U+2029, U+202F, U+205F, U+3000. *)
Definition isAsciiSpace (c : ascii) : bool :=
  ((9 <=? code c) && (code c <=? 13)) || (code c =? 32).

Definition spaceRunes : list str :=
  map (map byte)
    ([ [194; 133]; [194; 160]; [225; 154; 128] ]
     ++ map (fun k => [226; 128; 128 + k]) (seq 0 11)
     ++ [ [226; 128; 168]; [226; 128; 169]; [226; 128; 175];
          [226; 129; 159]; [227; 128; 128] ]).

(** Width in bytes of the white-space rune [s] starts with, 0 if none. *)
Definition leadingSpace (s : str) : nat :=
  match s with
  | [] => 0
  | c :: _ =>
      if isAsciiSpace c then 1
      else match find (HasPrefix s) spaceRunes with
           | Some r => length r
           | None => 0
           end
  end.

(** Width in bytes of the white-space rune [s] ends with, 0 if none;
    [r] is [s] reversed. *)
Definition trailingSpace (r : str) : nat :=
  match r with
  | [] => 0
  | c :: _ =>
      if isAsciiSpace c then 1
      else match find (fun sp => HasPrefix r (rev sp)) spaceRunes with
           | Some sp => length sp
           | None => 0
           end
  end.

Fixpoint dropWhile (width : str -> nat) (fuel : nat) (s : str) : str :=
  match fuel with
  | O => s
  | S fuel' =>
      match width s with
      | O => s
      | w => dropWhile width fuel' (skipn w s)
      end
  end.

Definition TrimLeftSpace (s : str) : str := dropWhile leadingSpace (length s) s.

Definition TrimRightSpace (s : str) : str :=
  rev (dropWhile trailingSpace (length s) (rev s)).

(** [strings.TrimSpace]: leading white space is cut first, then the
    trailing white space of what is left. *)
Definition TrimSpace (s : str) : str := TrimRightSpace (TrimLeftSpace s).

End Strings.

(** ** Package strconv *)
Module Strconv.

Local Open Scope Z_scope.

(** Go [int] on the 64-bit platforms the plugin runs on. *)
Definition maxInt : Z := 2 ^ 63 - 1.
Definition minInt : Z := - 2 ^ 63.

(** [strconv.Itoa]. *)
Definition Itoa (n : Z) : str := lit (DecimalString.NilZero.string_of_int (Z.to_int n)).

Definition isDigit (c : ascii) : bool :=
  ((48 <=? Strings.code c) && (Strings.code c <=? 57))%nat.

Definition digitVal (c : ascii) : Z := Z.of_nat (Strings.code c) - 48.

Definition digitsVal (ds : str) : Z :=
  fold_left (fun acc c => 10 * acc + digitVal c) ds 0.

(** Magnitude of a decimal numeral; [None] is [ErrSyntax]. *)
Definition parseDigits (ds : str) : option Z :=
  match ds with
  | [] => None
  | _ => if forallb isDigit ds then Some (digitsVal ds) else None
  end.

(** [strconv.Atoi]: an optional sign and decimal digits; [None] stands
    for the error result (syntax error, or value out of the range of
    [int]). *)
Definition Atoi (s : str) : option Z :=
  let signed :=
    match s with
    | c :: s' =>
        if Ascii.eqb c "-" then option_map Z.opp (parseDigits s')
        else if Ascii.eqb c "+" then parseDigits s'
        else parseDigits s
    | [] => None
    end in
  match signed with
  | Some v => if (minInt <=? v) && (v <=? maxInt) then Some v else None
  | None => None
  end.

End Strconv.

(** ** Package regexp

    The fragment of the RE2 syntax that the plugin's five patterns are
    written in, with the leftmost-first ("first match wins") semantics of
    [regexp.MustCompile]: alternatives are tried from left to right, a
    greedy repetition tries the longest run first and a lazy one the
    shortest.  Repetition only ever applies to a single character class
    in these patterns, which is the form [Star] has.

    Patterns work on bytes.  Go decodes UTF-8 while matching; for these
    patterns the two views give the same submatches, because every
    class that can consume a non-ASCII byte ([.], [[^<>]]) is followed
    by an ASCII literal. *)
Module Regexp.

Inductive regex : Type :=
| Empty : regex
| Class (p : ascii -> bool) : regex
| Cat (r1 r2 : regex) : regex
| Alt (r1 r2 : regex) : regex
| Star (greedy : bool) (p : ascii -> bool) : regex
| Group (i : nat) (r : regex) : regex
| Bol : regex     (* ^ under (?m) *)
| Eol : regex.    (* $ under (?m) *)

(** Submatches recorded so far: group index and matched text. *)
Definition captures := list (nat * str).

(** One way of matching: the submatches, the text consumed, the text left. *)
Definition result : Type := captures * str * str.

(** The byte before the current position, if any. *)
Definition lastOr (prev : option ascii) (consumed : str) : option ascii :=
  match rev consumed with
  | c :: _ => Some c
  | [] => prev
  end.

Definition atLineStart (prev : option ascii) : bool :=
  match prev with
  | None => true
  | Some c => Ascii.eqb c nl
  end.

Definition atLineEnd (s : str) : bool :=
  match s with
  | [] => true
  | c :: _ => Ascii.eqb c nl
  end.

(** Every way of reading a run of [p]-bytes off the front of [s],
    shortest first. *)
Fixpoint runs (p : ascii -> bool) (s : str) : list (str * str) :=
  ([], s) ::
  match s with
  | c :: s' => if p c then map (fun '(m, rest) => (c :: m, rest)) (runs p s') else []
  | [] => []
  end.

(** All the ways [r] matches at the front of [s], in the order a
    backtracking matcher explores them. *)
Fixpoint exec (r : regex) (prev : option ascii) (s : str) : list result :=
  match r with
  | Empty => [([], [], s)]
  | Class p =>
      match s with
      | c :: s' => if p c then [([], [c], s')] else []
      | [] => []
      end
  | Cat r1 r2 =>
      flat_map (fun '(c1, m1, s1) =>
                  map (fun '(c2, m2, s2) => (c1 ++ c2, m1 ++ m2, s2))
                      (exec r2 (lastOr prev m1) s1))
               (exec r1 prev s)
  | Alt r1 r2 => exec r1 prev s ++ exec r2 prev s
  | Star greedy p =>
      map (fun '(m, rest) => ([], m, rest))
          (if greedy then rev (runs p s) else runs p s)
  | Group i r1 =>
      map (fun '(c, m, rest) => (c ++ [(i, m)], m, rest)) (exec r1 prev s)
  | Bol => if atLineStart prev then [([], [], s)] else []
  | Eol => if atLineEnd s then [([], [], s)] else []
  end.

(** The leftmost position at which [r] matches, with the preferred match
    there: the text before the match and the match. *)
Fixpoint search (r : regex) (prev : option ascii) (before s : str)
  : option (str * result) :=
  match exec r prev s with
  | m :: _ => Some (rev before, m)
  | [] =>
      match s with
      | c :: s' => search r (Some c) (c :: before) s'
      | [] => None
      end
  end.

Fixpoint NumSubexp (r : regex) : nat :=
  match r with
  | Cat r1 r2 | Alt r1 r2 => Nat.max (NumSubexp r1) (NumSubexp r2)
  | Group i r1 => Nat.max i (NumSubexp r1)
  | _ => 0
  end.

(** Text of group [i]; a group that took no part in the match gives "". *)
Fixpoint submatch (caps : captures) (i : nat) : str :=
  match caps with
  | [] => []
  | (j, m) :: caps' =>
      match submatch caps' i with
      | [] => if Nat.eqb i j then m else []
      | later => later
      end
  end.

(** [re.MatchString(s)]. *)
Definition MatchString (r : regex) (s : str) : bool :=
  match search r None [] s with
  | Some _ => true
  | None => false
  end.

(** [re.FindStringSubmatch(s)]: [nil] (here the empty list) when there is
    no match, else the whole match followed by the text of each group. *)
Definition FindStringSubmatch (r : regex) (s : str) : list str :=
  match search r None [] s with
  | Some (_, (caps, whole, _)) =>
      whole :: map (submatch caps) (seq 1 (NumSubexp r))
  | None => []
  end.

(** *** Building patterns *)

Definition only (c : ascii) : ascii -> bool := Ascii.eqb c.

(** A literal, byte for byte. *)
Fixpoint Lit (s : str) : regex :=
  match s with
  | [] => Empty
  | [c] => Class (only c)
  | c :: s' => Cat (Class (only c)) (Lit s')
  end.

(** One literal byte under [(?i)].  An ASCII letter matches both of its
    cases; [s] and [k] are also matched by the two non-ASCII runes that
    fold to them, U+017F (long s) and U+212A (Kelvin sign). *)
Definition foldByte (c : ascii) : regex :=
  let l := Strings.lowerByte c in
  let both := Class (fun x => Ascii.eqb (Strings.lowerByte x) l) in
  if Ascii.eqb l "s" then Alt both (Lit (map Strings.byte [197; 191]))
  else if Ascii.eqb l "k" then Alt both (Lit (map Strings.byte [226; 132; 170]))
  else both.

(** A literal under [(?i)]. *)
Fixpoint LitFold (s : str) : regex :=
  match s with
  | [] => Empty
  | [c] => foldByte c
  | c :: s' => Cat (foldByte c) (LitFold s')
  end.

Fixpoint Seq (rs : list regex) : regex :=
  match rs with
  | [] => Empty
  | [r] => r
  | r :: rs' => Cat r (Seq rs')
  end.

(** [r?] *)
Definition Opt (r : regex) : regex := Alt r Empty.

(** [[p]+] and [[p]+?] *)
Definition Plus (greedy : bool) (p : ascii -> bool) : regex :=
  Cat (Class p) (Star greedy p).

(** [\s]: the Perl class, [[\t\n\f\r ]]. *)
Definition perlSpace (c : ascii) : bool :=
  let n := Strings.code c in
  (n =? 9) || (n =? 10) || (n =? 12) || (n =? 13) || (n =? 32).

(** [[[:digit:]]] *)
Definition digit (c : ascii) : bool := Strconv.isDigit c.

(** [.] under [(?s)], and without it. *)
Definition anyByte (c : ascii) : bool := true.
Definition notNewline (c : ascii) : bool := negb (Ascii.eqb c nl).

End Regexp.

(** ** Package github: the data the plugin reads from events *)

(** Go [error], identified with its message. *)
Definition error := str.

(** A Go result pair [(T, error)]. *)
Inductive res (A : Type) : Type :=
| Ok (a : A)
| Err (e : error).
Arguments Ok {A} a.
Arguments Err {A} e.

(** A slice whose being [nil] is observable: [None] is the nil slice. *)
Definition slice (A : Type) : Type := option (list A).

Record User := { Login : str }.
Record Label := { Name : str }.
Record IssueComment := { CommentID : Z; CommentBody : str; CommentUser : User }.
Record Issue :=
  { IssueUser : User; IssueNumber : Z; IssueBody : str;
    IssueLabels : list Label; IssuePullRequest : bool }.
Record Repo := { Owner : User; RepoName : str }.

Inductive IssueCommentEventAction :=
| IssueCommentActionCreated | IssueCommentActionEdited | IssueCommentActionDeleted.

Record IssueCommentEvent :=
  { ICAction : IssueCommentEventAction; ICIssue : Issue;
    ICComment : IssueComment; ICRepo : Repo }.

Inductive PullRequestEventAction :=
| PullRequestActionOpened | PullRequestActionEdited | PullRequestActionOther.

Record PullRequestBranch := { Ref : str }.
Record PullRequest := { PRUser : User; PRBody : str; Base : PullRequestBranch }.

Record PullRequestEvent :=
  { PRAction : PullRequestEventAction; PRNumber : Z;
    PRPullRequest : PullRequest; PRRepo : Repo }.

(** What the plugin takes from the packages it imports and this
    development does not contain: the Unicode path of [strings.ToLower],
    the comment layouts of package plugins, and three methods of
    [github.Issue]. *)
Record Imports :=
  { unicodeLower : str -> str;
    FormatResponse : str -> str -> str -> str;
    FormatICResponse : IssueComment -> str -> str;
    IsPullRequest : Issue -> bool;
    IsAuthor : Issue -> str -> bool;
    HasLabel : Issue -> str -> bool }.

(** ** The client interface and programs over it *)

(** The methods of [githubClient], each with the type of its result. *)
Inductive Op : Type -> Type :=
| IsMember (org user : str) : Op (res bool)
| CreateComment (owner repo : str) (number : Z) (comment : str) : Op (option error)
| AddLabel (owner repo : str) (number : Z) (label : str) : Op (option error)
| RemoveLabel (owner repo : str) (number : Z) (label : str) : Op (option error)
| GetIssueLabels (org repo : str) (number : Z) : Op (res (list Label))
| ListIssueComments (org repo : str) (number : Z) : Op (res (slice IssueComment))
| DeleteStaleComments (org repo : str) (number : Z)
    (comments : slice IssueComment) (isStale : IssueComment -> bool) : Op (option error)
| BotName : Op (res str).

Inductive Arg := ArgS (s : str) | ArgD (n : Z).

(** What is written to the logger: [log.WithError(err).Errorf(format,
    args...)] and [log.Error(err)]. *)
Inductive LogEntry :=
| WithErrorErrorf (err : error) (format : str) (args : list Arg)
| LogError (err : error).

(** A computation that calls the client and the logger and returns an [A]. *)
Inductive Prog (A : Type) : Type :=
| Ret (a : A)
| Call {R : Type} (op : Op R) (k : R -> Prog A)
| Log (e : LogEntry) (k : Prog A).
Arguments Ret {A} a.
Arguments Call {A R} op k.
Arguments Log {A} e k.

Fixpoint bind {A B : Type} (p : Prog A) (f : A -> Prog B) : Prog B :=
  match p with
  | Ret a => f a
  | Call op k => Call op (fun r => bind (k r) f)
  | Log e k => Log e (bind k f)
  end.

Definition call {R : Type} (op : Op R) : Prog R := Call op Ret.
Definition logf (err : error) (format : String.string) (args : list Arg) : Prog unit :=
  Log (WithErrorErrorf err (lit format) args) (Ret tt).

Declare Scope prog_scope.
Delimit Scope prog_scope with prog.
Notation "x <- p ;; q" := (bind p (fun x => q))
  (at level 61, p at next level, right associativity) : prog_scope.
Notation "p ;; q" := (bind p (fun _ => q))
  (at level 61, right associativity) : prog_scope.

(** One step of an execution, as an observer of the client sees it. *)
Inductive Event : Type :=
| Called {R : Type} (op : Op R) (r : R)
| Logged (e : LogEntry).

Section Run.
(** Any implementation of the interface: a state and, for each
    method, an answer and a next state. *)
Variable St : Type.
Variable client : forall R, Op R -> St -> R * St.

Fixpoint run {A : Type} (p : Prog A) (s : St) : A * list Event * St :=
  match p with
  | Ret a => (a, [], s)
  | Call op k =>
      let '(r, s1) := client op s in
      let '(a, tr, s2) := run (k r) s1 in
      (a, Called op r :: tr, s2)
  | Log e k =>
      let '(a, tr, s1) := run k s in
      (a, Logged e :: tr, s1)
  end.

Definition value {A} (x : A * list Event * St) : A := fst (fst x).
Definition trace {A} (x : A * list Event * St) : list Event := snd (fst x).
Definition final {A} (x : A * list Event * St) : St := snd x.
End Run.

(** ** Package releasenote *)
Module Releasenote.

Import Regexp.
Local Open Scope prog_scope.

Definition pluginName : str := lit "release-note".

Definition deprecatedReleaseNoteLabelNeeded : str := lit "release-note-label-needed".
Definition releaseNoteLabelNeeded : str := lit "do-not-merge/release-note-label-needed".
Definition releaseNote : str := lit "release-note".
Definition releaseNoteNone : str := lit "release-note-none".
Definition releaseNoteActionRequired : str := lit "release-note-action-required".

(** The [%q] verb on the label names, which hold nothing to escape. *)
Definition fmtQ (s : str) : str := quote :: s ++ [quote].

(** The three format strings, as functions of their arguments. *)
Definition releaseNoteFormat (label : str) : str :=
  lit "Adding " ++ label ++ lit " because the release note process has not been followed.".

Definition releaseNoteSuffixFormat (a b c : str) : str :=
  lit "One of the following labels is required " ++ fmtQ a ++ lit ", " ++ fmtQ b
  ++ lit ", or " ++ fmtQ c ++ lit "." ++ [nl]
  ++ lit "Please see: https://github.com/kubernetes/community/blob/master/contributors/devel/pull-requests.md#write-release-notes-if-needed.".

Definition parentReleaseNoteFormat (a b : str) : str :=
  lit "All 'parent' PRs of a cherry-pick PR must have one of the " ++ fmtQ a
  ++ lit " or " ++ fmtQ b
  ++ lit " labels, or this PR must follow the standard/parent release note labeling requirement.".

Definition noReleaseNoteComment : str := lit "none".
Definition actionRequiredNote : str := lit "action required".

Definition releaseNoteSuffix : str :=
  releaseNoteSuffixFormat releaseNote releaseNoteActionRequired releaseNoteNone.
Definition releaseNoteBody : str := releaseNoteFormat releaseNoteLabelNeeded.
Definition deprecatedReleaseNoteBody : str := releaseNoteFormat deprecatedReleaseNoteLabelNeeded.
Definition parentReleaseNoteBody : str :=
  parentReleaseNoteFormat releaseNote releaseNoteActionRequired.

Definition notAngle (c : ascii) : bool := negb (Ascii.eqb c "<" || Ascii.eqb c ">").

Definition fence : str := lit "```".

(** [noteMatcherRE], written with blanks between its parts:
    (?s) (?: Release note\*\*: \s* (?: <!-- [^<>]* --> \s* )? ``` (?:release-note)?
           | ```release-note )
         ( .+? ) ``` *)
Definition noteMatcherRE : regex :=
  Seq [ Alt (Seq [ Lit (lit "Release note**:");
                   Star true perlSpace;
                   Opt (Seq [ Lit (lit "<!--"); Star true notAngle; Lit (lit "-->");
                              Star true perlSpace ]);
                   Lit fence;
                   Opt (Lit (lit "release-note")) ])
            (Lit (lit "```release-note"));
        Group 1 (Plus false anyByte);
        Lit fence ].

(** [cpRe], written with blanks between its parts:
    Cherry pick of # ( [[:digit:]]+ ) on release- ( [[:digit:]]+ \. [[:digit:]]+ ) . *)
Definition cpRe : regex :=
  Seq [ Lit (lit "Cherry pick of #");
        Group 1 (Plus true digit);
        Lit (lit " on release-");
        Group 2 (Seq [ Plus true digit; Lit (lit "."); Plus true digit ]);
        Class notNewline ].

Definition allRNLabels : list str :=
  [ releaseNoteNone;
    releaseNoteActionRequired;
    deprecatedReleaseNoteLabelNeeded;
    releaseNoteLabelNeeded;
    releaseNote ].

(** [(?mi)^/release-note\s*$] and its two siblings. *)
Definition commandRE (command : str) : regex :=
  Seq [ Bol; LitFold command; Star true perlSpace; Eol ].

Definition releaseNoteRe : regex := commandRE (lit "/release-note").
Definition releaseNoteNoneRe : regex := commandRE (lit "/release-note-none").
Definition releaseNoteActionRequiredRe : regex := commandRE (lit "/release-note-action-required").

(** The contribution of one line to [getCherrypickParentPRNums]. *)
Definition lineParent (line : str) : list Z :=
  let matches := FindStringSubmatch cpRe line in
  if negb (length matches =? 3) then []
  else match Strconv.Atoi (nth 1 matches []) with
       | None => []
       | Some parentNum => [parentNum]
       end.

Definition getCherrypickParentPRNums (body : str) : list Z :=
  let lines := Strings.Split body [nl] in
  fold_left (fun out line => out ++ lineParent line) lines [].


Definition getReleaseNote (body : str) : str :=
  let potentialMatch := FindStringSubmatch noteMatcherRE body in
  match potentialMatch with
  | [] => []
  | _ => Strings.TrimSpace (nth 1 potentialMatch [])
  end.

Definition containsNoneCommand (comments : list IssueComment) : bool :=
  existsb (fun c => MatchString releaseNoteNoneRe (CommentBody c)) comments.

Definition elems {A} (s : slice A) : list A :=
  match s with
  | Some l => l
  | None => []
  end.

Section Plugin.
Variable lib : Imports.

Definition stringsToLower : str -> str := Strings.ToLower (unicodeLower lib).

Definition hasLabel (label : str) (issueLabels : list Label) : bool :=
  let label := stringsToLower label in
  existsb (fun l => str_eqb (stringsToLower (Name l)) label) issueLabels.

(** The part of [determineReleaseNoteLabel] that follows the call of
    [getReleaseNote]: the label for an extracted note. *)
Definition labelForNote (note : str) : str :=
  let composedReleaseNote := stringsToLower (Strings.TrimSpace note) in
  if str_eqb composedReleaseNote [] then releaseNoteLabelNeeded
  else if str_eqb composedReleaseNote noReleaseNoteComment then releaseNoteNone
  else if Strings.Contains composedReleaseNote actionRequiredNote
       then releaseNoteActionRequired
  else releaseNote.

Definition determineReleaseNoteLabel (body : str) : str :=
  labelForNote (getReleaseNote body).

Definition releaseNoteAlreadyAdded (prLabels : list Label) : bool :=
  hasLabel releaseNote prLabels ||
  hasLabel releaseNoteActionRequired prLabels ||
  hasLabel releaseNoteNone prLabels.

(** The loop of [removeOtherLabels]: the errors of the removals, in order. *)
Fixpoint removeEach (remover : str -> Prog (option error)) (label : str)
    (labelSet : list str) (currentLabels : list Label) (errs : list error)
  : Prog (list error) :=
  match labelSet with
  | [] => Ret errs
  | elem :: rest =>
      if negb (str_eqb elem label) && hasLabel elem currentLabels
      then err <- remover elem ;;
           match err with
           | Some e => removeEach remover label rest currentLabels (errs ++ [e])
           | None => removeEach remover label rest currentLabels errs
           end
      else removeEach remover label rest currentLabels errs
  end.

(** [fmt.Errorf("encountered %d errors setting labels: %v", len(errs), errs)] *)
Definition removalError (errs : list error) : error :=
  lit "encountered " ++ Strconv.Itoa (Z.of_nat (length errs))
  ++ lit " errors setting labels: " ++ lit "[" ++ Strings.Join errs (lit " ") ++ lit "]".

Definition removeOtherLabels (remover : str -> Prog (option error)) (label : str)
    (labelSet : list str) (currentLabels : list Label) : Prog (option error) :=
  errs <- removeEach remover label labelSet currentLabels [] ;;
  if 0 <? length errs then Ret (Some (removalError errs)) else Ret None.

(** The loop of [prMustFollowRelNoteProcess] over the parents. *)
Fixpoint collectNoteless (org repo : str) (number : Z) (parents : list Z)
    (notelessParents : list str) : Prog (list str) :=
  match parents with
  | [] => Ret notelessParents
  | parent :: rest =>
      r <- call (GetIssueLabels org repo parent) ;;
      match r with
      | Err err =>
          logf err "Failed to list labels on PR #%d (parent of #%d)."
               [ArgD parent; ArgD number] ;;
          collectNoteless org repo number rest notelessParents
      | Ok parentLabels =>
          if negb (hasLabel releaseNote parentLabels) &&
             negb (hasLabel releaseNoteActionRequired parentLabels)
          then collectNoteless org repo number rest
                 (notelessParents ++ [lit "#" ++ Strconv.Itoa parent])
          else collectNoteless org repo number rest notelessParents
      end
  end.

(** The advisory comment of [prMustFollowRelNoteProcess]. *)
Definition parentComment (pr : PullRequestEvent) (notelessParents : list str) : str :=
  FormatResponse lib
    (Login (PRUser (PRPullRequest pr)))
    parentReleaseNoteBody
    (lit "The following parent PRs have neither the " ++ fmtQ releaseNote
     ++ lit " nor the " ++ fmtQ releaseNoteActionRequired ++ lit " labels: "
     ++ Strings.Join notelessParents (lit ", ") ++ lit ".").

Definition prMustFollowRelNoteProcess (pr : PullRequestEvent)
    (prLabels : list Label) (comment : bool) : Prog bool :=
  if str_eqb (Ref (Base (PRPullRequest pr))) (lit "master") then Ret true
  else
    let parents := getCherrypickParentPRNums (PRBody (PRPullRequest pr)) in
    if length parents =? 0 then Ret true
    else
      let org := Login (Owner (PRRepo pr)) in
      let repo := RepoName (PRRepo pr) in
      notelessParents <- collectNoteless org repo (PRNumber pr) parents [] ;;
      if length notelessParents =? 0 then Ret false
      else
        (if comment && negb (hasLabel releaseNoteLabelNeeded prLabels)
         then
           let comment := parentComment pr notelessParents in
           err <- call (CreateComment org repo (PRNumber pr) comment) ;;
           match err with
           | Some e =>
               logf e "Error creating comment on %s/%s#%d with comment %q."
                    [ArgS org; ArgS repo; ArgD (PRNumber pr); ArgS comment]
           | None => Ret tt
           end
         else Ret tt) ;;
        Ret true.

Definition ensureNoRelNoteNeededLabel (pr : PullRequestEvent)
    (prLabels : list Label) : Prog unit :=
  let org := Login (Owner (PRRepo pr)) in
  let repo := RepoName (PRRepo pr) in
  let format := "Failed to remove the label %q from %s/%s#%d."%string in
  (if hasLabel releaseNoteLabelNeeded prLabels
   then err <- call (RemoveLabel org repo (PRNumber pr) releaseNoteLabelNeeded) ;;
        match err with
        | Some e => logf e format
                      [ArgS releaseNoteLabelNeeded; ArgS org; ArgS repo; ArgD (PRNumber pr)]
        | None => Ret tt
        end
   else Ret tt) ;;
  (if hasLabel deprecatedReleaseNoteLabelNeeded prLabels
   then err <- call (RemoveLabel org repo (PRNumber pr) deprecatedReleaseNoteLabelNeeded) ;;
        match err with
        | Some e => logf e format
                      [ArgS deprecatedReleaseNoteLabelNeeded; ArgS org; ArgS repo;
                       ArgD (PRNumber pr)]
        | None => Ret tt
        end
   else Ret tt).

(** The [isStale] closure of [clearStaleComments]. *)
Definition isStale (botName : str) (c : IssueComment) : bool :=
  str_eqb (Login (CommentUser c)) botName &&
  (Strings.Contains (CommentBody c) releaseNoteBody ||
   Strings.Contains (CommentBody c) parentReleaseNoteBody ||
   Strings.Contains (CommentBody c) deprecatedReleaseNoteBody).

Definition clearStaleComments (pr : PullRequestEvent) (prLabels : list Label)
    (comments : slice IssueComment) : Prog (option error) :=
  must <- prMustFollowRelNoteProcess pr prLabels false ;;
  if must && negb (releaseNoteAlreadyAdded prLabels) then Ret None
  else
    r <- call BotName ;;
    match r with
    | Err err => Ret (Some err)
    | Ok botName =>
        call (DeleteStaleComments
                (Login (Owner (PRRepo pr)))
                (RepoName (PRRepo pr))
                (PRNumber pr)
                comments
                (isStale botName))
    end.

(** The notice for the two deprecated commands. *)
Definition deprecationNotice : str :=
  lit "the `/" ++ releaseNote ++ lit "` and `/" ++ releaseNoteActionRequired
  ++ lit "` commands have been deprecated." ++ [nl]
  ++ lit "Please edit the `release-note` block in the PR body text to include the release note. If the release note requires additional action include the string `action required` in the release note. For example:"
  ++ [nl] ++ lit "````" ++ [nl] ++ lit "```release-note" ++ [nl]
  ++ lit "Some release note with action required." ++ [nl]
  ++ lit "```" ++ [nl] ++ lit "````".

Definition notAuthorizedNotice : str :=
  lit "you can only set the release note label to " ++ releaseNoteNone
  ++ lit " if you are the PR author or an org member.".

Definition noteInBodyNotice : str :=
  lit "you can only set the release note label to " ++ releaseNoteNone
  ++ lit " if the release-note block in the PR body text is empty or "
  ++ fmtQ (lit "none") ++ lit ".".

(** The label a comment asks for: the [switch] of [handleComment]. *)
Definition commandLabel (body : str) : option str :=
  if MatchString releaseNoteRe body then Some releaseNote
  else if MatchString releaseNoteNoneRe body then Some releaseNoteNone
  else if MatchString releaseNoteActionRequiredRe body then Some releaseNoteActionRequired
  else None.

Definition handleComment (ic : IssueCommentEvent) : Prog (option error) :=
  (* Only consider PRs and new comments. *)
  if negb (IsPullRequest lib (ICIssue ic)) ||
     match ICAction ic with IssueCommentActionCreated => false | _ => true end
  then Ret None
  else
    let org := Login (Owner (ICRepo ic)) in
    let repo := RepoName (ICRepo ic) in
    let number := IssueNumber (ICIssue ic) in
    (* Which label does the comment want us to add? *)
    match commandLabel (CommentBody (ICComment ic)) with
    | None => Ret None
    | Some nl =>
        (* Emit deprecation warning for /release-note and /release-note-action-required. *)
        if str_eqb nl releaseNote || str_eqb nl releaseNoteActionRequired
        then call (CreateComment org repo number
                     (FormatICResponse lib (ICComment ic) deprecationNotice))
        else
          (* Only allow authors and org members to add labels. *)
          r <- call (IsMember (Login (Owner (ICRepo ic)))
                              (Login (CommentUser (ICComment ic)))) ;;
          match r with
          | Err err => Ret (Some err)
          | Ok isMember =>
              let isAuthor := IsAuthor lib (ICIssue ic) (Login (CommentUser (ICComment ic))) in
              if negb isMember && negb isAuthor
              then call (CreateComment org repo number
                           (FormatICResponse lib (ICComment ic) notAuthorizedNotice))
              else
                (* Don't allow the /release-note-none command if the
                   release-note block contains a valid release note. *)
                let blockNL := determineReleaseNoteLabel (IssueBody (ICIssue ic)) in
                if str_eqb blockNL releaseNote || str_eqb blockNL releaseNoteActionRequired
                then call (CreateComment org repo number
                             (FormatICResponse lib (ICComment ic) noteInBodyNotice))
                else
                  added <- (if negb (HasLabel lib (ICIssue ic) releaseNoteNone)
                            then call (AddLabel org repo number releaseNoteNone)
                            else Ret None) ;;
                  match added with
                  | Some err => Ret (Some err)
                  | None =>
                      (* Remove all other release-note-* labels if necessary. *)
                      removeOtherLabels
                        (fun l => call (RemoveLabel org repo number l))
                        releaseNoteNone
                        allRNLabels
                        (IssueLabels (ICIssue ic))
                  end
          end
    end.

(** [fmt.Errorf("failed to list labels on PR #%d. err: %v", ...)] *)
Definition listLabelsError (number : Z) (err : error) : error :=
  lit "failed to list labels on PR #" ++ Strconv.Itoa number ++ lit ". err: " ++ err.

(** [fmt.Errorf("failed to list comments on %s/%s#%d. err: %v", ...)] *)
Definition listCommentsError (org repo : str) (number : Z) (err : error) : error :=
  lit "failed to list comments on " ++ org ++ lit "/" ++ repo ++ lit "#"
  ++ Strconv.Itoa number ++ lit ". err: " ++ err.

(** [handlePR] from the second test of [labelToAdd] on: [labelToAdd]
    and [comments] have their final values. *)
Definition applyLabel (pr : PullRequestEvent) (prLabels : list Label)
    (labelToAdd : str) (comments : slice IssueComment) : Prog (option error) :=
  let org := Login (Owner (PRRepo pr)) in
  let repo := RepoName (PRRepo pr) in
  (if str_eqb labelToAdd releaseNoteLabelNeeded
   then
     if negb (hasLabel releaseNoteLabelNeeded prLabels)
     then
       let comment := FormatResponse lib (Login (PRUser (PRPullRequest pr)))
                        releaseNoteBody releaseNoteSuffix in
       err <- call (CreateComment org repo (PRNumber pr) comment) ;;
       match err with
       | Some e => logf e "Failed to comment on %s/%s#%d with comment %q."
                     [ArgS org; ArgS repo; ArgD (PRNumber pr); ArgS comment]
       | None => Ret tt
       end
     else Ret tt
   else
     (* going to apply some other release-note-label *)
     ensureNoRelNoteNeededLabel pr prLabels) ;;
  (* Add the label if needed *)
  added <- (if negb (hasLabel labelToAdd prLabels)
            then call (AddLabel org repo (PRNumber pr) labelToAdd)
            else Ret None) ;;
  match added with
  | Some err => Ret (Some err)
  | None =>
      err <- removeOtherLabels
               (fun l => call (RemoveLabel org repo (PRNumber pr) l))
               labelToAdd
               allRNLabels
               prLabels ;;
      match err with
      | Some e => Log (LogError e) (Ret tt)
      | None => Ret tt
      end ;;
      clearStaleComments pr prLabels comments
  end.

Definition handlePR (pr : PullRequestEvent) : Prog (option error) :=
  (* Only consider events that edit the PR body. *)
  match PRAction pr with
  | PullRequestActionOther => Ret None
  | _ =>
      let org := Login (Owner (PRRepo pr)) in
      let repo := RepoName (PRRepo pr) in
      r <- call (GetIssueLabels org repo (PRNumber pr)) ;;
      match r with
      | Err err => Ret (Some (listLabelsError (PRNumber pr) err))
      | Ok prLabels =>
          let labelToAdd := determineReleaseNoteLabel (PRBody (PRPullRequest pr)) in
          if str_eqb labelToAdd releaseNoteLabelNeeded
          then
            must <- prMustFollowRelNoteProcess pr prLabels true ;;
            if negb must
            then ensureNoRelNoteNeededLabel pr prLabels ;;
                 clearStaleComments pr prLabels None
            else
              (* If /release-note-none has been left on PR then pretend the
                 release-note body is "NONE" instead of empty. *)
              c <- call (ListIssueComments org repo (PRNumber pr)) ;;
              match c with
              | Err err => Ret (Some (listCommentsError org repo (PRNumber pr) err))
              | Ok comments =>
                  let labelToAdd :=
                    if containsNoneCommand (elems comments) then releaseNoteNone
                    else labelToAdd in
                  applyLabel pr prLabels labelToAdd comments
              end
          else applyLabel pr prLabels labelToAdd None
      end
  end.
End Plugin.

(** ** A tracker behind the interface *)

(** The state of the tracker for one repository: labels and comments of
    each issue, the organisation's members, the bot's account. *)
Record Tracker :=
  { labelsOf : Z -> list Label;
    commentsOf : Z -> list IssueComment;
    members : list str;
    botAccount : str;
    nextID : Z }.

Definition update {A} (f : Z -> A) (n : Z) (a : A) : Z -> A :=
  fun m => if Z.eqb m n then a else f m.

(** Modelled from the spec: the comment set the tracker's
    [deleteStaleComments] works on (the client's implementation is not
    in releasenote.go).  Section 6: it deletes every comment in the
    supplied set for which the predicate is true; section 4.5, step 6:
    the set is the one already fetched, or freshly fetched if none was
    supplied. *)
Definition staleCandidates (supplied : slice IssueComment)
    (current : list IssueComment) : list IssueComment :=
  match supplied with
  | Some comments => comments
  | None => current
  end.

(** Modelled from the spec: the comments [deleteStaleComments] deletes
    (section 6): every comment in the set it works on for which the
    predicate is true. *)
Definition deletedBy (supplied : slice IssueComment) (current : list IssueComment)
    (stale : IssueComment -> bool) : list IssueComment :=
  filter stale (staleCandidates supplied current).

Section TrackerClient.
Variable lib : Imports.

Definition sameLabel (a b : str) : bool := str_eqb (stringsToLower lib a) (stringsToLower lib b).

(** Modelled from the spec: the external tracker of section 6, every
    call succeeding and later reads seeing earlier writes (section 5).
    Label names are compared as [hasLabel] compares them. *)
Definition tracker (R : Type) (op : Op R) (t : Tracker) : R * Tracker :=
  match op in Op R return R * Tracker with
  | IsMember _ user => (Ok (existsb (str_eqb user) (members t)), t)
  | CreateComment _ _ number comment =>
      let c := {| CommentID := nextID t; CommentBody := comment;
                  CommentUser := {| Login := botAccount t |} |} in
      (None,
       {| labelsOf := labelsOf t;
          commentsOf := update (commentsOf t) number (commentsOf t number ++ [c]);
          members := members t; botAccount := botAccount t;
          nextID := (nextID t + 1)%Z |})
  | AddLabel _ _ number label =>
      (None,
       {| labelsOf :=
            update (labelsOf t) number
              (if hasLabel lib label (labelsOf t number) then labelsOf t number
               else labelsOf t number ++ [{| Name := label |}]);
          commentsOf := commentsOf t; members := members t;
          botAccount := botAccount t; nextID := nextID t |})
  | RemoveLabel _ _ number label =>
      (None,
       {| labelsOf :=
            update (labelsOf t) number
              (filter (fun l => negb (sameLabel (Name l) label)) (labelsOf t number));
          commentsOf := commentsOf t; members := members t;
          botAccount := botAccount t; nextID := nextID t |})
  | GetIssueLabels _ _ number => (Ok (labelsOf t number), t)
  | ListIssueComments _ _ number =>
      (Ok (match commentsOf t number with [] => None | cs => Some cs end), t)
  | DeleteStaleComments _ _ number comments stale =>
      let doomed :=
        map CommentID (deletedBy comments (commentsOf t number) stale) in
      (None,
       {| labelsOf := labelsOf t;
          commentsOf :=
            update (commentsOf t) number
              (filter (fun c => negb (existsb (Z.eqb (CommentID c)) doomed))
                      (commentsOf t number));
          members := members t; botAccount := botAccount t; nextID := nextID t |})
  | BotName => (Ok (botAccount t), t)
  end.
End TrackerClient.

(** ** What a trace shows *)

(** The parents whose labels were asked for, each with the answer. *)
Definition parentCheck (e : Event) : list (Z * res (list Label)) :=
  match e with
  | Called op r =>
      match op in Op R return R -> list (Z * res (list Label)) with
      | GetIssueLabels _ _ number => fun r => [(number, r)]
      | _ => fun _ => []
      end r
  | Logged _ => []
  end.
Definition parentChecks (tr : list Event) := flat_map parentCheck tr.

(** The comments posted: owner, repository, number, text. *)
Definition postedBy (e : Event) : list (str * str * Z * str) :=
  match e with
  | Called op _ =>
      match op with
      | CreateComment owner repo number comment => [(owner, repo, number, comment)]
      | _ => []
      end
  | Logged _ => []
  end.
Definition posted (tr : list Event) := flat_map postedBy tr.

Definition addedBy (e : Event) : list str :=
  match e with
  | Called op _ => match op with AddLabel _ _ _ label => [label] | _ => [] end
  | Logged _ => []
  end.
Definition added (tr : list Event) := flat_map addedBy tr.

(** The labels whose removal was attempted, each with the answer. *)
Definition removalBy (e : Event) : list (str * option error) :=
  match e with
  | Called op r =>
      match op in Op R return R -> list (str * option error) with
      | RemoveLabel _ _ _ label => fun r => [(label, r)]
      | _ => fun _ => []
      end r
  | Logged _ => []
  end.
Definition removals (tr : list Event) := flat_map removalBy tr.

(** The answers to [ListIssueComments]. *)
Definition fetchBy (e : Event) : list (res (slice IssueComment)) :=
  match e with
  | Called op r =>
      match op in Op R return R -> list (res (slice IssueComment)) with
      | ListIssueComments _ _ _ => fun r => [r]
      | _ => fun _ => []
      end r
  | Logged _ => []
  end.
Definition fetches (tr : list Event) := flat_map fetchBy tr.

(** The comment sets and predicates handed to [DeleteStaleComments]. *)
Definition offerBy (e : Event) : list (slice IssueComment * (IssueComment -> bool)) :=
  match e with
  | Called op _ =>
      match op with
      | DeleteStaleComments _ _ _ comments stale => [(comments, stale)]
      | _ => []
      end
  | Logged _ => []
  end.
Definition offers (tr : list Event) := flat_map offerBy tr.

(** The answers to [BotName]. *)
Definition botNameBy (e : Event) : list (res str) :=
  match e with
  | Called op r =>
      match op in Op R return R -> list (res str) with
      | BotName => fun r => [r]
      | _ => fun _ => []
      end r
  | Logged _ => []
  end.
Definition botNames (tr : list Event) := flat_map botNameBy tr.

Definition loggedBy (e : Event) : list LogEntry :=
  match e with
  | Logged l => [l]
  | Called _ _ => []
  end.
Definition logged (tr : list Event) := flat_map loggedBy tr.

(** The number of calls of the client. *)
Definition isCall (e : Event) : bool :=
  match e with
  | Called _ _ => true
  | Logged _ => false
  end.
Definition calls (tr : list Event) : nat := length (filter isCall tr).

Section LineageChecks.
Variable lib : Imports.

(** A parent counts as noteless when its labels were read and hold
    neither of the two note labels. *)
Definition notelessCheck (c : Z * res (list Label)) : list str :=
  match snd c with
  | Ok parentLabels =>
      if negb (hasLabel lib releaseNote parentLabels) &&
         negb (hasLabel lib releaseNoteActionRequired parentLabels)
      then [lit "#" ++ Strconv.Itoa (fst c)]
      else []
  | Err _ => []
  end.
Definition noteless (checks : list (Z * res (list Label))) : list str :=
  flat_map notelessCheck checks.
End LineageChecks.

(** The errors among the answers to the removals, in order. *)
Definition failures (rs : list (str * option error)) : list error :=
  flat_map (fun r => match snd r with Some e => [e] | None => [] end) rs.

(** [P] holds of every event the program can produce, whatever the
    client answers. *)
Fixpoint always (P : Event -> Prop) {A : Type} (p : Prog A) : Prop :=
  match p with
  | Ret _ => True
  | Call op k => forall r, P (Called op r) /\ always P (k r)
  | Log e k => P (Logged e) /\ always P k
  end.

Section Wanted.
Variable lib : Imports.
(** The labels [removeOtherLabels] is to remove. *)
Definition wanted (label : str) (currentLabels : list Label) (elem : str) : bool :=
  negb (str_eqb elem label) && hasLabel lib elem currentLabels.
End Wanted.

(** Events that neither fetch nor delete comments, nor ask for the
    bot's name, and add no label but [label]. *)
Definition labelStep (label : str) (e : Event) : Prop :=
  fetchBy e = [] /\ offerBy e = [] /\ botNameBy e = []
  /\ forall l, In l (addedBy e) -> l = label.

(** ** The classifier as the specification words it *)

(** The outcomes of the classifier and the label each stands for. *)
Inductive ReleaseNoteOutcome := Needed | NoNote | ActionRequired | Standard.

Definition labelOf (o : ReleaseNoteOutcome) : str :=
  match o with
  | Needed => releaseNoteLabelNeeded
  | NoNote => releaseNoteNone
  | ActionRequired => releaseNoteActionRequired
  | Standard => releaseNote
  end.

(** Equality and containment of ASCII text without regard to case. *)
Fixpoint equalFold (a b : str) : bool :=
  match a, b with
  | [], [] => true
  | x :: a', y :: b' =>
      Ascii.eqb (Strings.lowerByte x) (Strings.lowerByte y) && equalFold a' b'
  | _, _ => false
  end.

Fixpoint hasPrefixFold (s prefix : str) : bool :=
  match prefix, s with
  | [], _ => true
  | p :: prefix', c :: s' =>
      Ascii.eqb (Strings.lowerByte c) (Strings.lowerByte p) && hasPrefixFold s' prefix'
  | _ :: _, [] => false
  end.

Fixpoint containsFold (s substr : str) : bool :=
  hasPrefixFold s substr ||
  match s with
  | [] => false
  | _ :: s' => containsFold s' substr
  end.

(** The mapping of section 4.2, in its words: trim; empty gives Needed;
    exactly the word "none", in any case, gives None; containing "action
    required", in any case, gives ActionRequired; anything else gives
    Standard. *)
Definition classify (note : str) : ReleaseNoteOutcome :=
  let trimmed := Strings.TrimSpace note in
  match trimmed with
  | [] => Needed
  | _ =>
      if equalFold trimmed (lit "none") then NoNote
      else if containsFold trimmed (lit "action required") then ActionRequired
      else Standard
  end.

(** Text with no upper-case ASCII letter. *)
Definition isLower (s : str) : Prop := map Strings.lowerByte s = s.

(** An event that adds no label. *)
Definition addsNothing (e : Event) : Prop := addedBy e = [].

(** An event that adds no label but [label]. *)
Definition addsOnly (label : str) (e : Event) : Prop :=
  forall l, In l (addedBy e) -> l = label.

(** The four labels that stand for a pull request's release-note state. *)
Definition stateLabels : list str :=
  [releaseNoteLabelNeeded; releaseNoteNone; releaseNoteActionRequired; releaseNote].

(** ** Label changes in a trace *)

Inductive LabelOp :=
| AddOp (number : Z) (label : str)
| RemoveOp (number : Z) (label : str).

Definition labelOpBy (e : Event) : list LabelOp :=
  match e with
  | Called op _ =>
      match op with
      | AddLabel _ _ number label => [AddOp number label]
      | RemoveLabel _ _ number label => [RemoveOp number label]
      | _ => []
      end
  | Logged _ => []
  end.
Definition labelOps (tr : list Event) := flat_map labelOpBy tr.

Section LabelEffects.
Variable lib : Imports.

(** What the tracker does to its labels on [AddLabel] and [RemoveLabel]. *)
Definition applyOp (labels : Z -> list Label) (op : LabelOp) : Z -> list Label :=
  match op with
  | AddOp number label =>
      update labels number
        (if hasLabel lib label (labels number) then labels number
         else labels number ++ [{| Name := label |}])
  | RemoveOp number label =>
      update labels number
        (filter (fun l => negb (sameLabel lib (Name l) label)) (labels number))
  end.

(** Whether a label whose name lowers to [k] is among [ls]. *)
Definition hasKey (k : str) (ls : list Label) : bool :=
  existsb (fun l => str_eqb (stringsToLower lib (Name l)) k) ls.

(** Whether a label lowering to [k] is present after [ops], given
    whether one was before. *)
Definition presentAfter (ops : list LabelOp) (k : str) (before : bool) : bool :=
  fold_left
    (fun b op =>
       match op with
       | AddOp _ label => b || str_eqb (stringsToLower lib label) k
       | RemoveOp _ label => b && negb (str_eqb (stringsToLower lib label) k)
       end)
    ops before.

Definition opNumber (op : LabelOp) : Z :=
  match op with
  | AddOp number _ | RemoveOp number _ => number
  end.

(** The label changes of [ensureNoRelNoteNeededLabel] and of
    [removeOtherLabels], and of [applyLabel] when the label is added. *)
Definition ensureOps (number : Z) (prLabels : list Label) : list LabelOp :=
  (if hasLabel lib releaseNoteLabelNeeded prLabels
   then [RemoveOp number releaseNoteLabelNeeded] else [])
  ++ (if hasLabel lib deprecatedReleaseNoteLabelNeeded prLabels
      then [RemoveOp number deprecatedReleaseNoteLabelNeeded] else []).

Definition removeOps (number : Z) (label : str) (prLabels : list Label) : list LabelOp :=
  map (RemoveOp number) (filter (wanted lib label prLabels) allRNLabels).

Definition applyOps (number : Z) (labelToAdd : str) (prLabels : list Label) : list LabelOp :=
  (if str_eqb labelToAdd releaseNoteLabelNeeded then [] else ensureOps number prLabels)
  ++ (if hasLabel lib labelToAdd prLabels then [] else [AddOp number labelToAdd])
  ++ removeOps number labelToAdd prLabels.
End LabelEffects.

(** ** Sample data for running the handlers *)

(** An instance of the imports: non-ASCII text is left as it is by the
    lowering, comments are laid out plainly, and the methods of an issue
    read its fields. *)
Definition sampleImports : Imports :=
  {| unicodeLower := fun s => s;
     FormatResponse := fun to message reason =>
       lit "@" ++ to ++ lit ": " ++ message ++ [nl] ++ reason;
     FormatICResponse := fun ic s => lit "@" ++ Login (CommentUser ic) ++ lit ": " ++ s;
     IsPullRequest := IssuePullRequest;
     IsAuthor := fun i login => str_eqb (Login (IssueUser i)) login;
     HasLabel := fun i label => existsb (fun l => str_eqb (Name l) label) (IssueLabels i) |}.

Definition sampleRepo : Repo :=
  {| Owner := {| Login := lit "kubernetes" |}; RepoName := lit "kubernetes" |}.

(** Pull request #1 is a cherry-pick of #2 to a release branch and has no
    release-note block. *)
Definition cherryPickPR : PullRequestEvent :=
  {| PRAction := PullRequestActionEdited;
     PRNumber := 1;
     PRPullRequest :=
       {| PRUser := {| Login := lit "author" |};
          PRBody := lit "Cherry pick of #2 on release-1.4.";
          Base := {| Ref := lit "release-1.4" |} |};
     PRRepo := sampleRepo |}.

(** A tracker in which #1 carries both release-note and
    release-note-none, and its parent #2 carries release-note. *)
Definition twoLabelTracker : Tracker :=
  {| labelsOf := fun n =>
       if Z.eqb n 1 then [ {| Name := releaseNote |}; {| Name := releaseNoteNone |} ]
       else if Z.eqb n 2 then [ {| Name := releaseNote |} ]
       else [];
     commentsOf := fun _ => [];
     members := [];
     botAccount := lit "k8s-ci-robot";
     nextID := 100 |}.

(** The release-note labels an issue of a tracker carries. *)
Definition familyLabels (lib : Imports) (t : Tracker) (number : Z) : list str :=
  filter (fun l => hasLabel lib l (labelsOf t number)) allRNLabels.

(** A client none of whose calls succeeds. *)
Definition failingClient (R : Type) (op : Op R) (s : unit) : R * unit :=
  match op in Op R return R * unit with
  | IsMember _ _ => (Err (lit "unreachable"), s)
  | CreateComment _ _ _ _ => (Some (lit "unreachable"), s)
  | AddLabel _ _ _ _ => (Some (lit "unreachable"), s)
  | RemoveLabel _ _ _ _ => (Some (lit "unreachable"), s)
  | GetIssueLabels _ _ _ => (Err (lit "unreachable"), s)
  | ListIssueComments _ _ _ => (Err (lit "unreachable"), s)
  | DeleteStaleComments _ _ _ _ _ => (Some (lit "unreachable"), s)
  | BotName => (Err (lit "unreachable"), s)
  end.


(** The author of pull request #7, whose body has no release-note block
    and which carries release-note, comments "/release-note-none". *)
Definition noneCommand : IssueCommentEvent :=
  {| ICAction := IssueCommentActionCreated;
     ICIssue :=
       {| IssueUser := {| Login := lit "author" |};
          IssueNumber := 7;
          IssueBody := lit "Fixes a typo.";
          IssueLabels := [ {| Name := releaseNote |} ];
          IssuePullRequest := true |};
     ICComment :=
       {| CommentID := 1;
          CommentBody := lit "/release-note-none";
          CommentUser := {| Login := lit "author" |} |};
     ICRepo := sampleRepo |}.

Definition noneCommandTracker : Tracker :=
  {| labelsOf := fun n => if Z.eqb n 7 then [ {| Name := releaseNote |} ] else [];
     commentsOf := fun _ => [];
     members := [];
     botAccount := lit "k8s-ci-robot";
     nextID := 100 |}.

(** ** What it means for a pattern to match

    [Matches r prev m rest caps]: after the byte [prev], and with [rest]
    following, the pattern [r] can consume exactly [m], recording the
    submatches [caps]. *)
Inductive Matches : Regexp.regex -> option ascii -> str -> str -> Regexp.captures -> Prop :=
| MEmpty prev rest : Matches Regexp.Empty prev [] rest []
| MClass p c prev rest :
    p c = true -> Matches (Regexp.Class p) prev [c] rest []
| MCat r1 r2 prev m1 m2 rest c1 c2 :
    Matches r1 prev m1 (m2 ++ rest) c1 ->
    Matches r2 (Regexp.lastOr prev m1) m2 rest c2 ->
    Matches (Regexp.Cat r1 r2) prev (m1 ++ m2) rest (c1 ++ c2)
| MAltL r1 r2 prev m rest c :
    Matches r1 prev m rest c -> Matches (Regexp.Alt r1 r2) prev m rest c
| MAltR r1 r2 prev m rest c :
    Matches r2 prev m rest c -> Matches (Regexp.Alt r1 r2) prev m rest c
| MStar greedy p prev m rest :
    forallb p m = true -> Matches (Regexp.Star greedy p) prev m rest []
| MGroup i r prev m rest c :
    Matches r prev m rest c -> Matches (Regexp.Group i r) prev m rest (c ++ [(i, m)])
| MBol prev rest :
    Regexp.atLineStart prev = true -> Matches Regexp.Bol prev [] rest []
| MEol prev rest :
    Regexp.atLineEnd rest = true -> Matches Regexp.Eol prev [] rest [].

(** [r] matches somewhere in [s]: after [pre], consuming [m]. *)
Definition MatchesAt (r : Regexp.regex) (s pre m rest : str) (caps : Regexp.captures) : Prop :=
  s = pre ++ m ++ rest /\ Matches r (Regexp.lastOr None pre) m rest caps.
(** [typed] is [w] up to the case folding of [(?i)]: byte for byte up to
    ASCII case, with the long s (U+017F) for an s and the Kelvin sign
    (U+212A) for a k. *)
Inductive foldsTo : str -> str -> Prop :=
| FoldNil : foldsTo [] []
| FoldByte x c typed w :
    Strings.lowerByte x = Strings.lowerByte c ->
    foldsTo typed w -> foldsTo (x :: typed) (c :: w)
| FoldLongS c typed w :
    Strings.lowerByte c = "s"%char ->
    foldsTo typed w -> foldsTo (map Strings.byte [197; 191] ++ typed) (c :: w)
| FoldKelvin c typed w :
    Strings.lowerByte c = "k"%char ->
    foldsTo typed w -> foldsTo (map Strings.byte [226; 132; 170] ++ typed) (c :: w).

Definition cpHead : str := lit "Cherry pick of #".
Definition cpMid : str := lit " on release-".

(** A non-empty run of decimal digits. *)
Definition isNumber (ds : str) : Prop := ds <> [] /\ forallb Regexp.digit ds = true.

(** ** Release-note blocks, as the specification words them *)

(** An explanatory HTML comment, with the white space after it. *)
Definition htmlComment (cmt : str) : Prop :=
  exists text ws,
    cmt = lit "<!--" ++ text ++ lit "-->" ++ ws
    /\ forallb notAngle text = true /\ forallb Regexp.perlSpace ws = true.

(** The two spellings of the opening of a block: the label "Release
    note**:", white space, possibly an HTML comment, and a fence, bare
    or tagged; or a fence tagged release-note. *)
Definition Opener (o : str) : Prop :=
  (exists ws cmt tag,
      o = lit "Release note**:" ++ ws ++ cmt ++ fence ++ tag
      /\ forallb Regexp.perlSpace ws = true
      /\ (cmt = [] \/ htmlComment cmt)
      /\ (tag = [] \/ tag = lit "release-note"))
  \/ o = lit "```release-note".

(** [body] holds a block after [pre]: an opening, contents that are not
    empty, and a closing fence. *)
Definition Block (body pre opener content post : str) : Prop :=
  body = pre ++ opener ++ content ++ fence ++ post
  /\ Opener opener /\ content <> [].

(** The text consumed by a result of [exec], and the lengths of these
    texts for a list of results. *)
Definition consumed (r : Regexp.result) : str := snd (fst r).

(** The two halves of [noteMatcherRE]: the opening, and the contents
    with the closing fence. *)
Definition noteOpenerRE : regex :=
  Alt (Seq [ Lit (lit "Release note**:");
             Star true perlSpace;
             Opt (Seq [ Lit (lit "<!--"); Star true notAngle; Lit (lit "-->");
                        Star true perlSpace ]);
             Lit fence;
             Opt (Lit (lit "release-note")) ])
      (Lit (lit "```release-note")).

Definition noteContentRE : regex := Cat (Group 1 (Plus false anyByte)) (Lit fence).

(** The parent #2 of the cherry-pick carries no label. *)
Definition notelessParentTracker : Tracker :=
  {| labelsOf := fun _ => [];
     commentsOf := fun _ => [];
     members := [];
     botAccount := lit "k8s-ci-robot";
     nextID := 100 |}.

(** An advisory comment the bot left earlier. *)
Definition staleAdvice : IssueComment :=
  {| CommentID := 11;
     CommentBody := FormatResponse sampleImports (lit "author") releaseNoteBody releaseNoteSuffix;
     CommentUser := {| Login := lit "k8s-ci-robot" |} |}.

Definition noneCommandComment : IssueComment :=
  {| CommentID := 12;
     CommentBody := lit "/release-note-none";
     CommentUser := {| Login := lit "author" |} |}.

(** Pull request #3 targets master and has no release-note block; it
    carries release-note-none, the bot's advice and a none-command. *)
Definition emptyNotePR : PullRequestEvent :=
  {| PRAction := PullRequestActionEdited;
     PRNumber := 3;
     PRPullRequest :=
       {| PRUser := {| Login := lit "author" |};
          PRBody := lit "Fixes a typo.";
          Base := {| Ref := lit "master" |} |};
     PRRepo := sampleRepo |}.

Definition emptyNoteTracker : Tracker :=
  {| labelsOf := fun n => if Z.eqb n 3 then [ {| Name := releaseNoteNone |} ] else [];
     commentsOf := fun n => if Z.eqb n 3 then [staleAdvice; noneCommandComment] else [];
     members := [];
     botAccount := lit "k8s-ci-robot";
     nextID := 100 |}.

(** Pull request #4 targets master and has a release note; it carries
    release-note and the bot's advice. *)
Definition notedPR : PullRequestEvent :=
  {| PRAction := PullRequestActionEdited;
     PRNumber := 4;
     PRPullRequest :=
       {| PRUser := {| Login := lit "author" |};
          PRBody := lit "```release-note" ++ [nl] ++ lit "Added a new flag" ++ [nl] ++ lit "```";
          Base := {| Ref := lit "master" |} |};
     PRRepo := sampleRepo |}.

Definition notedTracker : Tracker :=
  {| labelsOf := fun n => if Z.eqb n 4 then [ {| Name := releaseNote |} ] else [];
     commentsOf := fun n => if Z.eqb n 4 then [staleAdvice] else [];
     members := [];
     botAccount := lit "k8s-ci-robot";
     nextID := 100 |}.

(** ** What the handlers return, and where they act *)

(** The error [handlePR] returns when the call [e] is answered with a
    failure: a failed listing of the comments is wrapped, a failed
    [AddLabel], [BotName] or [DeleteStaleComments] is returned as it
    is.  The reads of the parents' labels, [CreateComment] and
    [RemoveLabel] may fail without [handlePR] returning an error. *)
Definition failureOf (e : Event) : option error :=
  match e with
  | Called op r =>
      match op in Op R return R -> option error with
      | ListIssueComments org repo number =>
          fun r => match r with
                   | Err err => Some (listCommentsError org repo number err)
                   | Ok _ => None
                   end
      | AddLabel _ _ _ _ => fun r => r
      | DeleteStaleComments _ _ _ _ _ => fun r => r
      | BotName => fun r => match r with Err err => Some err | Ok _ => None end
      | _ => fun _ => None
      end r
  | Logged _ => None
  end.

(** The failure of the last event of a trace, if it is one. *)
Definition lastFailure (tr : list Event) : option error :=
  match rev tr with
  | e :: _ => failureOf e
  | [] => None
  end.

(** A program that returns the failure of a call as soon as it
    happens, and nil when it ends otherwise. *)
Fixpoint stopsAtFailure (p : Prog (option error)) : Prop :=
  match p with
  | Ret v => v = None
  | Call op k =>
      forall r,
        match failureOf (Called op r) with
        | Some err => k r = Ret (Some err)
        | None => stopsAtFailure (k r)
        end
  | Log _ k => stopsAtFailure k
  end.

(** Events that concern one pull request: its labels and comments
    are read and written, the labels of other issues of the same
    repository are only read, and membership is not asked for.  The
    labels added are state labels, the labels removed release-note
    labels. *)
Definition onPullRequest (org repo : str) (number : Z) (e : Event) : Prop :=
  match e with
  | Called op _ =>
      match op with
      | IsMember _ _ => False
      | CreateComment o r n _ => o = org /\ r = repo /\ n = number
      | AddLabel o r n l => o = org /\ r = repo /\ n = number /\ In l stateLabels
      | RemoveLabel o r n l => o = org /\ r = repo /\ n = number /\ In l allRNLabels
      | GetIssueLabels o r _ => o = org /\ r = repo
      | ListIssueComments o r n => o = org /\ r = repo /\ n = number
      | DeleteStaleComments o r n _ _ => o = org /\ r = repo /\ n = number
      | BotName => True
      end
  | Logged _ => True
  end.

(** Events of the comment path: membership in the organisation of the
    repository, a comment on the issue, the addition of
    release-note-none to it and the removal of another release-note
    label from it. *)
Definition onIssue (org repo : str) (number : Z) (e : Event) : Prop :=
  match e with
  | Called op _ =>
      match op with
      | IsMember o _ => o = org
      | CreateComment o r n _ => o = org /\ r = repo /\ n = number
      | AddLabel o r n l => o = org /\ r = repo /\ n = number /\ l = releaseNoteNone
      | RemoveLabel o r n l =>
          o = org /\ r = repo /\ n = number /\ In l allRNLabels /\ l <> releaseNoteNone
      | _ => False
      end
  | Logged _ => False
  end.

Section Parts.
Variable lib : Imports.

(** [handlePR] from the point where the labels of the pull request
    have been read. *)
Definition labelPullRequest (pr : PullRequestEvent) (prLabels : list Label)
  : Prog (option error) :=
  let org := Login (Owner (PRRepo pr)) in
  let repo := RepoName (PRRepo pr) in
  let labelToAdd := determineReleaseNoteLabel lib (PRBody (PRPullRequest pr)) in
  if str_eqb labelToAdd releaseNoteLabelNeeded
  then
    must <- prMustFollowRelNoteProcess lib pr prLabels true ;;
    if negb must
    then ensureNoRelNoteNeededLabel lib pr prLabels ;;
         clearStaleComments lib pr prLabels None
    else
      c <- call (ListIssueComments org repo (PRNumber pr)) ;;
      match c with
      | Err err => Ret (Some (listCommentsError org repo (PRNumber pr) err))
      | Ok comments =>
          let labelToAdd :=
            if containsNoneCommand (elems comments) then releaseNoteNone
            else labelToAdd in
          applyLabel lib pr prLabels labelToAdd comments
      end
  else applyLabel lib pr prLabels labelToAdd None.
End Parts.

(** [body] has a line that holds [command], in any case, and after it
    nothing but white space. *)
Definition hasCommandLine (command body : str) : Prop :=
  exists pre typed ws post,
    body = pre ++ typed ++ ws ++ post
    /\ Regexp.atLineStart (Regexp.lastOr None pre) = true
    /\ foldsTo typed command
    /\ forallb Regexp.perlSpace ws = true
    /\ Regexp.atLineEnd post = true.

(** The labels whose addition was attempted, each with the answer. *)
Definition additionBy (e : Event) : list (str * option error) :=
  match e with
  | Called op r =>
      match op in Op R return R -> list (str * option error) with
      | AddLabel _ _ _ label => fun r => [(label, r)]
      | _ => fun _ => []
      end r
  | Logged _ => []
  end.
Definition additions (tr : list Event) := flat_map additionBy tr.

(** The removals that failed, each with its error. *)
Definition failedRemovals (rs : list (str * option error)) : list (str * error) :=
  flat_map (fun r => match snd r with Some e => [(fst r, e)] | None => [] end) rs.

(** A program that makes at most [n] calls, whatever the client
    answers. *)
Fixpoint atMost (n : nat) {A : Type} (p : Prog A) : Prop :=
  match p with
  | Ret _ => True
  | Call op k =>
      match n with
      | O => False
      | S m => forall r, atMost m (k r)
      end
  | Log _ k => atMost n k
  end.

(** The error [handleComment] returns when the call [e] is answered
    with a failure; the removals are not among these calls, their
    failures are returned together. *)
Definition commentFailureOf (e : Event) : option error :=
  match e with
  | Called op r =>
      match op in Op R return R -> option error with
      | IsMember _ _ => fun r => match r with Err err => Some err | Ok _ => None end
      | CreateComment _ _ _ _ => fun r => r
      | AddLabel _ _ _ _ => fun r => r
      | _ => fun _ => None
      end r
  | Logged _ => None
  end.

Definition lastCommentFailure (tr : list Event) : option error :=
  match rev tr with
  | e :: _ => commentFailureOf e
  | [] => None
  end.

(** ** More sample data *)

(** A stranger comments on pull request #7 with two commands, the
    none-command first. *)
Definition twoCommands : IssueCommentEvent :=
  {| ICAction := IssueCommentActionCreated;
     ICIssue :=
       {| IssueUser := {| Login := lit "author" |};
          IssueNumber := 7;
          IssueBody := lit "Fixes a typo.";
          IssueLabels := [ {| Name := releaseNote |} ];
          IssuePullRequest := true |};
     ICComment :=
       {| CommentID := 2;
          CommentBody := lit "/release-note-none" ++ [nl] ++ lit "/RELEASE-NOTE  ";
          CommentUser := {| Login := lit "stranger" |} |};
     ICRepo := sampleRepo |}.

(** A tracker in which every issue carries the needed label. *)
Definition flaggedTracker : Tracker :=
  {| labelsOf := fun _ => [ {| Name := releaseNoteLabelNeeded |} ];
     commentsOf := fun _ => [];
     members := [];
     botAccount := lit "k8s-ci-robot";
     nextID := 100 |}.

(** A stranger's none-command, and a tracker in which it is the only
    comment on pull request #3, which carries no label. *)
Definition strangersCommand : IssueComment :=
  {| CommentID := 13;
     CommentBody := lit "thanks!" ++ [nl] ++ lit "/Release-Note-None ";
     CommentUser := {| Login := lit "stranger" |} |}.

Definition strangersTracker : Tracker :=
  {| labelsOf := fun _ => [];
     commentsOf := fun n => if Z.eqb n 3 then [strangersCommand] else [];
     members := [];
     botAccount := lit "k8s-ci-robot";
     nextID := 100 |}.

(** The tracker, except that it refuses to add labels. *)
Definition frozenTracker (lib : Imports) (R : Type) (op : Op R) (t : Tracker)
  : R * Tracker :=
  match op in Op R return R * Tracker with
  | AddLabel _ _ _ _ => (Some (lit "labels are frozen"), t)
  | other => tracker lib other t
  end.






(** ** Comments in a trace *)











(** * Properties *)

Lemma str_eqb_eq (a b : str) : str_eqb a b = true <-> a = b.
Proof.
  unfold str_eqb. destruct (list_eq_dec ascii_dec a b); split; congruence.
Qed.

Lemma str_eqb_refl (a : str) : str_eqb a a = true.
Proof. now apply str_eqb_eq. Qed.

Lemma str_eqb_neq (a b : str) : str_eqb a b = false <-> a <> b.
Proof.
  unfold str_eqb. destruct (list_eq_dec ascii_dec a b); split; congruence.
Qed.

Section Runs.
Variable St : Type.
Variable client : forall R, Op R -> St -> R * St.

Lemma run_bind {A B} (p : Prog A) (f : A -> Prog B) (s : St) :
  run client (bind p f) s =
  let '(a, tr1, s1) := run client p s in
  let '(b, tr2, s2) := run client (f a) s1 in
  (b, tr1 ++ tr2, s2).
Proof.
  revert s. induction p as [a | R op k IH | e k IH]; intro s; simpl.
  - destruct (run client (f a) s) as [[b tr] s2]. reflexivity.
  - destruct (client op s) as [r s1]. rewrite IH.
    destruct (run client (k r) s1) as [[a tr1] s2].
    destruct (run client (f a) s2) as [[b tr2] s3]. reflexivity.
  - rewrite IH. destruct (run client k s) as [[a tr1] s1].
    destruct (run client (f a) s1) as [[b tr2] s2]. reflexivity.
Qed.
End Runs.

Section Lineage.
Variable lib : Imports.
Variable St : Type.
Variable client : forall R, Op R -> St -> R * St.

Lemma collectNoteless_run org repo number parents :
  forall acc s v tr s',
    run client (collectNoteless lib org repo number parents acc) s = (v, tr, s') ->
    v = acc ++ noteless lib (parentChecks tr)
    /\ map fst (parentChecks tr) = parents
    /\ calls tr = length parents
    /\ posted tr = [] /\ added tr = [] /\ removals tr = [] /\ fetches tr = []
    /\ offers tr = [] /\ botNames tr = [].
Proof.
  induction parents as [| parent rest IH]; intros acc s v tr s' H; simpl in H.
  - inversion H; subst. simpl. rewrite app_nil_r. repeat split; reflexivity.
  - destruct (client (GetIssueLabels org repo parent) s) as [r s1] eqn:E.
    destruct r as [parentLabels | err]; simpl in H.
    + destruct (negb (hasLabel lib releaseNote parentLabels) &&
                negb (hasLabel lib releaseNoteActionRequired parentLabels)) eqn:N;
        destruct (run client _ s1) as [[v1 tr1] s2] eqn:R;
        apply IH in R; inversion H; subst; clear H;
        destruct R as (-> & R2 & R3 & R4 & R5 & R6 & R7 & R8 & R9);
        simpl; unfold calls in *; simpl; unfold notelessCheck at 1; simpl; rewrite N; simpl;
        rewrite ?R2, ?R3, ?R4, ?R5, ?R6, ?R7, ?R8, ?R9, <- ?app_assoc;
        repeat split; reflexivity.
    + destruct (run client _ s1) as [[v1 tr1] s2] eqn:R.
      apply IH in R; inversion H; subst; clear H.
      destruct R as (-> & R2 & R3 & R4 & R5 & R6 & R7 & R8 & R9).
      simpl. unfold calls in *. simpl.
      rewrite ?R2, ?R3, ?R4, ?R5, ?R6, ?R7, ?R8, ?R9.
      repeat split; reflexivity.
Qed.

Lemma noteless_nil checks :
  noteless lib checks = [] <->
  (forall n ls, In (n, Ok ls) checks ->
     hasLabel lib releaseNote ls = true \/
     hasLabel lib releaseNoteActionRequired ls = true).
Proof.
  unfold noteless. induction checks as [| [m r] rest IH]; simpl.
  - split; [intros _ n ls [] | reflexivity].
  - destruct IH as [IH1 IH2]. split.
    + intros H n ls [E | I].
      * inversion E; subst. apply app_eq_nil in H as [H _].
        unfold notelessCheck in H; simpl in H.
        destruct (hasLabel lib releaseNote ls); [now left |].
        destruct (hasLabel lib releaseNoteActionRequired ls); [now right |].
        discriminate.
      * apply app_eq_nil in H as [_ H]. exact (IH1 H n ls I).
    + intros H.
      assert (notelessCheck lib (m, r) = []) as ->.
      { unfold notelessCheck; simpl. destruct r as [ls | e]; [| reflexivity].
        destruct (H m ls (or_introl eq_refl)) as [-> | ->]; simpl;
          [| rewrite andb_false_r]; reflexivity. }
      apply IH2. intros n ls I. apply (H n ls). now right.
Qed.

Lemma noteless_names checks n ls :
  In (n, Ok ls) checks ->
  hasLabel lib releaseNote ls = false ->
  hasLabel lib releaseNoteActionRequired ls = false ->
  In (lit "#" ++ Strconv.Itoa n) (noteless lib checks).
Proof.
  intros I H1 H2. unfold noteless. apply in_flat_map.
  exists (n, Ok ls). split; [assumption |].
  unfold notelessCheck; simpl. rewrite H1, H2. now left.
Qed.

Lemma length_zero {A} (l : list A) : (length l =? 0) = true <-> l = [].
Proof. destruct l; simpl; split; congruence. Qed.

(** The run of [prMustFollowRelNoteProcess] once the base branch is not
    the trunk and the body names at least one parent. *)
Lemma lineage_run pr prLabels comment s v tr s' :
  let org := Login (Owner (PRRepo pr)) in
  let repo := RepoName (PRRepo pr) in
  let parents := getCherrypickParentPRNums (PRBody (PRPullRequest pr)) in
  let missing := noteless lib (parentChecks tr) in
  run client (prMustFollowRelNoteProcess lib pr prLabels comment) s = (v, tr, s') ->
  Ref (Base (PRPullRequest pr)) <> lit "master" ->
  parents <> [] ->
  map fst (parentChecks tr) = parents
  /\ v = negb (length missing =? 0)
  /\ posted tr =
       (if negb (length missing =? 0) && comment &&
           negb (hasLabel lib releaseNoteLabelNeeded prLabels)
        then [(org, repo, PRNumber pr, parentComment lib pr missing)]
        else [])
  /\ added tr = [] /\ removals tr = []
  /\ fetches tr = [] /\ offers tr = []
  /\ botNames tr = [].
Proof.
  intros org repo parents missing H Hbase Hparents.
  unfold prMustFollowRelNoteProcess in H.
  apply str_eqb_neq in Hbase. rewrite Hbase in H.
  fold parents org repo in H.
  destruct (length parents =? 0) eqn:L.
  { apply length_zero in L. contradiction. }
  rewrite run_bind in H.
  destruct (run client (collectNoteless lib org repo (PRNumber pr) parents []) s)
    as [[v0 tr0] s1] eqn:R.
  apply collectNoteless_run in R.
  destruct R as (-> & R2 & R3 & R4 & R5 & R6 & R7 & R8 & R9). simpl app in H.
  assert (Q : forall tr1, parentChecks tr1 = [] ->
                          parentChecks (tr0 ++ tr1) = parentChecks tr0).
  { intros tr1 E. unfold parentChecks in *. now rewrite flat_map_app, E, app_nil_r. }
  destruct (length (noteless lib (parentChecks tr0)) =? 0) eqn:Z.
  - simpl in H. inversion H; subst; clear H. subst missing.
    rewrite app_nil_r, Z. simpl. repeat split; assumption.
  - destruct (comment && negb (hasLabel lib releaseNoteLabelNeeded prLabels)) eqn:C.
    + simpl in H.
      destruct (client (CreateComment org repo (PRNumber pr)
                  (parentComment lib pr (noteless lib (parentChecks tr0)))) s1)
        as [err s2] eqn:E.
      destruct err as [e |]; simpl in H; inversion H; subst; clear H;
        subst missing; rewrite Q by reflexivity; rewrite Z; simpl;
        rewrite C;
        unfold posted, added, removals, fetches, offers, botNames in *;
        rewrite !flat_map_app; simpl;
        rewrite ?R4, ?R5, ?R6, ?R7, ?R8, ?R9;
        repeat split; try reflexivity; assumption.
    + simpl in H. inversion H; subst; clear H. subst missing.
      rewrite app_nil_r, Z. simpl.
      rewrite C. repeat split; assumption.
Qed.

(** C10: when the base branch is not "master", the body names at least
    one parent and every read of a parent's labels fails, the result is
    false, although no parent was seen to carry a note label; every
    parent was tried and no comment is posted. *)
Theorem unverified_parents_exempt pr prLabels comment s :
  let out := run client (prMustFollowRelNoteProcess lib pr prLabels comment) s in
  let parents := getCherrypickParentPRNums (PRBody (PRPullRequest pr)) in
  str_eqb (Ref (Base (PRPullRequest pr))) (lit "master") = false ->
  (0 <? length parents) = true ->
  forallb (fun c => match snd c with Err _ => true | Ok _ => false end)
          (parentChecks (trace out)) = true ->
  value out = false
  /\ map fst (parentChecks (trace out)) = parents
  /\ posted (trace out) = [].
Proof.
  intros out parents Hbase Hpar Hfail.
  destruct (run client (prMustFollowRelNoteProcess lib pr prLabels comment) s)
    as [[v tr] s'] eqn:R.
  subst out. unfold value, trace in *; simpl fst in *; simpl snd in *.
  apply str_eqb_neq in Hbase.
  assert (Hne : parents <> []).
  { intro E. rewrite E in Hpar. discriminate. }
  destruct (lineage_run _ _ _ _ R Hbase Hne) as (L1 & L2 & L3 & _).
  assert (E : noteless lib (parentChecks tr) = []).
  { apply noteless_nil. intros n ls I.
    rewrite forallb_forall in Hfail. specialize (Hfail _ I). discriminate. }
  rewrite E in L2, L3. simpl in L2, L3. repeat split; assumption.
Qed.
End Lineage.

Section Cleanup.
Variable lib : Imports.
Variable St : Type.
Variable client : forall R, Op R -> St -> R * St.

(** [prMustFollowRelNoteProcess] only reads parent labels and, when it
    may, posts its one comment. *)
Lemma mustFollow_quiet pr prLabels comment s v tr s' :
  run client (prMustFollowRelNoteProcess lib pr prLabels comment) s = (v, tr, s') ->
  added tr = [] /\ removals tr = [] /\ fetches tr = [] /\ offers tr = []
  /\ botNames tr = [] /\ (comment = false -> posted tr = []).
Proof.
  intros H.
  destruct (str_eqb (Ref (Base (PRPullRequest pr))) (lit "master")) eqn:B.
  { unfold prMustFollowRelNoteProcess in H. rewrite B in H.
    inversion H; subst. repeat split; reflexivity. }
  destruct (getCherrypickParentPRNums (PRBody (PRPullRequest pr))) as [| p ps] eqn:P.
  { unfold prMustFollowRelNoteProcess in H. rewrite B, P in H.
    inversion H; subst. repeat split; reflexivity. }
  apply str_eqb_neq in B.
  assert (Hne : getCherrypickParentPRNums (PRBody (PRPullRequest pr)) <> [])
    by (rewrite P; discriminate).
  destruct (@lineage_run lib St client _ _ _ _ _ _ _ H B Hne) as (_ & _ & L3 & L4 & L5 & L6 & L7 & L8).
  repeat split; try assumption.
  intros ->. rewrite L3. rewrite andb_false_r. reflexivity.
Qed.

(** What [clearStaleComments] calls: nothing but the lineage reads when
    the comments are to stay; else [BotName] and, with its answer,
    [DeleteStaleComments] on the comments it was given. *)
Lemma clearStaleComments_run pr prLabels comments s v tr s' :
  run client (clearStaleComments lib pr prLabels comments) s = (v, tr, s') ->
  posted tr = [] /\ added tr = [] /\ removals tr = [] /\ fetches tr = []
  /\ ((offers tr = [] /\ botNames tr = [])
      \/ (exists e, offers tr = [] /\ botNames tr = [Err e] /\ v = Some e)
      \/ (exists botName, botNames tr = [Ok botName]
                          /\ offers tr = [(comments, isStale botName)])).
Proof.
  intros H. unfold clearStaleComments in H. rewrite run_bind in H.
  destruct (run client (prMustFollowRelNoteProcess lib pr prLabels false) s)
    as [[must tr0] s0] eqn:M.
  apply mustFollow_quiet in M.
  destruct M as (M1 & M2 & M3 & M4 & M5 & M6). specialize (M6 eq_refl).
  assert (App : forall tr1,
             posted (tr0 ++ tr1) = posted tr1 /\ added (tr0 ++ tr1) = added tr1
             /\ removals (tr0 ++ tr1) = removals tr1
             /\ fetches (tr0 ++ tr1) = fetches tr1
             /\ offers (tr0 ++ tr1) = offers tr1
             /\ botNames (tr0 ++ tr1) = botNames tr1).
  { intros tr1. unfold posted, added, removals, fetches, offers, botNames in *.
    rewrite !flat_map_app, M1, M2, M3, M4, M5, M6. repeat split; reflexivity. }
  destruct (must && negb (releaseNoteAlreadyAdded lib prLabels)).
  - simpl in H. inversion H; subst; clear H.
    destruct (App []) as (-> & -> & -> & -> & -> & ->).
    repeat split; try reflexivity. left. now split.
  - simpl in H. destruct (client BotName s0) as [r s1].
    destruct r as [botName | e].
    + simpl in H.
      destruct (client (DeleteStaleComments _ _ _ comments (isStale botName)) s1)
        as [err s2].
      inversion H; subst; clear H.
      match goal with |- context [tr0 ++ ?t] =>
        destruct (App t) as (-> & -> & -> & -> & -> & ->) end.
      repeat split; try reflexivity. right; right. exists botName. now split.
    + simpl in H. inversion H; subst; clear H.
      match goal with |- context [tr0 ++ ?t] =>
        destruct (App t) as (-> & -> & -> & -> & -> & ->) end.
      repeat split; try reflexivity. right; left. exists e. now repeat split.
Qed.
End Cleanup.

Section Safety.
Variable P : Event -> Prop.

Lemma always_bind {A B} (p : Prog A) (f : A -> Prog B) :
  always P p -> (forall a, always P (f a)) -> always P (bind p f).
Proof.
  intros Hp Hf. induction p as [a | R op k IH | e k IH]; simpl in *.
  - apply Hf.
  - intros r. destruct (Hp r) as [H1 H2]. split; [exact H1 | now apply IH].
  - destruct Hp as [H1 H2]. split; [exact H1 | now apply IH].
Qed.

Lemma always_run {A} (p : Prog A) St (client : forall R, Op R -> St -> R * St) s :
  always P p -> Forall P (trace (run client p s)).
Proof.
  revert s. induction p as [a | R op k IH | e k IH]; intros s H; simpl in *.
  - constructor.
  - destruct (client R op s) as [r s1]. destruct (H r) as [H1 H2].
    specialize (IH r s1 H2).
    destruct (run client (k r) s1) as [[a tr] s2]. now constructor.
  - destruct H as [H1 H2]. specialize (IH s H2).
    destruct (run client k s) as [[a tr] s1]. now constructor.
Qed.
End Safety.

(** Goes through a program whose shape is known and leaves what is to
    be shown of each of its events. *)
Ltac safe :=
  repeat (simpl;
          match goal with
          | |- always _ (bind _ _) => apply always_bind
          | |- always _ (if ?b then _ else _) => destruct b
          | |- always _ (match ?x with _ => _ end) => destruct x
          | |- _ /\ _ => split
          | |- forall _, _ => intro
          | |- True => exact I
          | H : False |- _ => destruct H
          | H : _ \/ False |- _ => destruct H as [H | []]
          | |- _ = _ => reflexivity || (symmetry; assumption) || assumption
          end).

Section Removal.
Variable lib : Imports.
Variable St : Type.
Variable client : forall R, Op R -> St -> R * St.

Lemma removeEach_run org repo number label labelSet currentLabels :
  forall errs s v tr s',
    run client (removeEach lib (fun l => call (RemoveLabel org repo number l))
                  label labelSet currentLabels errs) s = (v, tr, s') ->
    map fst (removals tr) = filter (wanted lib label currentLabels) labelSet
    /\ v = errs ++ failures (removals tr)
    /\ posted tr = [] /\ added tr = [] /\ fetches tr = [] /\ offers tr = []
    /\ botNames tr = [] /\ logged tr = [] /\ parentChecks tr = [].
Proof.
  induction labelSet as [| elem rest IH]; intros errs s v tr s' H; simpl in H.
  - inversion H; subst. simpl. rewrite app_nil_r. repeat split; reflexivity.
  - simpl filter. unfold wanted at 1.
    destruct (negb (str_eqb elem label) && hasLabel lib elem currentLabels).
    + simpl in H.
      destruct (client (RemoveLabel org repo number elem) s) as [err s1].
      destruct err as [e |];
        destruct (run client _ s1) as [[v1 tr1] s2] eqn:R;
        apply IH in R; inversion H; subst; clear H;
        destruct R as (R1 & -> & R3 & R4 & R5 & R6 & R7 & R8 & R9);
        simpl; rewrite R1, <- ?app_assoc; repeat split; try reflexivity; assumption.
    + apply IH in H. exact H.
Qed.

(** Every wanted removal is attempted, and the answer is the combined
    error exactly when one of them failed. *)
Lemma removeOtherLabels_run org repo number label labelSet currentLabels s v tr s' :
  run client (removeOtherLabels lib (fun l => call (RemoveLabel org repo number l))
                label labelSet currentLabels) s = (v, tr, s') ->
  map fst (removals tr) = filter (wanted lib label currentLabels) labelSet
  /\ v = match failures (removals tr) with
         | [] => None
         | errs => Some (removalError errs)
         end
  /\ posted tr = [] /\ added tr = [] /\ fetches tr = [] /\ offers tr = []
  /\ botNames tr = [] /\ logged tr = [] /\ parentChecks tr = [].
Proof.
  intros H. unfold removeOtherLabels in H. rewrite run_bind in H.
  destruct (run client (removeEach _ _ _ _ _ _) s) as [[errs tr0] s0] eqn:R.
  apply removeEach_run in R.
  destruct R as (R1 & -> & R3). simpl app in H.
  destruct (failures (removals tr0)) as [| e es] eqn:F; simpl in H;
    inversion H; subst; clear H; rewrite app_nil_r, F;
    split; [assumption | split; [reflexivity | assumption]
           | assumption | split; [reflexivity | assumption]].
Qed.
End Removal.

Section Apply.
Variable lib : Imports.
Variable St : Type.
Variable client : forall R, Op R -> St -> R * St.

Lemma silent_flat_map {B} (f : Event -> list B) tr :
  Forall (fun e => f e = []) tr -> flat_map f tr = [].
Proof.
  induction 1 as [| e tr H _ IH]; simpl; [reflexivity |]. now rewrite H, IH.
Qed.

Lemma labelStep_trace label tr :
  Forall (labelStep label) tr ->
  fetches tr = [] /\ offers tr = [] /\ botNames tr = []
  /\ forall l, In l (added tr) -> l = label.
Proof.
  induction 1 as [| e tr (H1 & H2 & H3 & H4) _ (I1 & I2 & I3 & I4)]; simpl.
  - repeat split; try reflexivity. intros l [].
  - unfold fetches, offers, botNames, added in *. simpl.
    rewrite H1, H2, H3, I1, I2, I3. repeat split; try reflexivity.
    intros l I. apply in_app_or in I as [I | I]; auto.
Qed.

Lemma ensure_labelStep label pr prLabels :
  always (labelStep label) (ensureNoRelNoteNeededLabel lib pr prLabels).
Proof. unfold ensureNoRelNoteNeededLabel, labelStep. safe. Qed.

(** [applyLabel]: some steps that add no label but [labelToAdd]; then,
    unless adding the label failed, the removals, the log entry for
    their combined error if there is one, and the cleanup, whose
    result is the result of the whole. *)
Lemma applyLabel_run pr prLabels labelToAdd comments s v tr s' :
  run client (applyLabel lib pr prLabels labelToAdd comments) s = (v, tr, s') ->
  exists tr1 s1,
    Forall (labelStep labelToAdd) tr1
    /\ ((exists e, v = Some e /\ tr = tr1)
        \/ let outR := run client
                         (removeOtherLabels lib
                            (fun l => call (RemoveLabel (Login (Owner (PRRepo pr)))
                                              (RepoName (PRRepo pr)) (PRNumber pr) l))
                            labelToAdd allRNLabels prLabels) s1 in
           let outC := run client (clearStaleComments lib pr prLabels comments)
                         (final outR) in
           tr = tr1 ++ trace outR
                ++ match value outR with
                   | Some e => [Logged (LogError e)]
                   | None => []
                   end
                ++ trace outC
           /\ v = value outC /\ s' = final outC).
Proof.
  intros H. unfold applyLabel in H.
  rewrite run_bind in H.
  match type of H with context [run client ?p s] =>
    pose proof (@always_run (labelStep labelToAdd) _ p St client s) as A0;
    destruct (run client p s) as [[u tr0] s0] end.
  assert (F0 : Forall (labelStep labelToAdd) tr0).
  { apply A0. destruct (str_eqb labelToAdd releaseNoteLabelNeeded).
    - unfold labelStep. safe.
    - apply ensure_labelStep. }
  clear A0. cbv beta in H. rewrite run_bind in H.
  match type of H with context [run client ?p s0] =>
    pose proof (@always_run (labelStep labelToAdd) _ p St client s0) as A1;
    destruct (run client p s0) as [[addErr tr1] s1] end.
  assert (F1 : Forall (labelStep labelToAdd) tr1).
  { apply A1. unfold labelStep. safe. }
  clear A1.
  exists (tr0 ++ tr1), s1. split; [apply Forall_app; now split |].
  destruct addErr as [e |].
  - left. exists e. simpl in H. inversion H; subst. rewrite app_nil_r. now split.
  - right. cbv zeta. cbv beta iota in H. rewrite run_bind in H.
    destruct (run client (removeOtherLabels _ _ _ _ _) s1) as [[err trR] sR].
    unfold value, trace, final; simpl fst; simpl snd.
    rewrite run_bind in H.
    destruct err as [e |]; simpl in H;
      destruct (run client (clearStaleComments _ _ _ _) sR) as [[vC trC] sC];
      inversion H; subst; clear H; simpl;
      rewrite <- ?app_assoc; simpl; repeat split; reflexivity.
Qed.

Lemma applyLabel_cleanup pr prLabels labelToAdd comments s v tr s' :
  run client (applyLabel lib pr prLabels labelToAdd comments) s = (v, tr, s') ->
  fetches tr = []
  /\ (forall l, In l (added tr) -> l = labelToAdd)
  /\ (offers tr = []
      \/ exists botName, offers tr = [(comments, isStale botName)]
                         /\ botNames tr = [Ok botName]).
Proof.
  intros H. apply applyLabel_run in H.
  destruct H as (tr1 & s1 & F & [(e & -> & ->) | H]).
  - apply labelStep_trace in F. destruct F as (F1 & F2 & F3 & F4).
    repeat split; try assumption. now left.
  - cbv zeta in H.
    destruct (run client (removeOtherLabels _ _ _ _ _) s1) as [[err trR] sR] eqn:R.
    apply removeOtherLabels_run in R.
    destruct R as (_ & _ & _ & R4 & R5 & R6 & R7 & _).
    unfold value, trace, final in H; simpl fst in H; simpl snd in H.
    destruct (run client (clearStaleComments _ _ _ _) sR) as [[vC trC] sC] eqn:C.
    apply clearStaleComments_run in C.
    destruct C as (_ & C2 & _ & C4 & C5).
    destruct H as (-> & _ & _).
    apply labelStep_trace in F. destruct F as (F1 & F2 & F3 & F4).
    set (lg := match err with Some e => [Logged (LogError e)] | None => [] end).
    assert (L : fetches lg = [] /\ added lg = [] /\ offers lg = [] /\ botNames lg = []).
    { subst lg. destruct err; repeat split; reflexivity. }
    destruct L as (L1 & L2 & L3 & L4).
    unfold fetches, added, offers, botNames in *.
    cbn [fst snd].
    rewrite !flat_map_app, F1, F2, F3, R4, R5, R6, R7, L1, L2, L3, L4, C2, C4.
    simpl. rewrite app_nil_r.
    split; [reflexivity | split; [exact F4 |]].
    destruct C5 as [(C5 & _) | [(e & C5 & _) | (botName & C5 & C6)]];
      [now left | now left | right; exists botName; now split].
Qed.

(** What one run of [handlePR] hands to [DeleteStaleComments]: nothing,
    or once the bot's stale-comment test together with the comments
    that were listed in this run or, if none were listed, the nil
    slice. *)
Lemma handlePR_cleanup pr s v tr s' :
  run client (handlePR lib pr) s = (v, tr, s') ->
  offers tr = []
  \/ exists botName comments,
       offers tr = [(comments, isStale botName)]
       /\ botNames tr = [Ok botName]
       /\ ((fetches tr = [] /\ comments = None) \/ fetches tr = [Ok comments]).
Proof.
  intros H. unfold handlePR in H.
  assert (G : forall comments pre tr0,
             offers pre = [] -> botNames pre = [] ->
             (fetches pre = [] /\ comments = None) \/ fetches pre = [Ok comments] ->
             fetches tr0 = [] ->
             (offers tr0 = []
              \/ exists botName, offers tr0 = [(comments, isStale botName)]
                                 /\ botNames tr0 = [Ok botName]) ->
             offers (pre ++ tr0) = []
             \/ exists botName comments,
                  offers (pre ++ tr0) = [(comments, isStale botName)]
                  /\ botNames (pre ++ tr0) = [Ok botName]
                  /\ ((fetches (pre ++ tr0) = [] /\ comments = None)
                      \/ fetches (pre ++ tr0) = [Ok comments])).
  { intros comments pre tr0 P1 P2 P3 A1 A3.
    unfold offers, botNames, fetches in *. rewrite !flat_map_app, P1, P2, A1.
    rewrite app_nil_r. simpl.
    destruct A3 as [A3 | (botName & A3 & A4)]; [now left |].
    right. exists botName, comments. repeat split; assumption. }
  destruct (PRAction pr);
    try (inversion H; subst; now left).
  all: simpl in H;
    destruct (client (GetIssueLabels _ _ _) s) as [[prLabels | e] s0];
    [| inversion H; subst; now left].
  all: destruct (str_eqb (determineReleaseNoteLabel lib _) releaseNoteLabelNeeded).
  all: try (destruct (run client (applyLabel _ _ _ _ _) s0) as [[v0 tr0] s1] eqn:A;
            inversion H; subst; clear H;
            apply applyLabel_cleanup in A; destruct A as (A1 & _ & A3);
            apply (G None [Called (GetIssueLabels _ _ _) (Ok prLabels)] tr0);
            [reflexivity | reflexivity | left; now split | assumption | assumption]).
  all: rewrite run_bind in H;
    destruct (run client (prMustFollowRelNoteProcess _ _ _ _) s0) as [[must trM] sM] eqn:M;
    apply mustFollow_quiet in M; destruct M as (M1 & M2 & M3 & M4 & M5 & _);
    assert (Pre : forall tl, offers tl = [] -> botNames tl = [] ->
                 offers (Called (GetIssueLabels (Login (Owner (PRRepo pr)))
                                   (RepoName (PRRepo pr)) (PRNumber pr)) (Ok prLabels)
                         :: trM ++ tl) = []
                 /\ botNames (Called (GetIssueLabels (Login (Owner (PRRepo pr)))
                                   (RepoName (PRRepo pr)) (PRNumber pr)) (Ok prLabels)
                         :: trM ++ tl) = []
                 /\ fetches (Called (GetIssueLabels (Login (Owner (PRRepo pr)))
                                   (RepoName (PRRepo pr)) (PRNumber pr)) (Ok prLabels)
                         :: trM ++ tl) = fetches tl)
      by (intros tl T1 T2; unfold offers, botNames, fetches in *; simpl;
          rewrite !flat_map_app, M3, M4, M5, T1, T2; repeat split; reflexivity);
    destruct must; simpl negb in H; cbv iota in H.
  1, 3: simpl in H;
    destruct (client (ListIssueComments _ _ _) sM) as [[comments | e] sL];
    [ destruct (run client (applyLabel _ _ _ _ _) sL) as [[v0 tr0] s1] eqn:A;
      inversion H; subst; clear H;
      apply applyLabel_cleanup in A; destruct A as (A1 & _ & A3);
      destruct (Pre [Called (ListIssueComments (Login (Owner (PRRepo pr)))
                               (RepoName (PRRepo pr)) (PRNumber pr)) (Ok comments)]
                  eq_refl eq_refl) as (Q1 & Q2 & Q3);
      match goal with |- context [offers (?e :: ?tM ++ ?l :: ?t0)] =>
        replace (e :: tM ++ l :: t0) with ((e :: tM ++ [l]) ++ t0)
          by (simpl; rewrite <- app_assoc; reflexivity) end;
      apply (G comments); try assumption; right; rewrite Q3; reflexivity
    | inversion H; subst; clear H; left;
      apply (Pre [Called (ListIssueComments (Login (Owner (PRRepo pr)))
                            (RepoName (PRRepo pr)) (PRNumber pr)) (Err e)]);
      reflexivity ].
  all: rewrite run_bind in H;
    match type of H with
    | context [run _ (ensureNoRelNoteNeededLabel _ _ ?ls) ?sx] =>
        pose proof (@always_run (labelStep []) _ _ St client sx
                      (ensure_labelStep [] pr ls)) as E;
        destruct (run client (ensureNoRelNoteNeededLabel lib pr ls) sx)
          as [[u trE] sE]
    end;
    apply labelStep_trace in E; destruct E as (E1 & E2 & E3 & _);
    destruct (run client (clearStaleComments _ _ _ _) sE) as [[vC trC] sC] eqn:C;
    inversion H; subst; clear H;
    apply clearStaleComments_run in C; destruct C as (_ & _ & _ & C4 & C5);
    destruct (Pre trE E2 E3) as (Q1 & Q2 & Q3);
    match goal with |- context [offers (?e :: ?tM ++ ?tE ++ ?tC)] =>
      replace (e :: tM ++ tE ++ tC) with ((e :: tM ++ tE) ++ tC)
        by (simpl; rewrite <- app_assoc; reflexivity) end;
    apply (G None); try assumption;
    [ left; rewrite Q3; now split
    | destruct C5 as [(C5 & _) | [(e & C5 & _) | (botName & C5 & C6)]];
      [now left | now left | right; exists botName; now split] ].
Qed.
End Apply.

Section CommentPath.
Variable lib : Imports.
Variable St : Type.
Variable client : forall R, Op R -> St -> R * St.

(** [handleComment] on a none-command left on a pull request. *)
Lemma handleComment_none ic :
  IsPullRequest lib (ICIssue ic) = true ->
  ICAction ic = IssueCommentActionCreated ->
  commandLabel (CommentBody (ICComment ic)) = Some releaseNoteNone ->
  handleComment lib ic =
  let org := Login (Owner (ICRepo ic)) in
  let repo := RepoName (ICRepo ic) in
  let number := IssueNumber (ICIssue ic) in
  r <- call (IsMember org (Login (CommentUser (ICComment ic)))) ;;
  match r with
  | Err err => Ret (Some err)
  | Ok isMember =>
      if negb isMember &&
         negb (IsAuthor lib (ICIssue ic) (Login (CommentUser (ICComment ic))))
      then call (CreateComment org repo number
                   (FormatICResponse lib (ICComment ic) notAuthorizedNotice))
      else
        let blockNL := determineReleaseNoteLabel lib (IssueBody (ICIssue ic)) in
        if str_eqb blockNL releaseNote || str_eqb blockNL releaseNoteActionRequired
        then call (CreateComment org repo number
                     (FormatICResponse lib (ICComment ic) noteInBodyNotice))
        else
          added <- (if negb (HasLabel lib (ICIssue ic) releaseNoteNone)
                    then call (AddLabel org repo number releaseNoteNone)
                    else Ret None) ;;
          match added with
          | Some err => Ret (Some err)
          | None =>
              removeOtherLabels lib
                (fun l => call (RemoveLabel org repo number l))
                releaseNoteNone allRNLabels (IssueLabels (ICIssue ic))
          end
  end.
Proof.
  intros Hpr Hact Hcmd. unfold handleComment.
  rewrite Hpr, Hact, Hcmd. reflexivity.
Qed.

End CommentPath.

Section CleanupClaims.
Variable lib : Imports.
Variable St : Type.
Variable client : forall R, Op R -> St -> R * St.

Lemma isStale_true botName c :
  isStale botName c = true ->
  Login (CommentUser c) = botName
  /\ (Strings.Contains (CommentBody c) releaseNoteBody = true
      \/ Strings.Contains (CommentBody c) parentReleaseNoteBody = true
      \/ Strings.Contains (CommentBody c) deprecatedReleaseNoteBody = true).
Proof.
  unfold isStale. intros H.
  apply andb_true_iff in H as [H1 H2]. apply str_eqb_eq in H1.
  split; [exact H1 |].
  apply orb_true_iff in H2 as [H2 | H2]; [| now right; right].
  apply orb_true_iff in H2 as [H2 | H2]; [now left | now right; left].
Qed.

(** C9: the predicate a run of [handlePR] hands to
    [DeleteStaleComments] is [isStale] for the name [BotName]
    answered in that run; it is true only of comments whose author is
    that account and whose text contains one of the three templates;
    so every comment the tracker deletes for it is such a comment. *)
Theorem stale_predicate pr s :
  let out := run client (handlePR lib pr) s in
  (forall comments stale,
      In (comments, stale) (offers (trace out)) ->
      exists botName,
        botNames (trace out) = [Ok botName] /\ stale = isStale botName)
  /\ (forall botName c,
         isStale botName c = true ->
         Login (CommentUser c) = botName
         /\ (Strings.Contains (CommentBody c) releaseNoteBody = true
             \/ Strings.Contains (CommentBody c) parentReleaseNoteBody = true
             \/ Strings.Contains (CommentBody c) deprecatedReleaseNoteBody = true))
  /\ (forall botName supplied current c,
         In c (deletedBy supplied current (isStale botName)) ->
         In c (staleCandidates supplied current)
         /\ Login (CommentUser c) = botName
         /\ (Strings.Contains (CommentBody c) releaseNoteBody = true
             \/ Strings.Contains (CommentBody c) parentReleaseNoteBody = true
             \/ Strings.Contains (CommentBody c) deprecatedReleaseNoteBody = true)).
Proof.
  intros out. split; [| split].
  - destruct (run client (handlePR lib pr) s) as [[v tr] s'] eqn:R.
    subst out. unfold trace; simpl.
    apply handlePR_cleanup in R.
    destruct R as [R | (botName & comments & R1 & R2 & _)];
      intros cs stale I; rewrite ?R, ?R1 in I.
    + destruct I.
    + destruct I as [E | []]. inversion E; subst.
      exists botName. now split.
  - apply isStale_true.
  - intros botName supplied current c I.
    unfold deletedBy in I. apply filter_In in I as [I1 I2].
    split; [exact I1 | now apply isStale_true].
Qed.
End CleanupClaims.

Section RemovalClaims.
Variable lib : Imports.
Variable St : Type.
Variable client : forall R, Op R -> St -> R * St.

End RemovalClaims.

Section Classifier.
Variable lib : Imports.

Lemma forallb_skipn {A} (p : A -> bool) n (l : list A) :
  forallb p l = true -> forallb p (skipn n l) = true.
Proof.
  revert l. induction n as [| n IH]; intros [| x l] H; simpl; auto.
  simpl in H. apply andb_true_iff in H as [_ H]. now apply IH.
Qed.

Lemma forallb_rev {A} (p : A -> bool) (l : list A) :
  forallb p (rev l) = forallb p l.
Proof.
  induction l as [| x l IH]; simpl; [reflexivity |].
  rewrite forallb_app, IH. simpl. rewrite andb_true_r. apply andb_comm.
Qed.

Lemma forallb_dropWhile (p : ascii -> bool) width fuel s :
  forallb p s = true -> forallb p (Strings.dropWhile width fuel s) = true.
Proof.
  revert s. induction fuel as [| fuel IH]; intros s H; cbn [Strings.dropWhile];
    [exact H |].
  destruct (width s) eqn:W; [exact H |]. apply IH. now apply forallb_skipn.
Qed.

Lemma isASCII_TrimSpace s :
  Strings.isASCII s = true -> Strings.isASCII (Strings.TrimSpace s) = true.
Proof.
  unfold Strings.isASCII, Strings.TrimSpace, Strings.TrimRightSpace,
    Strings.TrimLeftSpace.
  intros H. rewrite forallb_rev. apply forallb_dropWhile.
  rewrite forallb_rev. now apply forallb_dropWhile.
Qed.

Lemma lowerByte_idem c : Strings.lowerByte (Strings.lowerByte c) = Strings.lowerByte c.
Proof.
  destruct c as [[] [] [] [] [] [] [] []]; reflexivity.
Qed.

Lemma equalFold_lower t w :
  isLower w -> equalFold t w = str_eqb (map Strings.lowerByte t) w.
Proof.
  unfold isLower. revert w. induction t as [| x t IH]; intros [| y w] Hw; simpl;
    try reflexivity.
  simpl in Hw. injection Hw as Hy Hw'. rewrite Hy, (IH _ Hw').
  destruct (Ascii.eqb_spec (Strings.lowerByte x) y) as [-> | N]; simpl.
  - unfold str_eqb.
    destruct (list_eq_dec ascii_dec (map Strings.lowerByte t) w) as [-> | N];
      destruct (list_eq_dec ascii_dec _ _) as [E | N']; try reflexivity;
      congruence.
  - unfold str_eqb. destruct (list_eq_dec ascii_dec _ _) as [E | N']; congruence.
Qed.

Lemma hasPrefixFold_lower t w :
  isLower w -> hasPrefixFold t w = Strings.HasPrefix (map Strings.lowerByte t) w.
Proof.
  unfold isLower. revert t. induction w as [| y w IH]; intros t Hw.
  - destruct t; reflexivity.
  - simpl in Hw. injection Hw as Hy Hw'.
    destruct t as [| x t]; simpl; [reflexivity |].
    now rewrite Hy, (IH t Hw').
Qed.

Lemma containsFold_lower t w :
  isLower w -> containsFold t w = Strings.Contains (map Strings.lowerByte t) w.
Proof.
  intros Hw. induction t as [| x t IH]; cbn [containsFold Strings.Contains map].
  - reflexivity.
  - rewrite IH. f_equal. exact (hasPrefixFold_lower (x :: t) Hw).
Qed.

Lemma labelForNote_range note :
  exists o, labelForNote lib note = labelOf o.
Proof.
  unfold labelForNote.
  destruct (str_eqb _ []); [now exists Needed |].
  destruct (str_eqb _ noReleaseNoteComment); [now exists NoNote |].
  destruct (Strings.Contains _ actionRequiredNote);
    [now exists ActionRequired | now exists Standard].
Qed.

(** C1: the label for a note is one of the four outcomes' labels,
    decided on the trimmed, lowered note: empty gives the needed
    label, "none" the none label, text containing "action required"
    the action-required label, anything else release-note.  On ASCII
    text this is the classifier of the specification: the comparisons
    disregard case.  The four sample notes classify as stated. *)
Theorem classifier_total :
  (forall note, exists o, labelForNote lib note = labelOf o)
  /\ (forall note,
        let t := stringsToLower lib (Strings.TrimSpace note) in
        (t = [] -> labelForNote lib note = releaseNoteLabelNeeded)
        /\ (t = lit "none" -> labelForNote lib note = releaseNoteNone)
        /\ (t <> [] -> t <> lit "none" ->
            Strings.Contains t (lit "action required") = true ->
            labelForNote lib note = releaseNoteActionRequired)
        /\ (t <> [] -> t <> lit "none" ->
            Strings.Contains t (lit "action required") = false ->
            labelForNote lib note = releaseNote))
  /\ (forall note,
        Strings.isASCII note = true ->
        labelForNote lib note = labelOf (classify note))
  /\ labelForNote lib (lit "") = labelOf Needed
  /\ labelForNote lib (lit "NONE") = labelOf NoNote
  /\ labelForNote lib (lit "this requires Action Required steps") = labelOf ActionRequired
  /\ labelForNote lib (lit "Added a new flag") = labelOf Standard.
Proof.
  split; [exact labelForNote_range |].
  split.
  { intros note t. unfold labelForNote. fold t.
    repeat split.
    - intros ->. reflexivity.
    - intros ->. reflexivity.
    - intros H1 H2 H3. apply str_eqb_neq in H1, H2.
      unfold noReleaseNoteComment, actionRequiredNote. now rewrite H1, H2, H3.
    - intros H1 H2 H3. apply str_eqb_neq in H1, H2.
      unfold noReleaseNoteComment, actionRequiredNote. now rewrite H1, H2, H3. }
  split.
  { intros note A. apply isASCII_TrimSpace in A.
    unfold labelForNote, classify, stringsToLower, Strings.ToLower. rewrite A.
    destruct (Strings.TrimSpace note) as [| c t] eqn:T; [reflexivity |].
    assert (str_eqb (map Strings.lowerByte (c :: t)) [] = false) as ->
      by (apply str_eqb_neq; discriminate).
    rewrite (equalFold_lower (c :: t) (w := lit "none")) by reflexivity.
    rewrite (containsFold_lower (c :: t) (w := lit "action required")) by reflexivity.
    unfold noReleaseNoteComment, actionRequiredNote.
    destruct (str_eqb _ (lit "none")); [reflexivity |].
    destruct (Strings.Contains _ _); reflexivity. }
  repeat split; reflexivity.
Qed.
End Classifier.

Section AddedLabels.
Variable lib : Imports.

Lemma always_weaken (P Q : Event -> Prop) {A} (p : Prog A) :
  (forall e, P e -> Q e) -> always P p -> always Q p.
Proof.
  intros PQ. induction p as [a | R op k IH | e k IH]; simpl; intros H.
  - exact I.
  - intros r. destruct (H r) as [H1 H2]. split; [now apply PQ | now apply IH].
  - destruct H as [H1 H2]. split; [now apply PQ | now apply IH].
Qed.

Lemma collectNoteless_addsNothing org repo number parents acc :
  always addsNothing (collectNoteless lib org repo number parents acc).
Proof.
  revert acc. induction parents as [| parent rest IH]; intros acc; simpl; [exact I |].
  intros r. split; [reflexivity |].
  destruct r as [parentLabels | err]; simpl.
  - destruct (_ && _); apply IH.
  - split; [reflexivity | apply IH].
Qed.

Lemma mustFollow_addsNothing pr prLabels comment :
  always addsNothing (prMustFollowRelNoteProcess lib pr prLabels comment).
Proof.
  unfold prMustFollowRelNoteProcess.
  destruct (str_eqb _ _); [exact I |].
  destruct (_ =? 0); [exact I |].
  apply always_bind; [apply collectNoteless_addsNothing |].
  intros notelessParents. unfold addsNothing. safe.
Qed.

Lemma clearStaleComments_addsNothing pr prLabels comments :
  always addsNothing (clearStaleComments lib pr prLabels comments).
Proof.
  unfold clearStaleComments.
  apply always_bind; [apply mustFollow_addsNothing |].
  intros must. unfold addsNothing. safe.
Qed.

Lemma removeEach_addsNothing org repo number label labelSet currentLabels errs :
  always addsNothing
    (removeEach lib (fun l => call (RemoveLabel org repo number l))
       label labelSet currentLabels errs).
Proof.
  revert errs. induction labelSet as [| elem rest IH]; intros errs; simpl; [exact I |].
  destruct (_ && _); [| apply IH].
  simpl. intros r. split; [reflexivity |]. destruct r; apply IH.
Qed.

Lemma removeOtherLabels_addsNothing org repo number label labelSet currentLabels :
  always addsNothing
    (removeOtherLabels lib (fun l => call (RemoveLabel org repo number l))
       label labelSet currentLabels).
Proof.
  unfold removeOtherLabels.
  apply always_bind; [apply removeEach_addsNothing |].
  intros errs. destruct (0 <? _); exact I.
Qed.

Lemma ensure_addsNothing pr prLabels :
  always addsNothing (ensureNoRelNoteNeededLabel lib pr prLabels).
Proof. unfold ensureNoRelNoteNeededLabel, addsNothing. safe. Qed.

Lemma addsNothing_addsOnly label e : addsNothing e -> addsOnly label e.
Proof. unfold addsNothing, addsOnly. intros -> l []. Qed.

Lemma applyLabel_addsOnly pr prLabels labelToAdd comments :
  always (addsOnly labelToAdd) (applyLabel lib pr prLabels labelToAdd comments).
Proof.
  unfold applyLabel.
  apply always_bind.
  { destruct (str_eqb labelToAdd releaseNoteLabelNeeded).
    - unfold addsOnly. safe.
    - apply always_weaken with (P := addsNothing);
        [apply addsNothing_addsOnly | apply ensure_addsNothing]. }
  intros _. apply always_bind.
  { unfold addsOnly. safe. }
  intros [e |]; [exact I |].
  apply always_bind.
  { apply always_weaken with (P := addsNothing);
      [apply addsNothing_addsOnly | apply removeOtherLabels_addsNothing]. }
  intros err. apply always_bind.
  { destruct err; simpl; [split; [intros l [] | exact I] | exact I]. }
  intros _. apply always_weaken with (P := addsNothing);
    [apply addsNothing_addsOnly | apply clearStaleComments_addsNothing].
Qed.

Lemma determineReleaseNoteLabel_state body :
  In (determineReleaseNoteLabel lib body) stateLabels.
Proof.
  unfold determineReleaseNoteLabel.
  destruct (labelForNote_range lib (getReleaseNote body)) as [o ->].
  destruct o; simpl; auto.
Qed.

(** [handlePR] adds none but the four state labels, whatever the client
    answers. *)
Lemma handlePR_adds pr :
  always (fun e => forall l, In l (addedBy e) -> In l stateLabels) (handlePR lib pr).
Proof.
  assert (W : forall label A (p : Prog A),
             In label stateLabels -> always (addsOnly label) p ->
             always (fun e => forall l, In l (addedBy e) -> In l stateLabels) p).
  { intros label A p I. apply always_weaken. intros e H l Hl.
    now rewrite (H l Hl). }
  assert (N : forall A (p : Prog A),
             always addsNothing p ->
             always (fun e => forall l, In l (addedBy e) -> In l stateLabels) p).
  { intros A p. apply always_weaken. intros e H l Hl.
    unfold addsNothing in H. rewrite H in Hl. destruct Hl. }
  unfold handlePR. destruct (PRAction pr); try exact I.
  all: simpl; intros r; split; [intros l [] |].
  all: destruct r as [prLabels | err]; [| exact I].
  all: destruct (str_eqb _ releaseNoteLabelNeeded);
    [| apply (W (determineReleaseNoteLabel lib (PRBody (PRPullRequest pr))));
       [apply determineReleaseNoteLabel_state | apply applyLabel_addsOnly]].
  all: apply always_bind; [apply N, mustFollow_addsNothing |].
  all: intros must; destruct must; simpl.
  all: try (apply always_bind;
            [apply N, ensure_addsNothing
            | intros _; apply N, clearStaleComments_addsNothing]).
  all: intros r; split; [intros l [] |].
  all: destruct r as [comments | err]; [| exact I].
  all: match goal with |- always _ (applyLabel _ _ _ ?lab _) => apply (W lab) end;
    [destruct (containsNoneCommand _);
     [simpl; auto | apply determineReleaseNoteLabel_state]
    | apply applyLabel_addsOnly].
Qed.

(** [handleComment] adds no label but release-note-none. *)
Lemma handleComment_adds ic :
  always (addsOnly releaseNoteNone) (handleComment lib ic).
Proof.
  unfold handleComment.
  destruct (_ || _); [exact I |].
  destruct (commandLabel _) as [nl |]; [| exact I].
  destruct (_ || _); [unfold addsOnly; safe |].
  simpl. intros r. split; [intros l [] |].
  destruct r as [isMember | err]; [| exact I].
  destruct (_ && _); [unfold addsOnly; safe |].
  destruct (_ || _); [unfold addsOnly; safe |].
  apply always_bind; [unfold addsOnly; safe |].
  intros [e |]; [exact I |].
  apply always_weaken with (P := addsNothing);
    [apply addsNothing_addsOnly | apply removeOtherLabels_addsNothing].
Qed.
End AddedLabels.

Section TrackerLabels.
Variable lib : Imports.

Lemma labelOps_app tr1 tr2 : labelOps (tr1 ++ tr2) = labelOps tr1 ++ labelOps tr2.
Proof. unfold labelOps. apply flat_map_app. Qed.

(** The labels of the tracker after a run are its labels before,
    changed as the additions and removals in the trace say. *)
Lemma tracker_labels {A} (p : Prog A) t :
  labelsOf (final (run (tracker lib) p t)) =
  fold_left (applyOp lib) (labelOps (trace (run (tracker lib) p t))) (labelsOf t).
Proof.
  revert t. induction p as [a | R op k IH | e k IH]; intros t; simpl.
  - reflexivity.
  - destruct (tracker lib op t) as [r t1] eqn:E.
    specialize (IH r t1).
    destruct (run (tracker lib) (k r) t1) as [[a tr] t2].
    unfold final, trace in *; simpl in *. rewrite IH. clear IH.
    destruct op; simpl in E; inversion E; subst; reflexivity.
  - specialize (IH t). destruct (run (tracker lib) k t) as [[a tr] t1].
    exact IH.
Qed.

Lemma labelOps_nil tr : added tr = [] -> removals tr = [] -> labelOps tr = [].
Proof.
  unfold added, removals, labelOps.
  induction tr as [| e tr IH]; simpl; [reflexivity |].
  intros H1 H2. apply app_eq_nil in H1 as [H1 H1'], H2 as [H2 H2'].
  rewrite (IH H1' H2'), app_nil_r.
  destruct e as [R op r | l]; [| reflexivity].
  destruct op; simpl in *; try reflexivity; discriminate.
Qed.

Lemma hasLabel_hasKey label ls : hasLabel lib label ls = hasKey lib (stringsToLower lib label) ls.
Proof. reflexivity. Qed.

Lemma hasKey_filter k k' ls :
  hasKey lib k (filter (fun l => negb (str_eqb (stringsToLower lib (Name l)) k')) ls) =
  hasKey lib k ls && negb (str_eqb k' k).
Proof.
  unfold hasKey. induction ls as [| l ls IH]; simpl; [reflexivity |].
  destruct (str_eqb (stringsToLower lib (Name l)) k') eqn:E1; simpl.
  - rewrite IH. apply str_eqb_eq in E1. rewrite E1.
    destruct (str_eqb k' k); simpl; [now rewrite andb_false_r | reflexivity].
  - rewrite IH.
    destruct (str_eqb (stringsToLower lib (Name l)) k) eqn:E2; simpl; [| reflexivity].
    apply str_eqb_eq in E2. rewrite <- E2.
    assert (str_eqb k' (stringsToLower lib (Name l)) = false) as ->; [| reflexivity].
    apply str_eqb_neq. apply str_eqb_neq in E1. congruence.
Qed.

Lemma hasKey_app k ls ls' : hasKey lib k (ls ++ ls') = hasKey lib k ls || hasKey lib k ls'.
Proof. unfold hasKey. apply existsb_app. Qed.

Lemma update_same {A} (f : Z -> A) n a : update f n a n = a.
Proof. unfold update. now rewrite Z.eqb_refl. Qed.

(** Presence of a key on issue [n] after label changes that all concern
    issue [n]. *)
Lemma presentAfter_spec ops n k :
  Forall (fun op => opNumber op = n) ops ->
  forall labels,
    hasKey lib k (fold_left (applyOp lib) ops labels n) =
    presentAfter lib ops k (hasKey lib k (labels n)).
Proof.
  induction 1 as [| op ops Hn _ IH]; intros labels; simpl; [reflexivity |].
  unfold presentAfter in *. simpl. rewrite IH. f_equal.
  destruct op as [m label | m label]; simpl in Hn; subst m; simpl;
    rewrite update_same.
  - rewrite hasLabel_hasKey.
    destruct (hasKey lib (stringsToLower lib label) (labels n)) eqn:E.
    + destruct (str_eqb (stringsToLower lib label) k) eqn:E2.
      * apply str_eqb_eq in E2. rewrite <- E2, E. reflexivity.
      * now rewrite orb_false_r.
    + rewrite hasKey_app. simpl. now rewrite orb_false_r.
  - unfold sameLabel. apply hasKey_filter.
Qed.
End TrackerLabels.

Section LabelChanges.
Variable lib : Imports.
Variable St : Type.
Variable client : forall R, Op R -> St -> R * St.

Lemma ensure_labelOps pr prLabels s :
  labelOps (trace (run client (ensureNoRelNoteNeededLabel lib pr prLabels) s)) =
  ensureOps lib (PRNumber pr) prLabels.
Proof.
  unfold ensureNoRelNoteNeededLabel, ensureOps.
  destruct (hasLabel lib releaseNoteLabelNeeded prLabels);
    destruct (hasLabel lib deprecatedReleaseNoteLabelNeeded prLabels); simpl;
    repeat match goal with
           | |- context [client ?op ?s] => destruct (client op s) as [[?e |] ?s]; simpl
           end; reflexivity.
Qed.

Lemma removeEach_labelOps org repo number label labelSet currentLabels :
  forall errs s,
    labelOps (trace (run client
                       (removeEach lib (fun l => call (RemoveLabel org repo number l))
                          label labelSet currentLabels errs) s)) =
    map (RemoveOp number) (filter (wanted lib label currentLabels) labelSet).
Proof.
  induction labelSet as [| elem rest IH]; intros errs s; simpl; [reflexivity |].
  unfold wanted at 1.
  destruct (negb (str_eqb elem label) && hasLabel lib elem currentLabels); [| apply IH].
  simpl. destruct (client (RemoveLabel org repo number elem) s) as [err s1].
  destruct err as [e |].
  - specialize (IH (errs ++ [e]) s1).
    destruct (run client _ s1) as [[v tr] s2]. unfold trace in *; simpl in *.
    now rewrite IH.
  - specialize (IH errs s1).
    destruct (run client _ s1) as [[v tr] s2]. unfold trace in *; simpl in *.
    now rewrite IH.
Qed.

Lemma removeOtherLabels_labelOps org repo number label labelSet currentLabels s :
  labelOps (trace (run client
                     (removeOtherLabels lib (fun l => call (RemoveLabel org repo number l))
                        label labelSet currentLabels) s)) =
  map (RemoveOp number) (filter (wanted lib label currentLabels) labelSet).
Proof.
  unfold removeOtherLabels. rewrite run_bind.
  pose proof (removeEach_labelOps org repo number label labelSet currentLabels [] s) as H.
  destruct (run client (removeEach _ _ _ _ _ _) s) as [[errs tr] s1].
  unfold trace in *; simpl in *.
  destruct (0 <? length errs); simpl; now rewrite app_nil_r.
Qed.

Lemma mustFollow_labelOps pr prLabels comment s :
  labelOps (trace (run client (prMustFollowRelNoteProcess lib pr prLabels comment) s)) = [].
Proof.
  destruct (run client _ s) as [[v tr] s'] eqn:R. apply mustFollow_quiet in R.
  destruct R as (R1 & R2 & _). now apply labelOps_nil.
Qed.

Lemma clearStaleComments_labelOps pr prLabels comments s :
  labelOps (trace (run client (clearStaleComments lib pr prLabels comments) s)) = [].
Proof.
  destruct (run client _ s) as [[v tr] s'] eqn:R. apply clearStaleComments_run in R.
  destruct R as (_ & R1 & R2 & _). now apply labelOps_nil.
Qed.
End LabelChanges.

Section OnTracker.
Variable lib : Imports.

Lemma clearStaleComments_tracker pr prLabels comments t :
  value (run (tracker lib) (clearStaleComments lib pr prLabels comments) t) = None.
Proof.
  unfold clearStaleComments. rewrite run_bind.
  destruct (run (tracker lib) (prMustFollowRelNoteProcess _ _ _ _) t) as [[must tr] t1].
  destruct (must && negb (releaseNoteAlreadyAdded lib prLabels)); reflexivity.
Qed.

Lemma applyLabel_tracker pr prLabels labelToAdd comments t :
  let out := run (tracker lib) (applyLabel lib pr prLabels labelToAdd comments) t in
  value out = None
  /\ labelOps (trace out) = applyOps lib (PRNumber pr) labelToAdd prLabels.
Proof.
  intros out. subst out. unfold applyLabel, applyOps.
  rewrite run_bind.
  match goal with |- context [run (tracker lib) ?p t] =>
    assert (E1 : labelOps (trace (run (tracker lib) p t)) =
                 if str_eqb labelToAdd releaseNoteLabelNeeded then []
                 else ensureOps lib (PRNumber pr) prLabels);
    [| destruct (run (tracker lib) p t) as [[u tr1] t1]] end.
  { destruct (str_eqb labelToAdd releaseNoteLabelNeeded).
    - destruct (negb (hasLabel lib releaseNoteLabelNeeded prLabels)); reflexivity.
    - apply ensure_labelOps. }
  cbv beta. rewrite run_bind.
  match goal with |- context [run (tracker lib) ?p t1] =>
    assert (E2 : exists t2 tr2,
               run (tracker lib) p t1 = (None, tr2, t2)
               /\ labelOps tr2 = if hasLabel lib labelToAdd prLabels then []
                                 else [AddOp (PRNumber pr) labelToAdd]) end.
  { destruct (hasLabel lib labelToAdd prLabels); simpl; eauto. }
  destruct E2 as (t2 & tr2 & -> & E2). cbv beta iota.
  rewrite run_bind.
  pose proof (removeOtherLabels_labelOps lib (tracker lib)
                (Login (Owner (PRRepo pr))) (RepoName (PRRepo pr)) (PRNumber pr)
                labelToAdd allRNLabels prLabels t2) as E3.
  destruct (run (tracker lib) (removeOtherLabels _ _ _ _ _) t2) as [[err tr3] t3].
  rewrite run_bind.
  match goal with |- context [run (tracker lib) ?p t3] =>
    assert (E4 : exists tr4, run (tracker lib) p t3 = (tt, tr4, t3) /\ labelOps tr4 = [])
  end.
  { destruct err; simpl; eauto. }
  destruct E4 as (tr4 & -> & E4).
  pose proof (clearStaleComments_tracker pr prLabels comments t3) as E5.
  pose proof (clearStaleComments_labelOps lib (tracker lib) pr prLabels comments t3) as E6.
  destruct (run (tracker lib) (clearStaleComments _ _ _ _) t3) as [[v tr5] t5].
  unfold value, trace in *; simpl in *.
  split; [exact E5 |].
  rewrite !labelOps_app, E1, E2, E3, E4, E6. unfold removeOps.
  now rewrite !app_nil_r.
Qed.

Lemma elems_listed (cs : list IssueComment) :
  elems (match cs with [] => None | c :: l => Some (c :: l) end) = cs.
Proof. destruct cs; reflexivity. Qed.

(** A run of [handlePR] against the tracker: it succeeds, and its label
    changes are those of the exit for exempt cherry-picks or those of
    applying the target label. *)
Lemma handlePR_tracker pr t :
  let out := run (tracker lib) (handlePR lib pr) t in
  let prLabels := labelsOf t (PRNumber pr) in
  let label := determineReleaseNoteLabel lib (PRBody (PRPullRequest pr)) in
  let outM := run (tracker lib) (prMustFollowRelNoteProcess lib pr prLabels true) t in
  let target :=
    if str_eqb label releaseNoteLabelNeeded &&
       containsNoneCommand (commentsOf (final outM) (PRNumber pr))
    then releaseNoteNone else label in
  PRAction pr <> PullRequestActionOther ->
  value out = None
  /\ labelOps (trace out) =
       if str_eqb label releaseNoteLabelNeeded && negb (value outM)
       then ensureOps lib (PRNumber pr) prLabels
       else applyOps lib (PRNumber pr) target prLabels.
Proof.
  intros out prLabels label outM target Hact.
  assert (G : run (tracker lib) (handlePR lib pr) t =
              let '(v, tr, t') :=
                run (tracker lib)
                  (if str_eqb label releaseNoteLabelNeeded
                   then
                     must <- prMustFollowRelNoteProcess lib pr prLabels true ;;
                     if negb must
                     then ensureNoRelNoteNeededLabel lib pr prLabels ;;
                          clearStaleComments lib pr prLabels None
                     else
                       c <- call (ListIssueComments (Login (Owner (PRRepo pr)))
                                    (RepoName (PRRepo pr)) (PRNumber pr)) ;;
                       match c with
                       | Err err => Ret (Some (listCommentsError (Login (Owner (PRRepo pr)))
                                                 (RepoName (PRRepo pr)) (PRNumber pr) err))
                       | Ok comments =>
                           applyLabel lib pr prLabels
                             (if containsNoneCommand (elems comments) then releaseNoteNone
                              else label) comments
                       end
                   else applyLabel lib pr prLabels label None) t in
              (v, Called (GetIssueLabels (Login (Owner (PRRepo pr)))
                            (RepoName (PRRepo pr)) (PRNumber pr)) (Ok prLabels) :: tr, t')).
  { unfold handlePR. destruct (PRAction pr); try contradiction; reflexivity. }
  subst out. rewrite G. clear G.
  subst target. destruct (str_eqb label releaseNoteLabelNeeded) eqn:N; cbn [andb].
  - rewrite run_bind. subst outM.
    pose proof (mustFollow_labelOps lib (tracker lib) pr prLabels true t) as M.
    pose proof (@tracker_labels lib _ (prMustFollowRelNoteProcess lib pr prLabels true) t)
      as ML.
    destruct (run (tracker lib) (prMustFollowRelNoteProcess _ _ _ _) t) as [[must trM] tM].
    unfold value, trace, final in *; simpl fst in *; simpl snd in *.
    destruct must; cbn [negb].
    + simpl run.
      rewrite elems_listed.
      match goal with |- context [run (tracker lib) (applyLabel lib pr prLabels ?lab ?cs) tM] =>
        destruct (applyLabel_tracker pr prLabels lab cs tM) as [A1 A2];
        destruct (run (tracker lib) (applyLabel lib pr prLabels lab cs) tM)
          as [[v tr] t'] end.
      unfold value, trace in *; cbn [fst snd] in *.
      split; [exact A1 |].
      change (Called ?a ?b :: trM ++ ?c :: tr)
        with ([Called a b] ++ trM ++ [c] ++ tr).
      rewrite !labelOps_app, M, A2. reflexivity.
    + rewrite run_bind.
      pose proof (ensure_labelOps lib (tracker lib) pr prLabels tM) as E.
      destruct (run (tracker lib) (ensureNoRelNoteNeededLabel _ _ _) tM) as [[u trE] tE].
      pose proof (clearStaleComments_tracker pr prLabels None tE) as C1.
      pose proof (clearStaleComments_labelOps lib (tracker lib) pr prLabels None tE) as C2.
      destruct (run (tracker lib) (clearStaleComments _ _ _ _) tE) as [[v trC] tC].
      unfold value, trace in *; cbn [fst snd] in *.
      split; [exact C1 |].
      change (Called ?a ?b :: trM ++ trE ++ trC)
        with ([Called a b] ++ trM ++ trE ++ trC).
      rewrite !labelOps_app, M, E, C2. simpl. now rewrite app_nil_r.
  - destruct (applyLabel_tracker pr prLabels label None t) as [A1 A2].
    destruct (run (tracker lib) (applyLabel lib pr prLabels label None) t)
      as [[v tr] t'].
    unfold value, trace in *; cbn [fst snd] in *.
    split; [exact A1 | exact A2].
Qed.
End OnTracker.

Section Presence.
Variable lib : Imports.

Lemma ensureOps_number n prLabels :
  Forall (fun op => opNumber op = n) (ensureOps lib n prLabels).
Proof.
  unfold ensureOps.
  destruct (hasLabel lib releaseNoteLabelNeeded prLabels);
    destruct (hasLabel lib deprecatedReleaseNoteLabelNeeded prLabels);
    repeat constructor.
Qed.

Lemma applyOps_number n target prLabels :
  Forall (fun op => opNumber op = n) (applyOps lib n target prLabels).
Proof.
  unfold applyOps. apply Forall_app. split; [| apply Forall_app; split].
  - destruct (str_eqb target releaseNoteLabelNeeded);
      [constructor | apply ensureOps_number].
  - destruct (hasLabel lib target prLabels); repeat constructor.
  - unfold removeOps. apply Forall_forall. intros op I.
    apply in_map_iff in I as (l & <- & _). reflexivity.
Qed.

Ltac cases_on_labels :=
  repeat match goal with
         | H : In _ stateLabels |- _ => unfold stateLabels in H
         | H : In _ allRNLabels |- _ => unfold allRNLabels in H
         | H : In _ (_ :: _) |- _ => destruct H as [H | H]; [subst |]
         | H : In _ [] |- _ => destruct H
         end.

Ltac name_presence prLabels :=
  generalize (hasLabel lib releaseNoteNone prLabels);
  generalize (hasLabel lib releaseNoteActionRequired prLabels);
  generalize (hasLabel lib deprecatedReleaseNoteLabelNeeded prLabels);
  generalize (hasLabel lib releaseNoteLabelNeeded prLabels);
  generalize (hasLabel lib releaseNote prLabels);
  intros b1 b2 b3 b4 b5.

(** After the exit for exempt cherry-picks the two needed labels are
    gone and the presence of the other release-note labels is as before. *)
Lemma ensureOps_present n prLabels l :
  In l allRNLabels ->
  presentAfter lib (ensureOps lib n prLabels) (stringsToLower lib l) (hasLabel lib l prLabels) =
  hasLabel lib l prLabels &&
  negb (str_eqb l releaseNoteLabelNeeded || str_eqb l deprecatedReleaseNoteLabelNeeded).
Proof.
  intros Hl. unfold ensureOps. cases_on_labels; name_presence prLabels;
    destruct b1, b2, b3, b4, b5; vm_compute; reflexivity.
Qed.

(** After the target label has been applied, it is the one release-note
    label present. *)
Lemma applyOps_present n target prLabels l :
  In target stateLabels -> In l allRNLabels ->
  presentAfter lib (applyOps lib n target prLabels) (stringsToLower lib l) (hasLabel lib l prLabels) =
  str_eqb l target.
Proof.
  intros Ht Hl. unfold applyOps, ensureOps, removeOps, wanted, allRNLabels.
  cbn [filter].
  cases_on_labels; name_presence prLabels;
    destruct b1, b2, b3, b4, b5; vm_compute; reflexivity.
Qed.
End Presence.

Section LabelInvariant.
Variable lib : Imports.

Lemma added_always (P : str -> Prop) {A} (p : Prog A) St
    (client : forall R, Op R -> St -> R * St) s :
  always (fun e => forall l, In l (addedBy e) -> P l) p ->
  forall l, In l (added (trace (run client p s))) -> P l.
Proof.
  intros H l I. apply (@always_run _ _ p St client s) in H.
  unfold added in I. apply in_flat_map in I as (e & I1 & I2).
  rewrite Forall_forall in H. exact (H e I1 l I2).
Qed.

(** C4, as the code has it.  Against a tracker on which every call
    succeeds, a run of [handlePR] on an opened or edited pull request
    succeeds and, unless it takes the exit for exempt cherry-picks,
    leaves exactly one release-note label on the pull request, one of
    the four state labels, so that the deprecated alias is gone; when it
    takes that exit, the needed label and its deprecated alias are gone
    and each other release-note label is present exactly if it was
    before.  Whatever the client answers, [handlePR] adds none but the
    four state labels and [handleComment] none but release-note-none:
    the deprecated alias is never added. *)
Theorem reconciled_labels pr t :
  let out := run (tracker lib) (handlePR lib pr) t in
  let n := PRNumber pr in
  let prLabels := labelsOf t n in
  let label := determineReleaseNoteLabel lib (PRBody (PRPullRequest pr)) in
  let outM := run (tracker lib) (prMustFollowRelNoteProcess lib pr prLabels true) t in
  let exempt := str_eqb label releaseNoteLabelNeeded && negb (value outM) in
  PRAction pr <> PullRequestActionOther ->
  value out = None
  /\ (exempt = false ->
      exists target,
        In target stateLabels
        /\ forall l, In l allRNLabels ->
             hasLabel lib l (labelsOf (final out) n) = str_eqb l target)
  /\ (exempt = true ->
      forall l, In l allRNLabels ->
        hasLabel lib l (labelsOf (final out) n) =
        hasLabel lib l prLabels &&
        negb (str_eqb l releaseNoteLabelNeeded ||
              str_eqb l deprecatedReleaseNoteLabelNeeded))
  /\ (forall St (client : forall R, Op R -> St -> R * St) s l,
         In l (added (trace (run client (handlePR lib pr) s))) -> In l stateLabels)
  /\ (forall St (client : forall R, Op R -> St -> R * St) ic s l,
         In l (added (trace (run client (handleComment lib ic) s))) -> l = releaseNoteNone)
  /\ ~ In deprecatedReleaseNoteLabelNeeded stateLabels.
Proof.
  intros out n prLabels label outM exempt Hact.
  destruct (handlePR_tracker lib pr t Hact) as [V L].
  fold out n prLabels label outM exempt in V, L.
  pose proof (@tracker_labels lib _ (handlePR lib pr) t) as TL.
  fold out in TL.
  assert (P : forall l,
             hasLabel lib l (labelsOf (final out) n) =
             presentAfter lib (labelOps (trace out)) (stringsToLower lib l)
               (hasLabel lib l prLabels)).
  { intros l. rewrite TL. rewrite !hasLabel_hasKey.
    apply presentAfter_spec. rewrite L.
    destruct exempt; [apply ensureOps_number | apply applyOps_number]. }
  split; [exact V |].
  split; [| split; [| split; [| split]]].
  - intros E. rewrite E in L.
    match type of L with _ = applyOps _ _ ?tg _ => exists tg end.
    split.
    + match goal with |- In (if ?c then _ else _) _ => destruct c end;
        [simpl; auto | apply determineReleaseNoteLabel_state].
    + intros l Hl. rewrite P, L.
      apply applyOps_present; [| exact Hl].
      match goal with |- In (if ?c then _ else _) _ => destruct c end;
        [simpl; auto | apply determineReleaseNoteLabel_state].
  - intros E l Hl. rewrite E in L. rewrite P, L.
    now apply ensureOps_present.
  - intros St client s. apply added_always. apply handlePR_adds.
  - intros St client ic s. apply added_always. apply handleComment_adds.
  - intros [H | [H | [H | [H | []]]]]; discriminate.
Qed.
End LabelInvariant.

(** The run that C4's "exactly one, or zero" does not cover: an exempt
    cherry-pick that carried two release-note labels carries both
    afterwards. *)
Lemma exempt_exit_keeps_two_labels :
  value (run (tracker sampleImports) (handlePR sampleImports cherryPickPR) twoLabelTracker)
  = None
  /\ value (run (tracker sampleImports)
              (prMustFollowRelNoteProcess sampleImports cherryPickPR
                 (labelsOf twoLabelTracker 1) true) twoLabelTracker) = false
  /\ familyLabels sampleImports
       (final (run (tracker sampleImports) (handlePR sampleImports cherryPickPR)
                 twoLabelTracker)) 1
     = [releaseNoteNone; releaseNote].
Proof. vm_compute. repeat split; reflexivity. Qed.

Lemma reconciled_labels_witness :
  PRAction cherryPickPR <> PullRequestActionOther
  /\ value (run (tracker sampleImports) (handlePR sampleImports cherryPickPR)
              twoLabelTracker) = None.
Proof.
  split; [discriminate |].
  apply (reconciled_labels sampleImports cherryPickPR twoLabelTracker). discriminate.
Defined.

(** Every read of a parent's labels fails: the cherry-pick is exempt. *)
Lemma unverified_parents_exempt_witness :
  str_eqb (Ref (Base (PRPullRequest cherryPickPR))) (lit "master") = false
  /\ (0 <? length (getCherrypickParentPRNums (PRBody (PRPullRequest cherryPickPR)))) = true
  /\ value (run failingClient
              (prMustFollowRelNoteProcess sampleImports cherryPickPR [] true) tt) = false.
Proof.
  split; [reflexivity | split; [reflexivity |]].
  apply (unverified_parents_exempt sampleImports failingClient cherryPickPR [] true tt);
    reflexivity.
Defined.


Section RegexpFacts.

Lemma runs_spec p s m rest :
  In (m, rest) (runs p s) <-> s = m ++ rest /\ forallb p m = true.
Proof.
  revert m rest. induction s as [| c s IH]; intros m rest; simpl.
  - split.
    + intros [E | []]. inversion E; subst. now split.
    + intros [E _]. symmetry in E. apply app_eq_nil in E as [-> ->]. now left.
  - split.
    + intros [E | I].
      * inversion E; subst. now split.
      * destruct (p c) eqn:P; [| destruct I].
        apply in_map_iff in I as ([m' rest'] & E & I). inversion E; subst.
        apply IH in I as [-> F]. simpl. rewrite P. now split.
    + intros [E F]. destruct m as [| x m]; simpl in *.
      * left. now subst.
      * right. inversion E; subst. apply andb_true_iff in F as [P F].
        rewrite P. apply in_map_iff. exists (m, rest). split; [reflexivity |].
        apply IH. now split.
Qed.

(** Every result of [exec] is a match. *)
Lemma exec_sound r :
  forall prev s caps m rest,
    In (caps, m, rest) (exec r prev s) ->
    s = m ++ rest /\ Matches r prev m rest caps.
Proof.
  induction r as [| p | r1 IH1 r2 IH2 | r1 IH1 r2 IH2 | g p | i r IH | |];
    intros prev s caps m rest I; simpl in I.
  - destruct I as [E | []]. inversion E; subst. split; [reflexivity | constructor].
  - destruct s as [| c s]; [destruct I |].
    destruct (p c) eqn:P; [| destruct I].
    destruct I as [E | []]. inversion E; subst. split; [reflexivity | now constructor].
  - apply in_flat_map in I as ([[c1 m1] s1] & I1 & I2).
    apply in_map_iff in I2 as ([[c2 m2] s2] & E & I2). inversion E; subst.
    apply IH1 in I1 as [-> M1]. apply IH2 in I2 as [-> M2].
    split; [now rewrite app_assoc | now constructor].
  - apply in_app_or in I as [I | I].
    + apply IH1 in I as [-> M]. split; [reflexivity | now apply MAltL].
    + apply IH2 in I as [-> M]. split; [reflexivity | now apply MAltR].
  - apply in_map_iff in I as ([m' rest'] & E & I). inversion E; subst.
    assert (I' : In (m, rest) (runs p s)).
    { destruct g; [now apply in_rev | exact I]. }
    apply runs_spec in I' as [-> F]. split; [reflexivity | now constructor].
  - apply in_map_iff in I as ([[c m'] rest'] & E & I). inversion E; subst.
    apply IH in I as [-> M]. split; [reflexivity | now constructor].
  - destruct (atLineStart prev) eqn:B; [| destruct I].
    destruct I as [E | []]. inversion E; subst. split; [reflexivity | now constructor].
  - destruct (atLineEnd s) eqn:B; [| destruct I].
    destruct I as [E | []]. inversion E; subst. split; [reflexivity | now constructor].
Qed.

(** Every match is a result of [exec]. *)
Lemma exec_complete r prev m rest caps :
  Matches r prev m rest caps -> In (caps, m, rest) (exec r prev (m ++ rest)).
Proof.
  induction 1 as [prev rest | p c prev rest P
                 | r1 r2 prev m1 m2 rest c1 c2 _ IH1 _ IH2
                 | r1 r2 prev m rest c _ IH | r1 r2 prev m rest c _ IH
                 | g p prev m rest F | i r prev m rest c _ IH
                 | prev rest B | prev rest B]; simpl.
  - now left.
  - rewrite P. now left.
  - apply in_flat_map. exists (c1, m1, m2 ++ rest).
    split; [now rewrite <- app_assoc |].
    apply in_map_iff. exists (c2, m2, rest). now split.
  - apply in_or_app. now left.
  - apply in_or_app. now right.
  - apply in_map_iff. exists (m, rest). split; [reflexivity |].
    assert (I : In (m, rest) (runs p (m ++ rest))) by (apply runs_spec; now split).
    destruct g; [now apply in_rev in I | exact I].
  - apply in_map_iff. exists (c, m, rest). now split.
  - rewrite B. now left.
  - rewrite B. now left.
Qed.

Lemma lastOr_app prev a b : lastOr (lastOr prev a) b = lastOr prev (a ++ b).
Proof.
  unfold lastOr. rewrite rev_app_distr.
  destruct (rev b) as [| c l]; simpl; [| reflexivity].
  reflexivity.
Qed.

Lemma lastOr_snoc prev a c : lastOr prev (a ++ [c]) = Some c.
Proof. unfold lastOr. now rewrite rev_app_distr. Qed.

(** [search] finds the leftmost position with a match, and the first
    result of [exec] there. *)
Lemma search_some r :
  forall s prev before pre res,
    search r prev before s = Some (pre, res) ->
    exists skipped suffix tl,
      s = skipped ++ suffix
      /\ pre = rev before ++ skipped
      /\ exec r (lastOr prev skipped) suffix = res :: tl
      /\ forall skipped' suffix',
           s = skipped' ++ suffix' -> length skipped' < length skipped ->
           exec r (lastOr prev skipped') suffix' = [].
Proof.
  induction s as [| c s IH]; intros prev before pre res H; simpl in H.
  - destruct (exec r prev []) as [| x tl] eqn:E; [discriminate |].
    inversion H; subst. exists [], [], tl.
    repeat split; try reflexivity.
    + now rewrite app_nil_r.
    + exact E.
    + intros sk su _ L. simpl in L. lia.
  - destruct (exec r prev (c :: s)) as [| x tl] eqn:E.
    + apply IH in H as (sk & su & tl & -> & -> & X & N).
      exists (c :: sk), su, tl. repeat split.
      * simpl. now rewrite <- app_assoc.
      * change (c :: sk) with ([c] ++ sk). now rewrite <- lastOr_app.
      * intros sk' su' Es L. destruct sk' as [| c' sk']; simpl in *.
        -- subst su'. exact E.
        -- injection Es as Ec Es'. subst c'.
           change (c :: sk') with ([c] ++ sk'). rewrite <- lastOr_app.
           apply N; [exact Es' | lia].
    + inversion H; subst. exists [], (c :: s), tl.
      repeat split; try reflexivity.
      * now rewrite app_nil_r.
      * exact E.
      * intros sk su _ L. simpl in L. lia.
Qed.

Lemma search_none r :
  forall s prev before,
    search r prev before s = None ->
    forall skipped suffix, s = skipped ++ suffix -> exec r (lastOr prev skipped) suffix = [].
Proof.
  induction s as [| c s IH]; intros prev before H sk su E; simpl in H.
  - symmetry in E. apply app_eq_nil in E as [-> ->].
    change (lastOr prev []) with prev.
    destruct (exec r prev []); [reflexivity | discriminate].
  - destruct (exec r prev (c :: s)) as [| x tl] eqn:X; [| discriminate].
    destruct sk as [| c' sk]; simpl in E.
    + subst su. exact X.
    + injection E as Ec Es'. subst c'.
      change (c :: sk) with ([c] ++ sk). rewrite <- lastOr_app.
      eapply IH; [exact H | exact Es'].
Qed.

(** There is no match anywhere exactly when there is no way to match
    anywhere. *)
Lemma search_none_iff r s :
  search r None [] s = None <->
  forall pre m rest caps, ~ MatchesAt r s pre m rest caps.
Proof.
  split.
  - intros H pre m rest caps [E M].
    apply exec_complete in M.
    rewrite (search_none _ _ _ H pre (m ++ rest) E) in M. destruct M.
  - intros H. destruct (search r None [] s) as [[pre [[caps m] rest]] |] eqn:S;
      [| reflexivity].
    apply search_some in S as (sk & su & tl & -> & -> & X & _).
    exfalso. apply (H sk m rest caps).
    assert (I : In (caps, m, rest) (exec r (lastOr None sk) su))
      by (rewrite X; now left).
    apply exec_sound in I as [-> M]. now split.
Qed.

(** What is found is a match at the leftmost position that has one. *)
Lemma search_leftmost r s pre caps m rest :
  search r None [] s = Some (pre, (caps, m, rest)) ->
  MatchesAt r s pre m rest caps
  /\ forall pre' m' rest' caps',
       MatchesAt r s pre' m' rest' caps' -> length pre <= length pre'.
Proof.
  intros S. apply search_some in S as (sk & su & tl & -> & -> & X & N).
  simpl.
  assert (I : In (caps, m, rest) (exec r (lastOr None sk) su))
    by (rewrite X; now left).
  apply exec_sound in I as [-> M].
  split; [now split |].
  intros pre' m' rest' caps' [E' M'].
  destruct (le_lt_dec (length sk) (length pre')) as [L | L]; [exact L |].
  apply exec_complete in M'. rewrite (N pre' (m' ++ rest') E' L) in M'. destruct M'.
Qed.

(** *** Reading matches of the pattern builders *)

Lemma Matches_Cat r1 r2 prev m rest caps :
  Matches (Cat r1 r2) prev m rest caps <->
  exists m1 m2 c1 c2,
    m = m1 ++ m2 /\ caps = c1 ++ c2
    /\ Matches r1 prev m1 (m2 ++ rest) c1
    /\ Matches r2 (lastOr prev m1) m2 rest c2.
Proof.
  split.
  - intros H. inversion H; subst. exists m1, m2, c1, c2. now repeat split.
  - intros (m1 & m2 & c1 & c2 & -> & -> & H1 & H2). now constructor.
Qed.

Lemma Matches_Alt r1 r2 prev m rest caps :
  Matches (Alt r1 r2) prev m rest caps <->
  Matches r1 prev m rest caps \/ Matches r2 prev m rest caps.
Proof.
  split.
  - intros H. inversion H; subst; [now left | now right].
  - intros [H | H]; [now apply MAltL | now apply MAltR].
Qed.

Lemma Matches_Empty prev m rest caps :
  Matches Empty prev m rest caps <-> m = [] /\ caps = [].
Proof.
  split.
  - intros H. inversion H; subst. now split.
  - intros [-> ->]. constructor.
Qed.

Lemma Matches_Class p prev m rest caps :
  Matches (Class p) prev m rest caps <-> exists c, m = [c] /\ p c = true /\ caps = [].
Proof.
  split.
  - intros H. inversion H; subst. exists c. now repeat split.
  - intros (c & -> & P & ->). now constructor.
Qed.

Lemma Matches_Star g p prev m rest caps :
  Matches (Star g p) prev m rest caps <-> forallb p m = true /\ caps = [].
Proof.
  split.
  - intros H. inversion H; subst. now split.
  - intros [F ->]. now constructor.
Qed.

Lemma Matches_Group i r prev m rest caps :
  Matches (Group i r) prev m rest caps <->
  exists c, caps = c ++ [(i, m)] /\ Matches r prev m rest c.
Proof.
  split.
  - intros H. inversion H; subst. exists c. now split.
  - intros (c & -> & H). now constructor.
Qed.

Lemma Matches_Bol prev m rest caps :
  Matches Bol prev m rest caps <-> m = [] /\ caps = [] /\ atLineStart prev = true.
Proof.
  split.
  - intros H. inversion H; subst. now repeat split.
  - intros (-> & -> & B). now constructor.
Qed.

Lemma Matches_Eol prev m rest caps :
  Matches Eol prev m rest caps <-> m = [] /\ caps = [] /\ atLineEnd rest = true.
Proof.
  split.
  - intros H. inversion H; subst. now repeat split.
  - intros (-> & -> & B). now constructor.
Qed.

Lemma Matches_Opt r prev m rest caps :
  Matches (Opt r) prev m rest caps <->
  Matches r prev m rest caps \/ (m = [] /\ caps = []).
Proof. unfold Opt. now rewrite Matches_Alt, Matches_Empty. Qed.

Lemma Matches_Plus g p prev m rest caps :
  Matches (Plus g p) prev m rest caps <->
  m <> [] /\ forallb p m = true /\ caps = [].
Proof.
  unfold Plus. rewrite Matches_Cat. split.
  - intros (m1 & m2 & c1 & c2 & -> & -> & H1 & H2).
    apply Matches_Class in H1 as (c & -> & P & ->).
    apply Matches_Star in H2 as [F ->].
    repeat split; [discriminate | simpl; now rewrite P, F].
  - intros (N & F & ->). destruct m as [| c m]; [contradiction |].
    simpl in F. apply andb_true_iff in F as [P F].
    exists [c], m, [], []. repeat split.
    + apply Matches_Class. exists c. now repeat split.
    + apply Matches_Star. now split.
Qed.

Lemma only_eq c x : only c x = true <-> x = c.
Proof.
  unfold only. destruct (Ascii.eqb_spec c x); split; congruence.
Qed.

Lemma Lit_cons c w : w <> [] -> Lit (c :: w) = Cat (Class (only c)) (Lit w).
Proof. destruct w; [contradiction | reflexivity]. Qed.

Lemma Matches_Lit w : forall prev m rest caps,
  Matches (Lit w) prev m rest caps <-> m = w /\ caps = [].
Proof.
  induction w as [| c w IH]; intros prev m rest caps.
  - apply Matches_Empty.
  - destruct w as [| c' w'].
    + simpl. rewrite Matches_Class. split.
      * intros (x & -> & P & ->). apply only_eq in P. now subst.
      * intros [-> ->]. exists c. repeat split. now apply only_eq.
    + rewrite Lit_cons by discriminate. rewrite Matches_Cat. split.
      * intros (m1 & m2 & c1 & c2 & -> & -> & H1 & H2).
        apply Matches_Class in H1 as (x & -> & P & ->). apply only_eq in P. subst x.
        apply IH in H2 as [-> ->]. now split.
      * intros [-> ->]. exists [c], (c' :: w'), [], []. repeat split.
        -- apply Matches_Class. exists c. repeat split. now apply only_eq.
        -- apply IH. now split.
Qed.
End RegexpFacts.

Section CherryPick.

Lemma Matches_cpRe prev m rest caps :
  Matches cpRe prev m rest caps <->
  exists ds major minor c,
    m = cpHead ++ ds ++ cpMid ++ (major ++ lit "." ++ minor) ++ [c]
    /\ isNumber ds /\ isNumber major /\ isNumber minor
    /\ notNewline c = true
    /\ caps = [(1, ds); (2, major ++ lit "." ++ minor)].
Proof.
  unfold cpRe, isNumber. cbn [Seq]. split.
  - intros H.
    apply Matches_Cat in H as (m1 & m2 & c1 & c2 & -> & -> & H1 & H).
    apply Matches_Lit in H1 as [-> ->].
    apply Matches_Cat in H as (m1 & m3 & c1 & c3 & -> & -> & H2 & H).
    apply Matches_Group in H2 as (c & -> & H2).
    apply Matches_Plus in H2 as (N1 & F1 & ->).
    apply Matches_Cat in H as (m4 & m5 & c4 & c5 & -> & -> & H3 & H).
    apply Matches_Lit in H3 as [-> ->].
    apply Matches_Cat in H as (m6 & m7 & c6 & c7 & -> & -> & H4 & H5).
    apply Matches_Group in H4 as (c & -> & H4).
    apply Matches_Cat in H4 as (ma & m8 & c8 & c9 & -> & -> & H6 & H4).
    apply Matches_Plus in H6 as (N2 & F2 & ->).
    apply Matches_Cat in H4 as (dot & mi & c10 & c11 & -> & -> & H7 & H8).
    apply Matches_Lit in H7 as [-> ->].
    apply Matches_Plus in H8 as (N3 & F3 & ->).
    apply Matches_Class in H5 as (x & -> & P & ->).
    exists m1, ma, mi, x. repeat split; assumption.
  - intros (ds & ma & mi & c & -> & [N1 F1] & [N2 F2] & [N3 F3] & P & ->).
    apply Matches_Cat. exists cpHead, (ds ++ cpMid ++ (ma ++ lit "." ++ mi) ++ [c]), [],
      [(1, ds); (2, ma ++ lit "." ++ mi)].
    repeat split; [apply Matches_Lit; now split |].
    apply Matches_Cat. exists ds, (cpMid ++ (ma ++ lit "." ++ mi) ++ [c]), [(1, ds)],
      [(2, ma ++ lit "." ++ mi)].
    repeat split.
    { apply Matches_Group. exists []. split; [reflexivity |].
      apply Matches_Plus. now repeat split. }
    apply Matches_Cat. exists cpMid, ((ma ++ lit "." ++ mi) ++ [c]), [],
      [(2, ma ++ lit "." ++ mi)].
    repeat split; [apply Matches_Lit; now split |].
    apply Matches_Cat. exists (ma ++ lit "." ++ mi), [c], [(2, ma ++ lit "." ++ mi)], [].
    repeat split.
    { apply Matches_Group. exists []. split; [reflexivity |].
      apply Matches_Cat. exists ma, (lit "." ++ mi), [], []. repeat split.
      - apply Matches_Plus. now repeat split.
      - apply Matches_Cat. exists (lit "."), mi, [], []. repeat split.
        + apply Matches_Lit. now split.
        + apply Matches_Plus. now repeat split. }
    apply Matches_Class. exists c. now repeat split.
Qed.

Lemma digit_run_unique ds ds' x x' r r' :
  forallb digit ds = true -> forallb digit ds' = true ->
  digit x = false -> digit x' = false ->
  ds ++ x :: r = ds' ++ x' :: r' -> ds = ds'.
Proof.
  revert ds'. induction ds as [| d ds IH]; intros [| d' ds'] F F' X X' E; simpl in *.
  - reflexivity.
  - injection E as -> _. apply andb_true_iff in F' as [F' _]. congruence.
  - injection E as -> _. apply andb_true_iff in F as [F _]. congruence.
  - injection E as -> E. apply andb_true_iff in F as [_ F], F' as [_ F'].
    f_equal. now apply (IH ds').
Qed.

Lemma app_same_length {A} (a a' b b' : list A) :
  a ++ b = a' ++ b' -> length a = length a' -> a = a' /\ b = b'.
Proof.
  revert a'. induction a as [| x a IH]; intros [| x' a'] E L; simpl in *;
    try discriminate.
  - now split.
  - injection E as -> E. injection L as L. destruct (IH _ E L) as [-> ->]. now split.
Qed.

(** The number captured by the leftmost match of [cpRe]. *)
Lemma cpRe_found line pre ds major minor c post :
  line = pre ++ cpHead ++ ds ++ cpMid ++ (major ++ lit "." ++ minor) ++ c :: post ->
  isNumber ds -> isNumber major -> isNumber minor -> notNewline c = true ->
  (forall pre' m' rest' caps',
      MatchesAt cpRe line pre' m' rest' caps' -> length pre <= length pre') ->
  exists whole second, FindStringSubmatch cpRe line = [whole; ds; second].
Proof.
  intros E N1 N2 N3 P Left.
  assert (M : MatchesAt cpRe line pre
                (cpHead ++ ds ++ cpMid ++ (major ++ lit "." ++ minor) ++ [c]) post
                [(1, ds); (2, major ++ lit "." ++ minor)]).
  { split.
    - rewrite E. rewrite <- !app_assoc. reflexivity.
    - apply Matches_cpRe. exists ds, major, minor, c.
      split; [reflexivity |]. now repeat (split; [assumption |]). }
  unfold FindStringSubmatch.
  destruct (search cpRe None [] line) as [[pre' [[caps' m'] rest']] |] eqn:S.
  - apply search_leftmost in S as [[E' M'] L'].
    assert (L : length pre' = length pre).
    { apply Nat.le_antisymm; [exact (L' _ _ _ _ M) | apply (Left pre' m' rest' caps')].
      now split. }
    destruct M as [E1 _]. rewrite E1 in E'.
    apply app_same_length in E' as [<- E']; [| now symmetry].
    apply Matches_cpRe in M' as (ds' & ma' & mi' & c' & -> & [_ F'] & _ & _ & _ & ->).
    assert (ds' = ds) as ->.
    { destruct N1 as [_ F]. rewrite <- !app_assoc in E'.
      apply app_inv_head in E'. symmetry in E'.
      unfold cpMid in E'. simpl in E'.
      eapply digit_run_unique; [exact F' | exact F | | | exact E']; reflexivity. }
    eexists. eexists. reflexivity.
  - exfalso. apply (proj1 (search_none_iff cpRe line) S _ _ _ _ M).
Qed.

(** A match of [cpRe] needs its literal text, in this very case. *)
Lemma cpRe_submatch line whole ds second :
  FindStringSubmatch cpRe line = [whole; ds; second] ->
  exists pre tail,
    line = pre ++ cpHead ++ ds ++ cpMid ++ tail /\ isNumber ds.
Proof.
  unfold FindStringSubmatch. intros H.
  destruct (search cpRe None [] line) as [[pre [[caps m] rest]] |] eqn:S;
    [| discriminate].
  apply search_leftmost in S as [[E M] _].
  apply Matches_cpRe in M as (ds' & ma & mi & c & -> & N & _ & _ & _ & ->).
  injection H as _ <- _.
  exists pre, ((ma ++ lit "." ++ mi) ++ [c] ++ rest). split; [| exact N].
  rewrite E. rewrite <- !app_assoc. reflexivity.
Qed.

Lemma FindStringSubmatch_cpRe_length line :
  FindStringSubmatch cpRe line = [] \/
  exists whole first second, FindStringSubmatch cpRe line = [whole; first; second].
Proof.
  unfold FindStringSubmatch.
  destruct (search cpRe None [] line) as [[pre [[caps m] rest]] |]; [right | now left].
  eexists. eexists. eexists. reflexivity.
Qed.

Lemma digitsVal_nonneg ds acc :
  forallb digit ds = true -> (0 <= acc)%Z ->
  (0 <= fold_left (fun a c => 10 * a + Strconv.digitVal c) ds acc)%Z.
Proof.
  revert acc. induction ds as [| d ds IH]; intros acc F A; cbn [fold_left];
    [exact A |].
  simpl in F. apply andb_true_iff in F as [D F]. apply IH; [exact F |].
  unfold digit, Strconv.isDigit in D. apply andb_true_iff in D as [D1 D2].
  apply Nat.leb_le in D1. unfold Strconv.digitVal. lia.
Qed.

(** [strconv.Atoi] on a run of digits: its value, unless that exceeds
    the largest [int]. *)
Lemma Atoi_number ds :
  isNumber ds ->
  Strconv.Atoi ds =
  if (Strconv.digitsVal ds <=? Strconv.maxInt)%Z then Some (Strconv.digitsVal ds) else None.
Proof.
  intros [N F]. destruct ds as [| d ds]; [contradiction |].
  pose proof (digitsVal_nonneg (d :: ds) F (Z.le_refl 0)) as V.
  fold (Strconv.digitsVal (d :: ds)) in V.
  unfold Strconv.Atoi.
  assert (D : digit d = true) by (simpl in F; now apply andb_true_iff in F as [D _]).
  assert (Ascii.eqb d "-" = false) as ->.
  { destruct (Ascii.eqb_spec d "-") as [-> |]; [discriminate | reflexivity]. }
  assert (Ascii.eqb d "+" = false) as ->.
  { destruct (Ascii.eqb_spec d "+") as [-> |]; [discriminate | reflexivity]. }
  unfold Strconv.parseDigits.
  change (forallb Strconv.isDigit (d :: ds) = true) in F. rewrite F.
  assert ((Strconv.minInt <=? Strconv.digitsVal (d :: ds))%Z = true) as ->.
  { apply Z.leb_le. unfold Strconv.minInt. lia. }
  reflexivity.
Qed.

(** The parents of one line. *)
Lemma lineParent_found line pre ds major minor c post :
  line = pre ++ cpHead ++ ds ++ cpMid ++ (major ++ lit "." ++ minor) ++ c :: post ->
  isNumber ds -> isNumber major -> isNumber minor -> notNewline c = true ->
  (forall pre' m' rest' caps',
      MatchesAt cpRe line pre' m' rest' caps' -> length pre <= length pre') ->
  lineParent line =
  if (Strconv.digitsVal ds <=? Strconv.maxInt)%Z then [Strconv.digitsVal ds] else [].
Proof.
  intros E N1 N2 N3 P Left.
  edestruct cpRe_found as (whole & second & F); [exact E | eassumption ..|].
  unfold lineParent. rewrite F. simpl. rewrite Atoi_number by assumption.
  destruct (_ <=? _)%Z; reflexivity.
Qed.

Lemma lineParent_sound line n :
  In n (lineParent line) ->
  exists pre ds tail,
    line = pre ++ cpHead ++ ds ++ cpMid ++ tail
    /\ isNumber ds /\ Strconv.digitsVal ds = n /\ (n <= Strconv.maxInt)%Z
    /\ lineParent line = [n].
Proof.
  unfold lineParent. intros I.
  destruct (FindStringSubmatch_cpRe_length line) as [E | (whole & ds & second & E)];
    rewrite E in *; simpl in I; [destruct I |].
  edestruct cpRe_submatch as (pre & tail & El & N); [exact E |].
  simpl. simpl in I. rewrite Atoi_number in * by assumption.
  destruct (_ <=? _)%Z eqn:V; [| destruct I].
  destruct I as [<- | []]. apply Z.leb_le in V.
  exists pre, ds, tail.
  split; [exact El | split; [exact N | split; [reflexivity | split; [exact V | reflexivity]]]].
Qed.

Lemma fold_left_flat_map {A B} (f : A -> list B) l acc :
  fold_left (fun out x => out ++ f x) l acc = acc ++ flat_map f l.
Proof.
  revert acc. induction l as [| x l IH]; intros acc; simpl.
  - now rewrite app_nil_r.
  - now rewrite IH, app_assoc.
Qed.

Lemma getCherrypickParentPRNums_lines body :
  getCherrypickParentPRNums body = flat_map lineParent (Strings.Split body [nl]).
Proof.
  unfold getCherrypickParentPRNums.
  exact (fold_left_flat_map lineParent (Strings.Split body [nl]) []).
Qed.
End CherryPick.

Section Lines.

Lemma splitFrom_line l : forall cur rest,
  forallb notNewline l = true ->
  Strings.splitFrom [nl] 0 cur (l ++ rest) = Strings.splitFrom [nl] 0 (rev l ++ cur) rest.
Proof.
  induction l as [| c l IH]; intros cur rest F; simpl in *; [reflexivity |].
  apply andb_true_iff in F as [N F]. unfold notNewline in N.
  destruct (Ascii.eqb c nl); [discriminate |]. simpl.
  rewrite IH by exact F. now rewrite <- app_assoc.
Qed.

Lemma HasPrefix_nil s : Strings.HasPrefix s [] = true.
Proof. destruct s; reflexivity. Qed.

Lemma splitFrom_Join lines : forall l cur,
  Forall (fun x => forallb notNewline x = true) (l :: lines) ->
  Strings.splitFrom [nl] 0 cur (Strings.Join (l :: lines) [nl]) = (rev cur ++ l) :: lines.
Proof.
  induction lines as [| l' ls IH]; intros l cur F.
  - simpl. inversion F; subst.
    rewrite <- (app_nil_r l) at 1. rewrite splitFrom_line by assumption.
    simpl. now rewrite rev_app_distr, rev_involutive.
  - inversion F; subst.
    change (Strings.Join (l :: l' :: ls) [nl])
      with (l ++ nl :: Strings.Join (l' :: ls) [nl]).
    rewrite splitFrom_line by assumption.
    cbn [Strings.splitFrom Strings.HasPrefix]. rewrite Ascii.eqb_refl. cbn [andb length Nat.sub].
    rewrite IH by assumption. rewrite HasPrefix_nil.
    simpl. now rewrite rev_app_distr, rev_involutive.
Qed.

(** Splitting at newlines gives back the lines that were joined. *)
Lemma Split_Join l lines :
  Forall (fun x => forallb notNewline x = true) (l :: lines) ->
  Strings.Split (Strings.Join (l :: lines) [nl]) [nl] = l :: lines.
Proof. intros F. unfold Strings.Split. now rewrite splitFrom_Join. Qed.
End Lines.

Section Commands.

Lemma Matches_foldByte c prev m rest caps :
  Matches (foldByte c) prev m rest caps <-> foldsTo m [c] /\ caps = [].
Proof.
  unfold foldByte.
  assert (B : forall prev m rest caps,
             Matches (Class (fun x => Ascii.eqb (Strings.lowerByte x) (Strings.lowerByte c)))
               prev m rest caps <->
             (exists x, m = [x] /\ Strings.lowerByte x = Strings.lowerByte c) /\ caps = []).
  { intros. rewrite Matches_Class. split.
    - intros (x & -> & P & ->). apply Ascii.eqb_eq in P. split; [| reflexivity]. now exists x.
    - intros [(x & -> & P) ->]. exists x. repeat split. now apply Ascii.eqb_eq. }
  assert (One : forall m, (exists x, m = [x] /\ Strings.lowerByte x = Strings.lowerByte c)
                          -> foldsTo m [c]).
  { intros ? (x & -> & P). constructor; [exact P | constructor]. }
  destruct (Ascii.eqb_spec (Strings.lowerByte c) "s") as [S | NS];
    [| destruct (Ascii.eqb_spec (Strings.lowerByte c) "k") as [K | NK]].
  - rewrite Matches_Alt, B, Matches_Lit. split.
    + intros [[H ->] | [-> ->]]; (split; [| reflexivity]).
      * now apply One.
      * apply (@FoldLongS c [] [] S). constructor.
    + intros [H ->]. inversion H as [| x c' t w P T | c' t w P T | c' t w P T]; subst;
        inversion T; subst.
      * left. split; [| reflexivity]. now exists x.
      * right. now split.
      * congruence.
  - rewrite Matches_Alt, B, Matches_Lit. split.
    + intros [[H ->] | [-> ->]]; (split; [| reflexivity]).
      * now apply One.
      * apply (@FoldKelvin c [] [] K). constructor.
    + intros [H ->]. inversion H as [| x c' t w P T | c' t w P T | c' t w P T]; subst;
        inversion T; subst.
      * left. split; [| reflexivity]. now exists x.
      * congruence.
      * right. now split.
  - rewrite B. split.
    + intros [H ->]. split; [now apply One | reflexivity].
    + intros [H ->]. inversion H as [| x c' t w P T | c' t w P T | c' t w P T]; subst;
        inversion T; subst; try congruence.
      split; [| reflexivity]. now exists x.
Qed.

Lemma foldsTo_cons m c w :
  foldsTo m (c :: w) <-> exists m1 m2, m = m1 ++ m2 /\ foldsTo m1 [c] /\ foldsTo m2 w.
Proof.
  split.
  - intros H. inversion H as [| x c' t w' P T | c' t w' P T | c' t w' P T]; subst.
    + exists [x], t. repeat split; [constructor; [exact P | constructor] | exact T].
    + eexists. exists t. repeat split; [apply (@FoldLongS c [] [] P); constructor | exact T].
    + eexists. exists t. repeat split; [apply (@FoldKelvin c [] [] P); constructor | exact T].
  - intros (m1 & m2 & -> & H1 & H2).
    inversion H1 as [| x c' t w' P T | c' t w' P T | c' t w' P T]; subst;
      inversion T; subst; simpl.
    + now constructor.
    + now apply FoldLongS.
    + now apply FoldKelvin.
Qed.

Lemma LitFold_cons c w : w <> [] -> LitFold (c :: w) = Cat (foldByte c) (LitFold w).
Proof. destruct w; [contradiction | reflexivity]. Qed.

Lemma Matches_LitFold w : forall prev m rest caps,
  Matches (LitFold w) prev m rest caps <-> foldsTo m w /\ caps = [].
Proof.
  induction w as [| c w IH]; intros prev m rest caps.
  - simpl. rewrite Matches_Empty. split.
    + intros [-> ->]. split; [constructor | reflexivity].
    + intros [H ->]. inversion H. now split.
  - destruct w as [| c' w'].
    + apply Matches_foldByte.
    + rewrite LitFold_cons by discriminate. rewrite Matches_Cat. split.
      * intros (m1 & m2 & c1 & c2 & -> & -> & H1 & H2).
        apply Matches_foldByte in H1 as [H1 ->]. apply IH in H2 as [H2 ->].
        split; [| reflexivity]. apply foldsTo_cons. now exists m1, m2.
      * intros [H ->]. apply foldsTo_cons in H as (m1 & m2 & -> & H1 & H2).
        exists m1, m2, [], []. repeat split.
        -- apply Matches_foldByte. now split.
        -- apply IH. now split.
Qed.

(** A command pattern matches a line start, the command in any case,
    white space, and a line end. *)
Lemma Matches_commandRE command prev m rest caps :
  Matches (commandRE command) prev m rest caps <->
  exists typed ws,
    m = typed ++ ws /\ caps = []
    /\ atLineStart prev = true /\ foldsTo typed command
    /\ forallb perlSpace ws = true /\ atLineEnd rest = true.
Proof.
  unfold commandRE. cbn [Seq]. split.
  - intros H.
    apply Matches_Cat in H as (m0 & m1 & c0 & c1 & -> & -> & H0 & H).
    apply Matches_Bol in H0 as (-> & -> & B).
    apply Matches_Cat in H as (typed & m2 & c2 & c3 & -> & -> & H1 & H).
    apply Matches_LitFold in H1 as [T ->].
    apply Matches_Cat in H as (ws & m3 & c4 & c5 & -> & -> & H2 & H3).
    apply Matches_Star in H2 as [W ->].
    apply Matches_Eol in H3 as (-> & -> & E).
    exists typed, ws. rewrite app_nil_r. now repeat split.
  - intros (typed & ws & -> & -> & B & T & W & E).
    apply Matches_Cat. exists [], (typed ++ ws), [], []. repeat split.
    { apply Matches_Bol. now repeat split. }
    apply Matches_Cat. exists typed, ws, [], []. repeat split.
    { apply Matches_LitFold. now split. }
    apply Matches_Cat. exists ws, [], [], []. repeat split.
    + now rewrite app_nil_r.
    + apply Matches_Star. now split.
    + apply Matches_Eol. now repeat split.
Qed.

(** [MatchString] says whether there is a match. *)
Lemma MatchString_iff r s :
  MatchString r s = true <-> exists pre m rest caps, MatchesAt r s pre m rest caps.
Proof.
  unfold MatchString. split.
  - destruct (search r None [] s) as [[pre [[caps m] rest]] |] eqn:S; [| discriminate].
    intros _. apply search_leftmost in S as [M _]. now exists pre, m, rest, caps.
  - intros (pre & m & rest & caps & M).
    destruct (search r None [] s) eqn:S; [reflexivity |].
    exfalso. exact (proj1 (search_none_iff r s) S _ _ _ _ M).
Qed.
End Commands.

Section Recognizers.

(** C7, as the code has it.  The three comment commands are recognised
    on a line of their own and in any case: the command starts the text
    or follows a newline, and only white space separates it from the end
    of the text or the next newline.  The cherry-pick references are
    read line by line, one number per matching line, in the order of the
    lines and with repetitions; within a line the text "Cherry pick of
    #N on release-X.Y." is looked for anywhere, in exactly the case it
    is written in; the number of the first match is taken, and a line
    whose number exceeds the largest [int] contributes nothing. *)
Theorem recognizers :
  (forall command body,
      MatchString (commandRE command) body = true <->
      exists pre typed ws post,
        body = pre ++ typed ++ ws ++ post
        /\ atLineStart (lastOr None pre) = true
        /\ foldsTo typed command
        /\ forallb perlSpace ws = true
        /\ atLineEnd post = true)
  /\ (releaseNoteRe = commandRE (lit "/release-note")
      /\ releaseNoteNoneRe = commandRE (lit "/release-note-none")
      /\ releaseNoteActionRequiredRe = commandRE (lit "/release-note-action-required"))
  /\ (forall body,
         getCherrypickParentPRNums body = flat_map lineParent (Strings.Split body [nl]))
  /\ (forall l lines,
         Forall (fun x => forallb notNewline x = true) (l :: lines) ->
         getCherrypickParentPRNums (Strings.Join (l :: lines) [nl]) =
         flat_map lineParent (l :: lines))
  /\ (forall line pre ds major minor post,
         line = pre ++ cpHead ++ ds ++ cpMid ++ (major ++ lit "." ++ minor) ++ lit "." ++ post ->
         isNumber ds -> isNumber major -> isNumber minor ->
         (forall pre' m' rest' caps',
             MatchesAt cpRe line pre' m' rest' caps' -> length pre <= length pre') ->
         lineParent line =
         if (Strconv.digitsVal ds <=? Strconv.maxInt)%Z then [Strconv.digitsVal ds] else [])
  /\ (forall line n,
         In n (lineParent line) ->
         exists pre ds tail,
           line = pre ++ cpHead ++ ds ++ cpMid ++ tail
           /\ isNumber ds /\ Strconv.digitsVal ds = n /\ (n <= Strconv.maxInt)%Z
           /\ lineParent line = [n])
  /\ getCherrypickParentPRNums (lit "Cherry pick of #123 on release-1.4.") = [123%Z]
  /\ getCherrypickParentPRNums
       (lit "Cherry pick of #7 on release-1.4." ++ [nl]
        ++ lit "Cherry pick of #99999999999999999999 on release-1.4." ++ [nl]
        ++ lit "see Cherry pick of #5 on release-1.3. and more" ++ [nl]
        ++ lit "Cherry pick of #7 on release-1.4.") = [7%Z; 5%Z; 7%Z].
Proof.
  split; [| split; [| split; [| split; [| split; [| split; [| split]]]]]].
  - intros command body. rewrite MatchString_iff. split.
    + intros (pre & m & rest & caps & E & M).
      apply Matches_commandRE in M as (typed & ws & -> & _ & B & T & W & L).
      exists pre, typed, ws, rest. rewrite <- app_assoc in E. now repeat split.
    + intros (pre & typed & ws & post & -> & B & T & W & L).
      exists pre, (typed ++ ws), post, []. split.
      * now rewrite <- app_assoc.
      * apply Matches_commandRE. exists typed, ws. now repeat split.
  - repeat split; reflexivity.
  - exact getCherrypickParentPRNums_lines.
  - intros l lines F. rewrite getCherrypickParentPRNums_lines. now rewrite Split_Join.
  - intros line pre ds major minor post E N1 N2 N3 Left.
    now apply (@lineParent_found line pre ds major minor "."%char post).
  - exact lineParent_sound.
  - vm_compute. reflexivity.
  - vm_compute. reflexivity.
Qed.
End Recognizers.

(** The run that C7's "case-insensitively" does not cover: the
    cherry-pick pattern is matched in the case it is written in. *)
Lemma cherry_pick_case_sensitive :
  getCherrypickParentPRNums (lit "Cherry pick of #123 on release-1.4.") = [123%Z]
  /\ getCherrypickParentPRNums (lit "cherry pick of #123 on release-1.4.") = []
  /\ getCherrypickParentPRNums (lit "CHERRY PICK OF #123 ON RELEASE-1.4.") = [].
Proof. vm_compute. repeat split; reflexivity. Qed.

Section NoteBlocks.

Lemma noteMatcherRE_parts : noteMatcherRE = Cat noteOpenerRE noteContentRE.
Proof. reflexivity. Qed.

Lemma Matches_noteOpenerRE prev m rest caps :
  Matches noteOpenerRE prev m rest caps <-> Opener m /\ caps = [].
Proof.
  unfold noteOpenerRE, Opener, htmlComment. cbn [Seq]. rewrite Matches_Alt. split.
  - intros [H | H].
    + apply Matches_Cat in H as (m0 & m1 & c0 & c1 & -> & -> & H0 & H).
      apply Matches_Lit in H0 as [-> ->].
      apply Matches_Cat in H as (ws & m2 & c2 & c3 & -> & -> & H1 & H).
      apply Matches_Star in H1 as [W ->].
      apply Matches_Cat in H as (cmt & m3 & c4 & c5 & -> & -> & H2 & H).
      apply Matches_Cat in H as (f & tag & c6 & c7 & -> & -> & H3 & H4).
      apply Matches_Lit in H3 as [-> ->].
      apply Matches_Opt in H2. apply Matches_Opt in H4.
      assert (T : (tag = [] \/ tag = lit "release-note") /\ c7 = []).
      { destruct H4 as [H4 | [-> ->]]; [| now split; [left |]].
        apply Matches_Lit in H4 as [-> ->]. now split; [right |]. }
      destruct T as [T ->].
      assert (C : (cmt = [] \/
                   exists text ws',
                     cmt = lit "<!--" ++ text ++ lit "-->" ++ ws'
                     /\ forallb notAngle text = true /\ forallb perlSpace ws' = true)
                  /\ c4 = []).
      { destruct H2 as [H2 | [-> ->]]; [| now split; [left |]].
        apply Matches_Cat in H2 as (a & m4 & d0 & d1 & -> & -> & G0 & H2).
        apply Matches_Lit in G0 as [-> ->].
        apply Matches_Cat in H2 as (text & m5 & d2 & d3 & -> & -> & G1 & H2).
        apply Matches_Star in G1 as [X ->].
        apply Matches_Cat in H2 as (b & ws' & d4 & d5 & -> & -> & G2 & G3).
        apply Matches_Lit in G2 as [-> ->].
        apply Matches_Star in G3 as [Y ->].
        split; [| reflexivity]. right. exists text, ws'. now repeat split. }
      destruct C as [C ->].
      split; [| reflexivity]. left. exists ws, cmt, tag. now repeat split.
    + apply Matches_Lit in H as [-> ->]. split; [now right | reflexivity].
  - intros [[(ws & cmt & tag & -> & W & C & T) | ->] ->].
    + left.
      apply Matches_Cat. exists (lit "Release note**:"), (ws ++ cmt ++ fence ++ tag), [], [].
      repeat split; [apply Matches_Lit; now split |].
      apply Matches_Cat. exists ws, (cmt ++ fence ++ tag), [], [].
      repeat split; [apply Matches_Star; now split |].
      apply Matches_Cat. exists cmt, (fence ++ tag), [], [].
      repeat split.
      { apply Matches_Opt. destruct C as [-> | (text & ws' & -> & X & Y)]; [now right |].
        left.
        apply Matches_Cat. exists (lit "<!--"), (text ++ lit "-->" ++ ws'), [], [].
        repeat split; [apply Matches_Lit; now split |].
        apply Matches_Cat. exists text, (lit "-->" ++ ws'), [], [].
        repeat split; [apply Matches_Star; now split |].
        apply Matches_Cat. exists (lit "-->"), ws', [], [].
        repeat split; [apply Matches_Lit; now split | apply Matches_Star; now split]. }
      apply Matches_Cat. exists fence, tag, [], [].
      repeat split; [apply Matches_Lit; now split |].
      apply Matches_Opt. destruct T as [-> | ->]; [now right | left].
      apply Matches_Lit. now split.
    + right. apply Matches_Lit. now split.
Qed.

Lemma Matches_noteContentRE prev m rest caps :
  Matches noteContentRE prev m rest caps <->
  exists content, m = content ++ fence /\ content <> [] /\ caps = [(1, content)].
Proof.
  unfold noteContentRE. rewrite Matches_Cat. split.
  - intros (content & f & c1 & c2 & -> & -> & H1 & H2).
    apply Matches_Group in H1 as (c & -> & H1).
    apply Matches_Plus in H1 as (N & _ & ->).
    apply Matches_Lit in H2 as [-> ->].
    exists content. now repeat split.
  - intros (content & -> & N & ->).
    exists content, fence, [(1, content)], []. repeat split.
    + apply Matches_Group. exists []. split; [reflexivity |].
      apply Matches_Plus. repeat split; [exact N |].
      clear. induction content; [reflexivity | assumption].
    + apply Matches_Lit. now split.
Qed.

(** A match of [noteMatcherRE] is a block, and its submatch the contents. *)
Lemma Matches_noteMatcherRE prev m rest caps :
  Matches noteMatcherRE prev m rest caps <->
  exists opener content,
    m = opener ++ content ++ fence /\ Opener opener /\ content <> []
    /\ caps = [(1, content)].
Proof.
  rewrite noteMatcherRE_parts, Matches_Cat. split.
  - intros (o & m2 & c1 & c2 & -> & -> & H1 & H2).
    apply Matches_noteOpenerRE in H1 as [O ->].
    apply Matches_noteContentRE in H2 as (content & -> & N & ->).
    exists o, content. now repeat split.
  - intros (o & content & -> & O & N & ->).
    exists o, (content ++ fence), [], [(1, content)]. repeat split.
    + apply Matches_noteOpenerRE. now split.
    + apply Matches_noteContentRE. exists content. now repeat split.
Qed.

Lemma MatchesAt_Block body pre m rest caps :
  MatchesAt noteMatcherRE body pre m rest caps <->
  exists opener content,
    Block body pre opener content rest
    /\ m = opener ++ content ++ fence /\ caps = [(1, content)].
Proof.
  unfold MatchesAt, Block. rewrite Matches_noteMatcherRE. split.
  - intros (E & o & content & -> & O & N & ->).
    exists o, content. repeat split; try assumption.
    rewrite E. now rewrite <- !app_assoc.
  - intros (o & content & (E & O & N) & -> & ->). split.
    + rewrite E. now rewrite <- !app_assoc.
    + exists o, content. now repeat split.
Qed.

(** *** The order of the results *)






End NoteBlocks.

Section OpenerOrder.



End OpenerOrder.

Section LabelledFences.




End LabelledFences.

Section LongestOpening.







End LongestOpening.

Section Extraction.





End Extraction.

(** ** Sample runs *)

(** A cherry-pick whose parent carries neither note label must follow
    the process, and the one comment names the parent. *)
Example lineage_noteless_parent :
  value (run (tracker sampleImports)
           (prMustFollowRelNoteProcess sampleImports cherryPickPR [] true)
           notelessParentTracker) = true
  /\ posted (trace (run (tracker sampleImports)
                      (prMustFollowRelNoteProcess sampleImports cherryPickPR [] true)
                      notelessParentTracker))
     = [(lit "kubernetes", lit "kubernetes", 1%Z,
         parentComment sampleImports cherryPickPR [lit "#2"])].
Proof. vm_compute. split; reflexivity. Qed.

(** A cherry-pick whose parent carries release-note is exempt. *)
Example lineage_noted_parent :
  run (tracker sampleImports)
    (prMustFollowRelNoteProcess sampleImports cherryPickPR [] true) twoLabelTracker
  = (false,
     [Called (GetIssueLabels (lit "kubernetes") (lit "kubernetes") 2)
        (Ok [ {| Name := releaseNote |} ])],
     twoLabelTracker).
Proof. reflexivity. Qed.

(** Cleanup after the comments were listed: the listed comments are
    handed over, and the bot's advice is deleted. *)
Example cleanup_after_listing :
  fetches (trace (run (tracker sampleImports) (handlePR sampleImports emptyNotePR)
                    emptyNoteTracker))
  = [Ok (Some [staleAdvice; noneCommandComment])]
  /\ map fst (offers (trace (run (tracker sampleImports) (handlePR sampleImports emptyNotePR)
                               emptyNoteTracker)))
     = [Some [staleAdvice; noneCommandComment]]
  /\ commentsOf (final (run (tracker sampleImports) (handlePR sampleImports emptyNotePR)
                          emptyNoteTracker)) 3
     = [noneCommandComment].
Proof. vm_compute. repeat split; reflexivity. Qed.

(** Cleanup when no comments were listed: the nil slice is handed over,
    and the tracker still deletes the bot's advice. *)
Example cleanup_without_listing :
  fetches (trace (run (tracker sampleImports) (handlePR sampleImports notedPR)
                    notedTracker)) = []
  /\ map fst (offers (trace (run (tracker sampleImports) (handlePR sampleImports notedPR)
                               notedTracker))) = [None]
  /\ commentsOf (final (run (tracker sampleImports) (handlePR sampleImports notedPR)
                          notedTracker)) 4 = [].
Proof. vm_compute. repeat split; reflexivity. Qed.

(** ** Further properties of the handlers and of their parts *)

Section Loops.
Variable lib : Imports.
Variable P : Event -> Prop.

(** What holds of every read of a parent's labels and of every log
    entry holds of every event of the loop over the parents. *)
Lemma collectNoteless_always org repo number parents acc :
  (forall parent r, In parent parents -> P (Called (GetIssueLabels org repo parent) r)) ->
  (forall l, P (Logged l)) ->
  always P (collectNoteless lib org repo number parents acc).
Proof.
  intros HG HL. revert acc.
  induction parents as [| parent rest IH]; intros acc; simpl; [exact I |].
  intros r. split; [apply HG; now left |].
  assert (IH' : forall acc, always P (collectNoteless lib org repo number rest acc)).
  { apply IH. intros p r' I. apply HG. now right. }
  destruct r as [parentLabels | err]; simpl.
  - destruct (_ && _); apply IH'.
  - split; [apply HL | apply IH'].
Qed.

(** What holds of every removal of a label that is to be removed holds
    of every event of the loop of [removeOtherLabels]. *)
Lemma removeEach_always org repo number label labelSet currentLabels errs :
  (forall elem r, In elem labelSet -> wanted lib label currentLabels elem = true ->
     P (Called (RemoveLabel org repo number elem) r)) ->
  always P (removeEach lib (fun l => call (RemoveLabel org repo number l))
              label labelSet currentLabels errs).
Proof.
  intros HR. revert errs.
  induction labelSet as [| elem rest IH]; intros errs; simpl; [exact I |].
  assert (IH' : forall errs, always P (removeEach lib
                   (fun l => call (RemoveLabel org repo number l))
                   label rest currentLabels errs)).
  { apply IH. intros e r I. apply HR. now right. }
  destruct (negb (str_eqb elem label) && hasLabel lib elem currentLabels) eqn:W;
    [| apply IH'].
  simpl. intros r. split; [apply HR; [now left | exact W] |].
  destruct r; apply IH'.
Qed.

Lemma removeOtherLabels_always org repo number label labelSet currentLabels :
  (forall elem r, In elem labelSet -> wanted lib label currentLabels elem = true ->
     P (Called (RemoveLabel org repo number elem) r)) ->
  always P (removeOtherLabels lib (fun l => call (RemoveLabel org repo number l))
              label labelSet currentLabels).
Proof.
  intros HR. unfold removeOtherLabels.
  apply always_bind; [now apply removeEach_always |].
  intros errs. destruct (0 <? _); exact I.
Qed.

(** [prMustFollowRelNoteProcess]: reads of parents' labels, log
    entries and, when it may comment and the needed label is absent,
    one comment. *)
Lemma mustFollow_always pr prLabels comment :
  (forall parent r,
      P (Called (GetIssueLabels (Login (Owner (PRRepo pr))) (RepoName (PRRepo pr)) parent) r)) ->
  (forall l, P (Logged l)) ->
  (comment = true -> hasLabel lib releaseNoteLabelNeeded prLabels = false ->
   forall notelessParents r,
     P (Called (CreateComment (Login (Owner (PRRepo pr))) (RepoName (PRRepo pr))
                  (PRNumber pr) (parentComment lib pr notelessParents)) r)) ->
  always P (prMustFollowRelNoteProcess lib pr prLabels comment).
Proof.
  intros HG HL HC. unfold prMustFollowRelNoteProcess.
  destruct (str_eqb _ _); [exact I |].
  destruct (_ =? 0); [exact I |].
  apply always_bind; [apply collectNoteless_always; auto |].
  intros notelessParents. destruct (_ =? 0); [exact I |].
  apply always_bind; [| intros; exact I].
  destruct comment; simpl andb; [| exact I].
  destruct (hasLabel lib releaseNoteLabelNeeded prLabels) eqn:H; simpl negb; cbv iota;
    [exact I |].
  simpl. intros r. split; [now apply HC |].
  destruct r; simpl; [split; [apply HL | exact I] | exact I].
Qed.

(** [ensureNoRelNoteNeededLabel]: removals of the two needed labels,
    each only when the labels hold it, and log entries. *)
Lemma ensure_always pr prLabels :
  (forall l r, In l [releaseNoteLabelNeeded; deprecatedReleaseNoteLabelNeeded] ->
     hasLabel lib l prLabels = true ->
     P (Called (RemoveLabel (Login (Owner (PRRepo pr))) (RepoName (PRRepo pr))
                  (PRNumber pr) l) r)) ->
  (forall l, P (Logged l)) ->
  always P (ensureNoRelNoteNeededLabel lib pr prLabels).
Proof.
  intros HR HL. unfold ensureNoRelNoteNeededLabel.
  apply always_bind.
  - destruct (hasLabel lib releaseNoteLabelNeeded prLabels) eqn:H; [| exact I].
    simpl. intros r. split; [apply HR; [now left | exact H] |].
    destruct r; simpl; [split; [apply HL | exact I] | exact I].
  - intros _.
    destruct (hasLabel lib deprecatedReleaseNoteLabelNeeded prLabels) eqn:H; [| exact I].
    simpl. intros r. split; [apply HR; [now right; left | exact H] |].
    destruct r; simpl; [split; [apply HL | exact I] | exact I].
Qed.

(** [clearStaleComments]: the reads of the lineage check, then
    [BotName] and [DeleteStaleComments] on the comments it was given. *)
Lemma clearStaleComments_always pr prLabels comments :
  (forall parent r,
      P (Called (GetIssueLabels (Login (Owner (PRRepo pr))) (RepoName (PRRepo pr)) parent) r)) ->
  (forall l, P (Logged l)) ->
  (forall r, P (Called BotName r)) ->
  (forall botName r,
      P (Called (DeleteStaleComments (Login (Owner (PRRepo pr))) (RepoName (PRRepo pr))
                   (PRNumber pr) comments (isStale botName)) r)) ->
  always P (clearStaleComments lib pr prLabels comments).
Proof.
  intros HG HL HB HD. unfold clearStaleComments.
  apply always_bind.
  - apply mustFollow_always; auto. discriminate.
  - intros must. destruct (_ && _); [exact I |].
    simpl. intros r. split; [apply HB |].
    destruct r as [botName | err]; simpl; [| exact I].
    intros r. split; [apply HD | exact I].
Qed.

(** [applyLabel]: the advice when the needed label is applied for the
    first time, or else the removal of the needed labels; the addition
    of the label when the labels lack it; the removal of the other
    release-note labels; the cleanup. *)
Lemma applyLabel_always pr prLabels labelToAdd comments :
  let org := Login (Owner (PRRepo pr)) in
  let repo := RepoName (PRRepo pr) in
  (labelToAdd = releaseNoteLabelNeeded ->
   hasLabel lib releaseNoteLabelNeeded prLabels = false ->
   forall r,
     P (Called (CreateComment org repo (PRNumber pr)
                  (FormatResponse lib (Login (PRUser (PRPullRequest pr)))
                     releaseNoteBody releaseNoteSuffix)) r)) ->
  (labelToAdd <> releaseNoteLabelNeeded ->
   forall l r, In l [releaseNoteLabelNeeded; deprecatedReleaseNoteLabelNeeded] ->
     hasLabel lib l prLabels = true ->
     P (Called (RemoveLabel org repo (PRNumber pr) l) r)) ->
  (hasLabel lib labelToAdd prLabels = false ->
   forall r, P (Called (AddLabel org repo (PRNumber pr) labelToAdd) r)) ->
  (forall elem r, In elem allRNLabels -> wanted lib labelToAdd prLabels elem = true ->
     P (Called (RemoveLabel org repo (PRNumber pr) elem) r)) ->
  (forall l, P (Logged l)) ->
  always P (clearStaleComments lib pr prLabels comments) ->
  always P (applyLabel lib pr prLabels labelToAdd comments).
Proof.
  intros org repo HC HE HA HR HL HCl. unfold applyLabel. fold org repo.
  apply always_bind.
  { destruct (str_eqb labelToAdd releaseNoteLabelNeeded) eqn:N.
    - apply str_eqb_eq in N.
      destruct (hasLabel lib releaseNoteLabelNeeded prLabels) eqn:H; simpl negb; cbv iota;
        [exact I |].
      simpl. intros r. split; [now apply HC |].
      destruct r; simpl; [split; [apply HL | exact I] | exact I].
    - apply str_eqb_neq in N. apply ensure_always; [| exact HL].
      intros l r. now apply HE. }
  intros _. apply always_bind.
  { destruct (hasLabel lib labelToAdd prLabels) eqn:H; simpl negb; cbv iota; [exact I |].
    simpl. intros r. split; [now apply HA | exact I]. }
  intros [e |]; [exact I |].
  apply always_bind; [now apply removeOtherLabels_always |].
  intros err. apply always_bind.
  { destruct err; simpl; [split; [apply HL | exact I] | exact I]. }
  intros _. exact HCl.
Qed.
End Loops.

Section Scope.
Variable lib : Imports.
Variable St : Type.
Variable client : forall R, Op R -> St -> R * St.

Lemma wanted_true label currentLabels elem :
  wanted lib label currentLabels elem = true <->
  elem <> label /\ hasLabel lib elem currentLabels = true.
Proof.
  unfold wanted. rewrite andb_true_iff, negb_true_iff, str_eqb_neq. reflexivity.
Qed.

Lemma needed_in_family l :
  In l [releaseNoteLabelNeeded; deprecatedReleaseNoteLabelNeeded] -> In l allRNLabels.
Proof. intros [<- | [<- | []]]; simpl; auto. Qed.

Lemma applyLabel_onPullRequest pr prLabels labelToAdd comments :
  In labelToAdd stateLabels ->
  always (onPullRequest (Login (Owner (PRRepo pr))) (RepoName (PRRepo pr)) (PRNumber pr))
    (applyLabel lib pr prLabels labelToAdd comments).
Proof.
  intros T. apply applyLabel_always; simpl; auto.
  - intros _ l r Hl _. repeat split. now apply needed_in_family.
  - apply clearStaleComments_always; simpl; auto.
Qed.

(** X1: whatever the client answers, every call of [handlePR] is on
    the repository of the event: comments are posted, listed and
    deleted and labels added and removed on the pull request of the
    event only, other issues only have their labels read, and
    membership is never asked for; every label added is one of the four
    state labels and every label removed one of the five release-note
    labels. *)
Theorem handlePR_own_pull_request pr s :
  Forall (onPullRequest (Login (Owner (PRRepo pr))) (RepoName (PRRepo pr)) (PRNumber pr))
    (trace (run client (handlePR lib pr) s)).
Proof.
  apply always_run. unfold handlePR.
  destruct (PRAction pr); try exact I.
  all: simpl; intros r; split; [now split |].
  all: destruct r as [prLabels | err]; [| exact I].
  all: destruct (str_eqb _ releaseNoteLabelNeeded);
    [| apply applyLabel_onPullRequest, determineReleaseNoteLabel_state].
  all: apply always_bind; [apply mustFollow_always; simpl; auto |].
  all: intros must; destruct must; simpl.
  all: try (apply always_bind;
            [ apply ensure_always; simpl; auto;
              intros l r Hl _; repeat split; now apply needed_in_family
            | intros _; apply clearStaleComments_always; simpl; auto ]).
  all: intros r; split; [now repeat split |].
  all: destruct r as [comments | err]; [| exact I].
  all: apply applyLabel_onPullRequest.
  all: destruct (containsNoneCommand _);
    [simpl; auto | apply determineReleaseNoteLabel_state].
Qed.

(** X2: whatever the client answers, [handleComment] calls nothing but
    [IsMember] for the organisation of the repository and
    [CreateComment], [AddLabel] and [RemoveLabel] on the issue of the
    event; it adds no label but release-note-none and removes none but
    the other release-note labels; it reads no labels and no comments,
    deletes no comment and writes nothing to the log. *)
Theorem handleComment_own_issue ic s :
  Forall (onIssue (Login (Owner (ICRepo ic))) (RepoName (ICRepo ic))
            (IssueNumber (ICIssue ic)))
    (trace (run client (handleComment lib ic) s)).
Proof.
  apply always_run. unfold handleComment.
  destruct (_ || _); [exact I |].
  destruct (commandLabel _) as [label |]; [| exact I].
  destruct (_ || _); [simpl; intros r; now repeat split |].
  simpl. intros r. split; [reflexivity |].
  destruct r as [isMember | err]; [| exact I].
  destruct (_ && _); [simpl; intros r; now repeat split |].
  destruct (_ || _); [simpl; intros r; now repeat split |].
  apply always_bind.
  { destruct (negb _); [| exact I]. simpl. intros r. now repeat split. }
  intros [e |]; [exact I |].
  apply removeOtherLabels_always. intros elem r Hl W.
  apply wanted_true in W as [W _]. simpl. now repeat split.
Qed.
End Scope.

Section Results.
Variable lib : Imports.
Variable St : Type.
Variable client : forall R, Op R -> St -> R * St.

Lemma lastFailure_cons e tr :
  lastFailure (e :: tr) = match tr with [] => failureOf e | _ => lastFailure tr end.
Proof.
  unfold lastFailure. destruct tr as [| x t]; [reflexivity |].
  cbn [rev]. destruct (rev t ++ [x]) as [| y l] eqn:E.
  - apply app_eq_nil in E as [_ E]. discriminate.
  - reflexivity.
Qed.

Lemma stops_bind {A} (p : Prog A) (f : A -> Prog (option error)) :
  always (fun e => failureOf e = None) p ->
  (forall a, stopsAtFailure (f a)) ->
  stopsAtFailure (bind p f).
Proof.
  intros Hp Hf. induction p as [a | R op k IH | e k IH].
  - apply Hf.
  - cbn [bind stopsAtFailure]. intros r. cbn [always] in Hp.
    destruct (Hp r) as [Q K]. cbv beta in Q. rewrite Q. now apply IH.
  - cbn [bind stopsAtFailure]. destruct Hp as [_ K]. now apply IH.
Qed.

(** A program that stops at failures returns the failure of its last
    event, and none of its earlier events is a failure. *)
Lemma stops_run (p : Prog (option error)) :
  stopsAtFailure p ->
  forall s,
    Forall (fun e => failureOf e = None) (removelast (trace (run client p s)))
    /\ value (run client p s) = lastFailure (trace (run client p s)).
Proof.
  induction p as [v | R op k IH | e k IH]; intros H s;
    cbn [stopsAtFailure run] in *.
  - subst v. split; [constructor | reflexivity].
  - destruct (client op s) as [r s1]. specialize (H r).
    destruct (failureOf (Called op r)) as [err |] eqn:F.
    + rewrite H. cbn [run]. unfold value, trace; cbn [fst snd removelast].
      split; [constructor |]. unfold lastFailure; cbn [rev app]. now rewrite F.
    + specialize (IH r H s1).
      destruct (run client (k r) s1) as [[v tr] s2].
      unfold value, trace in *; cbn [fst snd] in *. destruct IH as [IH1 IH2].
      rewrite lastFailure_cons. destruct tr as [| x t].
      * split; [constructor |]. now rewrite F.
      * split; [| exact IH2]. cbn [removelast]. constructor; [exact F | exact IH1].
  - specialize (IH H s). destruct (run client k s) as [[v tr] s1].
    unfold value, trace in *; cbn [fst snd] in *. destruct IH as [IH1 IH2].
    rewrite lastFailure_cons. destruct tr as [| x t].
    + split; [constructor | exact IH2].
    + split; [| exact IH2]. cbn [removelast]. constructor; [reflexivity | exact IH1].
Qed.

Lemma clearStaleComments_stops pr prLabels comments :
  stopsAtFailure (clearStaleComments lib pr prLabels comments).
Proof.
  unfold clearStaleComments. apply stops_bind.
  - apply mustFollow_always; reflexivity.
  - intros must. destruct (_ && _); [reflexivity |].
    simpl. intros [botName | err]; [| reflexivity].
    simpl. intros [err |]; reflexivity.
Qed.

Lemma applyLabel_stops pr prLabels labelToAdd comments :
  stopsAtFailure (applyLabel lib pr prLabels labelToAdd comments).
Proof.
  unfold applyLabel. apply stops_bind.
  { destruct (str_eqb labelToAdd releaseNoteLabelNeeded).
    - destruct (negb _); [| exact I].
      simpl. intros r. split; [reflexivity |]. destruct r; simpl; auto.
    - apply ensure_always; reflexivity. }
  intros _.
  assert (K : stopsAtFailure
                (err <- removeOtherLabels lib
                          (fun l => call (RemoveLabel (Login (Owner (PRRepo pr)))
                                            (RepoName (PRRepo pr)) (PRNumber pr) l))
                          labelToAdd allRNLabels prLabels ;;
                 match err with
                 | Some e => Log (LogError e) (Ret tt)
                 | None => Ret tt
                 end ;;
                 clearStaleComments lib pr prLabels comments)).
  { apply stops_bind; [apply removeOtherLabels_always; reflexivity |].
    intros err. apply stops_bind; [destruct err; simpl; auto |].
    intros _. apply clearStaleComments_stops. }
  destruct (negb _); simpl; [| exact K].
  intros [err |]; [reflexivity | exact K].
Qed.

(** X3: what [handlePR] returns.  An event that is neither opened nor
    edited is ignored: nothing is called and nil is returned.  For an
    opened or edited pull request its labels are read first; when that
    read fails, the error returned says so and nothing else is called.
    When it succeeds, [handlePR] stops at the first failure to list the
    comments, to add the label, to learn the bot's name or to delete
    the stale comments, and returns that failure; when its last call
    is none of these failures it returns nil, whatever
    [CreateComment], [RemoveLabel] and the reads of the parents' labels
    answered. *)
Theorem handlePR_result pr s :
  let out := run client (handlePR lib pr) s in
  let first := GetIssueLabels (Login (Owner (PRRepo pr))) (RepoName (PRRepo pr))
                 (PRNumber pr) in
  (PRAction pr = PullRequestActionOther -> trace out = [] /\ value out = None)
  /\ (PRAction pr <> PullRequestActionOther ->
      match fst (client first s) with
      | Err err =>
          trace out = [Called first (Err err)]
          /\ value out = Some (listLabelsError (PRNumber pr) err)
      | Ok prLabels =>
          exists rest,
            trace out = Called first (Ok prLabels) :: rest
            /\ Forall (fun e => failureOf e = None) (removelast rest)
            /\ value out = lastFailure rest
      end).
Proof.
  intros out first. subst out.
  assert (K : forall prLabels,
             stopsAtFailure
               (let labelToAdd := determineReleaseNoteLabel lib (PRBody (PRPullRequest pr)) in
                if str_eqb labelToAdd releaseNoteLabelNeeded
                then
                  must <- prMustFollowRelNoteProcess lib pr prLabels true ;;
                  if negb must
                  then ensureNoRelNoteNeededLabel lib pr prLabels ;;
                       clearStaleComments lib pr prLabels None
                  else
                    c <- call (ListIssueComments (Login (Owner (PRRepo pr)))
                                 (RepoName (PRRepo pr)) (PRNumber pr)) ;;
                    match c with
                    | Err err =>
                        Ret (Some (listCommentsError (Login (Owner (PRRepo pr)))
                                     (RepoName (PRRepo pr)) (PRNumber pr) err))
                    | Ok comments =>
                        applyLabel lib pr prLabels
                          (if containsNoneCommand (elems comments) then releaseNoteNone
                           else labelToAdd) comments
                    end
                else applyLabel lib pr prLabels labelToAdd None)).
  { intros prLabels. cbv zeta.
    destruct (str_eqb _ releaseNoteLabelNeeded); [| apply applyLabel_stops].
    apply stops_bind; [apply mustFollow_always; reflexivity |].
    intros must. destruct must; simpl negb; cbv iota.
    - simpl. intros [comments | err]; [apply applyLabel_stops | reflexivity].
    - apply stops_bind; [apply ensure_always; reflexivity |].
      intros _. apply clearStaleComments_stops. }
  unfold handlePR. split.
  - intros ->. now split.
  - intros A. destruct (PRAction pr) eqn:E; try contradiction.
    all: simpl; fold first.
    all: destruct (client first s) as [[prLabels | err] s0]; cbn [fst];
      [| now split].
    all: pose proof (stops_run _ (K prLabels) s0) as [R1 R2]; cbv zeta in R1, R2.
    all: destruct (run client _ s0) as [[v tr] s1].
    all: exists tr; unfold value, trace in *; cbn [fst snd] in *; now repeat split.
Qed.
End Results.

Section CommentOutcome.
Variable lib : Imports.
Variable St : Type.
Variable client : forall R, Op R -> St -> R * St.

Lemma calls_removals tr :
  Forall (fun e => isCall e = true /\ length (removalBy e) = 1) tr ->
  calls tr = length (removals tr).
Proof.
  unfold calls, removals.
  induction 1 as [| e tr [H1 H2] _ IH]; simpl; [reflexivity |].
  rewrite H1, length_app, H2. simpl. now rewrite IH.
Qed.

Lemma removeOtherLabels_calls org repo number label labelSet currentLabels s :
  calls (trace (run client
                  (removeOtherLabels lib (fun l => call (RemoveLabel org repo number l))
                     label labelSet currentLabels) s))
  = length (filter (wanted lib label currentLabels) labelSet).
Proof.
  rewrite calls_removals.
  - destruct (run client _ s) as [[v tr] s'] eqn:R.
    apply removeOtherLabels_run in R. destruct R as (R1 & _).
    unfold trace; simpl. now rewrite <- R1, length_map.
  - apply always_run. apply removeOtherLabels_always. intros elem r _ _. now split.
Qed.

Lemma others_of_none currentLabels :
  length (filter (wanted lib releaseNoteNone currentLabels) allRNLabels) <= 4.
Proof.
  unfold allRNLabels, wanted. cbn [filter].
  rewrite str_eqb_refl. cbn [negb andb].
  repeat match goal with
         | |- context [if ?b then _ else _] => destruct b
         end; simpl; lia.
Qed.

(** X4: the outcomes of [handleComment].  An event that is not about a
    pull request, or not the creation of a comment, or whose comment
    holds none of the three commands, is ignored without a call.
    Otherwise at most one comment is posted, one of the three notices
    and addressed to the commenter; when one is posted, it is the last
    call, no label is added or removed, and what [CreateComment]
    answers is returned.  No run makes more than six calls. *)
Theorem handleComment_outcome ic s :
  let out := run client (handleComment lib ic) s in
  let org := Login (Owner (ICRepo ic)) in
  let repo := RepoName (ICRepo ic) in
  let number := IssueNumber (ICIssue ic) in
  (IsPullRequest lib (ICIssue ic) = false
   \/ ICAction ic <> IssueCommentActionCreated
   \/ commandLabel (CommentBody (ICComment ic)) = None ->
   trace out = [] /\ value out = None)
  /\ (posted (trace out) = []
      \/ exists pre notice r,
           In notice [deprecationNotice; notAuthorizedNotice; noteInBodyNotice]
           /\ trace out =
                pre ++ [Called (CreateComment org repo number
                                  (FormatICResponse lib (ICComment ic) notice)) r]
           /\ posted pre = []
           /\ added (trace out) = [] /\ removals (trace out) = []
           /\ value out = r)
  /\ calls (trace out) <= 6.
Proof.
  intros out org repo number. subst out. unfold handleComment. fold org repo number.
  destruct (IsPullRequest lib (ICIssue ic)) eqn:Hpr; cbn [negb orb];
    [| split; [now split | split; [now left | unfold calls; simpl; lia]]].
  destruct (ICAction ic) eqn:Hact;
    try (split; [now split | split; [now left | unfold calls; simpl; lia]]).
  destruct (commandLabel (CommentBody (ICComment ic))) as [label |] eqn:Hcmd;
    [| split; [now split | split; [now left | unfold calls; simpl; lia]]].
  split; [intros [? | [? | ?]]; congruence |].
  destruct (str_eqb label releaseNote || str_eqb label releaseNoteActionRequired).
  { simpl. destruct (client (CreateComment _ _ _ _) s) as [r s1].
    split; [| unfold calls; simpl; lia].
    right. exists [], deprecationNotice, r.
    unfold trace, value; simpl. repeat split; auto. }
  simpl. destruct (client (IsMember _ _) s) as [[isMember | err] s1];
    [| split; [now left | unfold calls; simpl; lia]].
  destruct (negb isMember && negb _).
  { simpl. destruct (client (CreateComment _ _ _ _) s1) as [r s2].
    split; [| unfold calls; simpl; lia].
    right. eexists [_], notAuthorizedNotice, r.
    unfold trace, value; simpl. repeat split; auto. }
  destruct (_ || _).
  { simpl. destruct (client (CreateComment _ _ _ _) s1) as [r s2].
    split; [| unfold calls; simpl; lia].
    right. eexists [_], noteInBodyNotice, r.
    unfold trace, value; simpl. repeat split; auto. }
  assert (Tail : forall s2,
             posted (trace (run client
                              (removeOtherLabels lib
                                 (fun l => call (RemoveLabel org repo number l))
                                 releaseNoteNone allRNLabels (IssueLabels (ICIssue ic)))
                              s2)) = []
             /\ calls (trace (run client
                                (removeOtherLabels lib
                                   (fun l => call (RemoveLabel org repo number l))
                                   releaseNoteNone allRNLabels (IssueLabels (ICIssue ic)))
                                s2)) <= 4).
  { intros s2. split.
    - destruct (run client _ s2) as [[v tr] s3] eqn:R.
      apply removeOtherLabels_run in R. now destruct R as (_ & _ & R & _).
    - rewrite removeOtherLabels_calls. apply others_of_none. }
  destruct (negb (HasLabel lib (ICIssue ic) releaseNoteNone)); simpl.
  - destruct (client (AddLabel _ _ _ _) s1) as [[e |] s2]; simpl.
    + split; [now left | unfold calls; simpl; lia].
    + destruct (Tail s2) as [T1 T2].
      destruct (run client (removeOtherLabels _ _ _ _ _) s2) as [[v tr] s3].
      unfold trace in *; cbn [fst snd] in *.
      split; [left; exact T1 | unfold calls in *; simpl; lia].
  - destruct (Tail s1) as [T1 T2].
    destruct (run client (removeOtherLabels _ _ _ _ _) s1) as [[v tr] s3].
    unfold trace in *; cbn [fst snd] in *.
    split; [left; exact T1 | unfold calls in *; simpl; lia].
Qed.
End CommentOutcome.

Section Unfolding.
Variable lib : Imports.
Variable St : Type.
Variable client : forall R, Op R -> St -> R * St.

Lemma handlePR_labelPullRequest pr :
  handlePR lib pr =
  match PRAction pr with
  | PullRequestActionOther => Ret None
  | _ =>
      r <- call (GetIssueLabels (Login (Owner (PRRepo pr))) (RepoName (PRRepo pr))
                   (PRNumber pr)) ;;
      match r with
      | Err err => Ret (Some (listLabelsError (PRNumber pr) err))
      | Ok prLabels => labelPullRequest lib pr prLabels
      end
  end.
Proof. unfold handlePR. destruct (PRAction pr); reflexivity. Qed.

(** A run of [handlePR] whose first call gave the labels. *)
Lemma handlePR_run_labels pr s prLabels s0 :
  PRAction pr <> PullRequestActionOther ->
  client (GetIssueLabels (Login (Owner (PRRepo pr))) (RepoName (PRRepo pr)) (PRNumber pr)) s
  = (Ok prLabels, s0) ->
  run client (handlePR lib pr) s =
  let '(v, tr, s') := run client (labelPullRequest lib pr prLabels) s0 in
  (v, Called (GetIssueLabels (Login (Owner (PRRepo pr))) (RepoName (PRRepo pr))
                (PRNumber pr)) (Ok prLabels) :: tr, s').
Proof.
  intros A H. rewrite handlePR_labelPullRequest.
  destruct (PRAction pr); try contradiction; simpl; rewrite H; reflexivity.
Qed.

(** What holds of the first read and of every event after it holds of
    the trace of [handlePR]. *)
Lemma handlePR_from_labels (P : Event -> Prop) pr s :
  (forall r, P (Called (GetIssueLabels (Login (Owner (PRRepo pr))) (RepoName (PRRepo pr))
                          (PRNumber pr)) r)) ->
  (forall prLabels s0,
      client (GetIssueLabels (Login (Owner (PRRepo pr))) (RepoName (PRRepo pr))
                (PRNumber pr)) s = (Ok prLabels, s0) ->
      always P (labelPullRequest lib pr prLabels)) ->
  Forall P (trace (run client (handlePR lib pr) s)).
Proof.
  intros H1 H2. rewrite handlePR_labelPullRequest.
  destruct (PRAction pr); try (constructor; fail).
  all: simpl;
    destruct (client (GetIssueLabels _ _ _) s) as [[prLabels | err] s0] eqn:E;
    [| constructor; [apply H1 | constructor]].
  all: pose proof (@always_run P _ (labelPullRequest lib pr prLabels) St client s0
                     (H2 prLabels s0 eq_refl)) as F.
  all: destruct (run client (labelPullRequest lib pr prLabels) s0) as [[v tr] s1].
  all: constructor; [apply H1 | exact F].
Qed.

Lemma MatchString_commandRE command body :
  MatchString (commandRE command) body = true <-> hasCommandLine command body.
Proof.
  rewrite MatchString_iff. unfold hasCommandLine. split.
  - intros (pre & m & rest & caps & E & M).
    apply Matches_commandRE in M as (typed & ws & -> & _ & B & T & W & L).
    exists pre, typed, ws, rest. rewrite <- app_assoc in E. now repeat split.
  - intros (pre & typed & ws & post & -> & B & T & W & L).
    exists pre, (typed ++ ws), post, []. split.
    + now rewrite <- app_assoc.
    + apply Matches_commandRE. exists typed, ws. now repeat split.
Qed.

(** X5: the two deprecated commands.  A comment created on a pull
    request that has a line /release-note, or that has a line
    /release-note-action-required and no line /release-note-none, is
    answered with the deprecation notice and with nothing else: that
    one comment is the only call, whoever wrote the command, and what
    [CreateComment] answers is returned.  A line /release-note takes
    precedence over a line /release-note-none in the same comment. *)
Theorem deprecated_command_answered ic s :
  let out := run client (handleComment lib ic) s in
  let body := CommentBody (ICComment ic) in
  IsPullRequest lib (ICIssue ic) = true ->
  ICAction ic = IssueCommentActionCreated ->
  hasCommandLine (lit "/release-note") body
  \/ (hasCommandLine (lit "/release-note-action-required") body
      /\ ~ hasCommandLine (lit "/release-note-none") body) ->
  exists r,
    trace out =
      [Called (CreateComment (Login (Owner (ICRepo ic))) (RepoName (ICRepo ic))
                 (IssueNumber (ICIssue ic))
                 (FormatICResponse lib (ICComment ic) deprecationNotice)) r]
    /\ value out = r.
Proof.
  intros out body Hpr Hact H. subst out.
  assert (C : commandLabel body = Some releaseNote
              \/ commandLabel body = Some releaseNoteActionRequired).
  { unfold commandLabel.
    destruct (MatchString releaseNoteRe body) eqn:M1; [now left |].
    destruct H as [H | [H N]].
    - apply MatchString_commandRE in H. unfold releaseNoteRe in M1. congruence.
    - destruct (MatchString releaseNoteNoneRe body) eqn:M2.
      + apply MatchString_commandRE in M2. contradiction.
      + apply MatchString_commandRE in H.
        unfold releaseNoteActionRequiredRe. rewrite H. now right. }
  unfold handleComment. rewrite Hpr, Hact. fold body. cbn [negb orb].
  destruct C as [-> | ->]; simpl;
    destruct (client (CreateComment _ _ _ _) s) as [r s1]; exists r; now split.
Qed.
End Unfolding.

Section AfterLabels.
Variable lib : Imports.
Variable St : Type.
Variable client : forall R, Op R -> St -> R * St.

Lemma same_answer {R} (op : Op R) (s : St) r1 s1 r2 s2 :
  client op s = (r1, s1) -> client op s = (r2, s2) -> r1 = r2.
Proof. intros H1 H2. rewrite H1 in H2. now injection H2. Qed.

(** X6: a pull request that carries the needed label when [handlePR]
    reads its labels gets no comment in that run, whatever its body and
    its parents are: both the advice on the release note and the advice
    on the parents are only posted when the label is absent. *)
Theorem flagged_gets_no_comment pr s prLabels s0 :
  client (GetIssueLabels (Login (Owner (PRRepo pr))) (RepoName (PRRepo pr)) (PRNumber pr)) s
  = (Ok prLabels, s0) ->
  hasLabel lib releaseNoteLabelNeeded prLabels = true ->
  posted (trace (run client (handlePR lib pr) s)) = [].
Proof.
  intros E F. apply silent_flat_map. apply handlePR_from_labels; [reflexivity |].
  intros prLabels' s0' E'.
  assert (Ok prLabels' = Ok prLabels) as Q by (eapply same_answer; eassumption).
  injection Q as ->.
  assert (C : forall comments,
             always (fun e => postedBy e = [])
               (clearStaleComments lib pr prLabels comments)).
  { intros comments. apply clearStaleComments_always; reflexivity. }
  assert (A : forall label comments,
             always (fun e => postedBy e = [])
               (applyLabel lib pr prLabels label comments)).
  { intros label comments. apply applyLabel_always; try reflexivity.
    - intros _ F'. congruence.
    - apply C. }
  unfold labelPullRequest.
  destruct (str_eqb _ releaseNoteLabelNeeded); [| apply A].
  apply always_bind.
  { apply mustFollow_always; try reflexivity. intros _ F'. congruence. }
  intros must. destruct must; simpl negb; cbv iota.
  - simpl. intros r. split; [reflexivity |]. destruct r; [apply A | exact I].
  - apply always_bind; [apply ensure_always; reflexivity | intros _; apply C].
Qed.

(** X7: when the body of the pull request holds a release note, so
    that the label for it is not the needed label, [handlePR] posts no
    comment and never lists the comments of the pull request, and the
    cleanup, if it is reached, is handed the nil slice. *)
Theorem noted_body_needs_no_comments pr s :
  let out := run client (handlePR lib pr) s in
  determineReleaseNoteLabel lib (PRBody (PRPullRequest pr)) <> releaseNoteLabelNeeded ->
  posted (trace out) = []
  /\ fetches (trace out) = []
  /\ forall comments stale, In (comments, stale) (offers (trace out)) -> comments = None.
Proof.
  intros out N. subst out.
  assert (F : Forall (fun e => postedBy e = [] /\ fetchBy e = []
                               /\ forall c, In c (offerBy e) -> fst c = None)
                (trace (run client (handlePR lib pr) s))).
  { apply handlePR_from_labels; [repeat split; intros c [] |].
    intros prLabels s0 _. unfold labelPullRequest.
    apply str_eqb_neq in N. rewrite N.
    apply applyLabel_always; try (repeat split; intros c []; fail).
    - intros N'. apply str_eqb_neq in N. contradiction.
    - apply clearStaleComments_always; try (repeat split; intros c []; fail).
      intros botName r. repeat split. intros c [<- | []]. reflexivity. }
  split; [| split].
  - apply silent_flat_map. eapply Forall_impl; [| exact F]. now intros e (H & _).
  - apply silent_flat_map. eapply Forall_impl; [| exact F]. now intros e (_ & H & _).
  - intros comments stale I. unfold offers in I.
    apply in_flat_map in I as (e & I1 & I2).
    rewrite Forall_forall in F. destruct (F e I1) as (_ & _ & H).
    exact (H _ I2).
Qed.

(** X8: while none of the three note labels is among the labels
    [handlePR] read, a pull request that has to follow the process on
    its own (its base is master, or its body names no parent) keeps
    its comments: the bot's name is not asked for and nothing is handed
    to [DeleteStaleComments], also in the run that adds the note
    label. *)
Theorem first_note_label_keeps_comments pr s prLabels s0 :
  let out := run client (handlePR lib pr) s in
  Ref (Base (PRPullRequest pr)) = lit "master"
  \/ getCherrypickParentPRNums (PRBody (PRPullRequest pr)) = [] ->
  client (GetIssueLabels (Login (Owner (PRRepo pr))) (RepoName (PRRepo pr)) (PRNumber pr)) s
  = (Ok prLabels, s0) ->
  releaseNoteAlreadyAdded lib prLabels = false ->
  offers (trace out) = [] /\ botNames (trace out) = [].
Proof.
  intros out B E N. subst out.
  assert (M : forall comment, prMustFollowRelNoteProcess lib pr prLabels comment = Ret true).
  { intros comment. unfold prMustFollowRelNoteProcess.
    destruct B as [-> | ->]; [reflexivity |].
    destruct (str_eqb _ _); reflexivity. }
  assert (F : Forall (fun e => offerBy e = [] /\ botNameBy e = [])
                (trace (run client (handlePR lib pr) s))).
  { apply handlePR_from_labels; [now split |].
    intros prLabels' s0' E'.
    assert (Ok prLabels' = Ok prLabels) as Q by (eapply same_answer; eassumption).
    injection Q as ->.
    assert (C : forall comments,
               always (fun e => offerBy e = [] /\ botNameBy e = [])
                 (clearStaleComments lib pr prLabels comments)).
    { intros comments. unfold clearStaleComments. rewrite M, N. exact I. }
    assert (A : forall label comments,
               always (fun e => offerBy e = [] /\ botNameBy e = [])
                 (applyLabel lib pr prLabels label comments)).
    { intros label comments. apply applyLabel_always; try (now split). apply C. }
    unfold labelPullRequest.
    destruct (str_eqb _ releaseNoteLabelNeeded); [| apply A].
    rewrite M. simpl. intros r. split; [now split |].
    destruct r; [apply A | exact I]. }
  split; apply silent_flat_map; (eapply Forall_impl; [| exact F]); now intros e [H1 H2].
Qed.

(** X9: [handlePR] adds only a label that is not among the labels it
    read at its start, and removes only labels that are among them;
    so no label is both added and removed in one run. *)
Theorem label_changes_follow_the_labels_read pr s prLabels s0 :
  let out := run client (handlePR lib pr) s in
  client (GetIssueLabels (Login (Owner (PRRepo pr))) (RepoName (PRRepo pr)) (PRNumber pr)) s
  = (Ok prLabels, s0) ->
  (forall l, In l (added (trace out)) -> hasLabel lib l prLabels = false)
  /\ (forall l, In l (map fst (removals (trace out))) -> hasLabel lib l prLabels = true)
  /\ (forall l, In l (added (trace out)) -> ~ In l (map fst (removals (trace out)))).
Proof.
  intros out E. subst out.
  assert (F : Forall (fun e => (forall l, In l (addedBy e) -> hasLabel lib l prLabels = false)
                               /\ (forall c, In c (removalBy e) ->
                                     hasLabel lib (fst c) prLabels = true))
                (trace (run client (handlePR lib pr) s))).
  { apply handlePR_from_labels; [split; intros c [] |].
    intros prLabels' s0' E'.
    assert (Ok prLabels' = Ok prLabels) as Q by (eapply same_answer; eassumption).
    injection Q as ->.
    assert (C : forall comments,
               always (fun e => (forall l, In l (addedBy e) -> hasLabel lib l prLabels = false)
                                /\ (forall c, In c (removalBy e) ->
                                      hasLabel lib (fst c) prLabels = true))
                 (clearStaleComments lib pr prLabels comments)).
    { intros comments. apply clearStaleComments_always; split; intros c []. }
    assert (A : forall label comments,
               always (fun e => (forall l, In l (addedBy e) -> hasLabel lib l prLabels = false)
                                /\ (forall c, In c (removalBy e) ->
                                      hasLabel lib (fst c) prLabels = true))
                 (applyLabel lib pr prLabels label comments)).
    { intros label comments. apply applyLabel_always; try (split; intros c []; fail).
      - intros _ l r _ H. split; [intros c [] | intros c [<- | []]; exact H].
      - intros H r. split; [intros c [<- | []]; exact H | intros c []].
      - intros elem r _ W. apply wanted_true in W as [_ W].
        split; [intros c [] | intros c [<- | []]; exact W].
      - apply C. }
    unfold labelPullRequest.
    destruct (str_eqb _ releaseNoteLabelNeeded); [| apply A].
    apply always_bind.
    { apply mustFollow_always; split; intros c []. }
    intros must. destruct must; simpl negb; cbv iota.
    - simpl. intros r. split; [split; intros c [] |]. destruct r; [apply A | exact I].
    - apply always_bind; [| intros _; apply C].
      apply ensure_always; [| split; intros c []].
      intros l r _ H. split; [intros c [] | intros c [<- | []]; exact H]. }
  assert (G1 : forall l, In l (added (trace (run client (handlePR lib pr) s))) ->
                         hasLabel lib l prLabels = false).
  { intros l I. unfold added in I. apply in_flat_map in I as (e & I1 & I2).
    rewrite Forall_forall in F. exact (proj1 (F e I1) l I2). }
  assert (G2 : forall l, In l (map fst (removals (trace (run client (handlePR lib pr) s)))) ->
                         hasLabel lib l prLabels = true).
  { intros l I. apply in_map_iff in I as (c & <- & I).
    unfold removals in I. apply in_flat_map in I as (e & I1 & I2).
    rewrite Forall_forall in F. exact (proj2 (F e I1) c I2). }
  split; [exact G1 | split; [exact G2 |]].
  intros l I1 I2. apply G1 in I1. apply G2 in I2. congruence.
Qed.
End AfterLabels.

Section LabelWrites.
Variable lib : Imports.
Variable St : Type.
Variable client : forall R, Op R -> St -> R * St.

(** X10: [ensureNoRelNoteNeededLabel] attempts the removal of the
    needed label and of its deprecated alias, in this order and each
    exactly when it is among the labels given; the second removal is
    attempted whatever the first one answered; each failure is written
    to the log with the name of the label, and nothing else is called. *)
Theorem ensureNoRelNoteNeededLabel_removals pr prLabels s :
  let out := run client (ensureNoRelNoteNeededLabel lib pr prLabels) s in
  map fst (removals (trace out)) =
    filter (fun l => hasLabel lib l prLabels)
      [releaseNoteLabelNeeded; deprecatedReleaseNoteLabelNeeded]
  /\ logged (trace out) =
       map (fun f =>
              WithErrorErrorf (snd f) (lit "Failed to remove the label %q from %s/%s#%d.")
                [ArgS (fst f); ArgS (Login (Owner (PRRepo pr)));
                 ArgS (RepoName (PRRepo pr)); ArgD (PRNumber pr)])
           (failedRemovals (removals (trace out)))
  /\ calls (trace out) = length (removals (trace out)).
Proof.
  intros out. subst out. unfold ensureNoRelNoteNeededLabel. cbn [filter].
  destruct (hasLabel lib releaseNoteLabelNeeded prLabels);
    destruct (hasLabel lib deprecatedReleaseNoteLabelNeeded prLabels); simpl;
    repeat match goal with
           | |- context [client ?op ?s] => destruct (client op s) as [[?e |] ?s]; simpl
           end; repeat split; reflexivity.
Qed.

Lemma added_labelOps tr :
  added tr =
  flat_map (fun op => match op with AddOp _ l => [l] | RemoveOp _ _ => [] end) (labelOps tr).
Proof.
  unfold added, labelOps. induction tr as [| e tr IH]; simpl; [reflexivity |].
  rewrite flat_map_app, <- IH. f_equal.
  destruct e as [R op r | l]; [| reflexivity]. destruct op; reflexivity.
Qed.

Lemma removed_labelOps tr :
  map fst (removals tr) =
  flat_map (fun op => match op with RemoveOp _ l => [l] | AddOp _ _ => [] end) (labelOps tr).
Proof.
  unfold removals, labelOps. induction tr as [| e tr IH]; simpl; [reflexivity |].
  rewrite map_app, flat_map_app, <- IH. f_equal.
  destruct e as [R op r | l]; [| reflexivity]. destruct op; reflexivity.
Qed.

Lemma additions_app tr1 tr2 : additions (tr1 ++ tr2) = additions tr1 ++ additions tr2.
Proof. unfold additions. apply flat_map_app. Qed.

Lemma failures_app a b : failures (a ++ b) = failures a ++ failures b.
Proof. unfold failures. apply flat_map_app. Qed.

(** The label changes [applyLabel] attempts, and its result when the
    addition fails. *)
Lemma applyLabel_labelOps pr prLabels labelToAdd comments s v tr s' :
  run client (applyLabel lib pr prLabels labelToAdd comments) s = (v, tr, s') ->
  (failures (additions tr) = []
   /\ labelOps tr = applyOps lib (PRNumber pr) labelToAdd prLabels)
  \/ (exists e,
         failures (additions tr) = [e] /\ v = Some e
         /\ hasLabel lib labelToAdd prLabels = false
         /\ labelOps tr =
              (if str_eqb labelToAdd releaseNoteLabelNeeded then []
               else ensureOps lib (PRNumber pr) prLabels)
              ++ [AddOp (PRNumber pr) labelToAdd]).
Proof.
  intros H. unfold applyLabel in H. rewrite run_bind in H.
  match type of H with context [run client ?p s] =>
    assert (E1 : labelOps (trace (run client p s)) =
                 if str_eqb labelToAdd releaseNoteLabelNeeded then []
                 else ensureOps lib (PRNumber pr) prLabels);
    [| assert (D1 : additions (trace (run client p s)) = []);
       [| destruct (run client p s) as [[u tr1] s1]]] end.
  { destruct (str_eqb labelToAdd releaseNoteLabelNeeded).
    - destruct (negb (hasLabel lib releaseNoteLabelNeeded prLabels)); [| reflexivity].
      simpl. destruct (client (CreateComment _ _ _ _) s) as [[e |] s1]; reflexivity.
    - apply ensure_labelOps. }
  { apply silent_flat_map. apply always_run.
    destruct (str_eqb labelToAdd releaseNoteLabelNeeded).
    - destruct (negb _); [| exact I]. simpl. intros r. split; [reflexivity |].
      destruct r; simpl; auto.
    - apply ensure_always; reflexivity. }
  unfold trace in E1, D1; cbn [fst snd] in E1, D1.
  cbv beta in H. rewrite run_bind in H.
  assert (Rest : forall s2 v2 tr2 s2',
             run client
               (err <- removeOtherLabels lib
                         (fun l => call (RemoveLabel (Login (Owner (PRRepo pr)))
                                           (RepoName (PRRepo pr)) (PRNumber pr) l))
                         labelToAdd allRNLabels prLabels ;;
                match err with
                | Some e => Log (LogError e) (Ret tt)
                | None => Ret tt
                end ;;
                clearStaleComments lib pr prLabels comments) s2 = (v2, tr2, s2') ->
             additions tr2 = []
             /\ labelOps tr2 = removeOps lib (PRNumber pr) labelToAdd prLabels).
  { intros s2 v2 tr2 s2' R. split.
    - change tr2 with (trace (v2, tr2, s2')). rewrite <- R.
      apply silent_flat_map. apply always_run.
      apply always_bind; [apply removeOtherLabels_always; reflexivity |].
      intros err. apply always_bind; [destruct err; simpl; auto |].
      intros _. apply clearStaleComments_always; reflexivity.
    - rewrite run_bind in R.
      pose proof (removeOtherLabels_labelOps lib client
                    (Login (Owner (PRRepo pr))) (RepoName (PRRepo pr)) (PRNumber pr)
                    labelToAdd allRNLabels prLabels s2) as E3.
      destruct (run client (removeOtherLabels _ _ _ _ _) s2) as [[err tr3] s3].
      rewrite run_bind in R.
      match type of R with context [run client ?p s3] =>
        assert (E4 : exists tr4, run client p s3 = (tt, tr4, s3) /\ labelOps tr4 = [])
      end.
      { destruct err; simpl; eauto. }
      destruct E4 as (tr4 & E4 & E5). rewrite E4 in R.
      pose proof (clearStaleComments_labelOps lib client pr prLabels comments s3) as E6.
      destruct (run client (clearStaleComments _ _ _ _) s3) as [[vC tr5] s5].
      injection R as _ <- _.
      unfold trace in *; cbn [fst snd] in *.
      rewrite !labelOps_app, E3, E5, E6. unfold removeOps. now rewrite app_nil_r. }
  unfold applyOps.
  destruct (hasLabel lib labelToAdd prLabels) eqn:HL; simpl negb in H; cbv iota in H.
  - simpl run in H. cbv beta iota in H.
    destruct (run client _ s1) as [[v2 tr2] s2'] eqn:R.
    apply Rest in R as [R1 R2]. injection H as _ <- _.
    left. rewrite !additions_app, D1, R1, !labelOps_app, E1, R2. simpl. now split.
  - simpl run in H.
    destruct (client (AddLabel _ _ _ labelToAdd) s1) as [[e |] s2].
    + simpl in H. injection H as <- <- _.
      right. exists e. rewrite !additions_app, D1, !labelOps_app, E1. simpl.
      repeat split; reflexivity.
    + cbv beta iota in H.
      destruct (run client _ s2) as [[v2 tr2] s2'] eqn:R.
      apply Rest in R as [R1 R2]. injection H as _ <- _.
      left. rewrite additions_app, labelOps_app, D1, E1.
      match goal with |- context [Called ?o ?r :: tr2] =>
        change (Called o r :: tr2) with ([Called o r] ++ tr2) end.
      rewrite additions_app, labelOps_app, R1, R2. simpl. now split.
Qed.

Lemma ensureOps_names n prLabels :
  ensureOps lib n prLabels =
  map (RemoveOp n) (filter (fun l => hasLabel lib l prLabels)
                      [releaseNoteLabelNeeded; deprecatedReleaseNoteLabelNeeded]).
Proof.
  unfold ensureOps. cbn [filter].
  destruct (hasLabel lib releaseNoteLabelNeeded prLabels);
    destruct (hasLabel lib deprecatedReleaseNoteLabelNeeded prLabels); reflexivity.
Qed.

(** X11: the label changes of [handlePR] once the label to apply is
    known.  Unless the addition fails, they are, in this order: when
    the label is not the needed label, the removal of the needed label
    and of its deprecated alias, each if carried; the addition of the
    label if it is not carried; the removal of every other release-note
    label that is carried.  These are decided on the labels read at the
    start: when a label other than the needed one is applied to a pull
    request that carries the needed label, the removal of the needed
    label is attempted twice.  When the addition fails, its error is
    returned and no removal follows it. *)
Theorem applyLabel_label_changes pr prLabels labelToAdd comments s :
  let out := run client (applyLabel lib pr prLabels labelToAdd comments) s in
  let n := PRNumber pr in
  let stripped :=
    if str_eqb labelToAdd releaseNoteLabelNeeded then []
    else map (RemoveOp n)
           (filter (fun l => hasLabel lib l prLabels)
              [releaseNoteLabelNeeded; deprecatedReleaseNoteLabelNeeded]) in
  (failures (additions (trace out)) = [] ->
   labelOps (trace out) =
     stripped
     ++ (if hasLabel lib labelToAdd prLabels then [] else [AddOp n labelToAdd])
     ++ map (RemoveOp n) (filter (wanted lib labelToAdd prLabels) allRNLabels))
  /\ (forall e, In e (failures (additions (trace out))) ->
        value out = Some e
        /\ labelOps (trace out) = stripped ++ [AddOp n labelToAdd])
  /\ (failures (additions (trace out)) = [] ->
      labelToAdd <> releaseNoteLabelNeeded ->
      hasLabel lib releaseNoteLabelNeeded prLabels = true ->
      count_occ (list_eq_dec ascii_dec) (map fst (removals (trace out)))
        releaseNoteLabelNeeded = 2).
Proof.
  intros out n stripped.
  destruct (run client (applyLabel lib pr prLabels labelToAdd comments) s)
    as [[v tr] s'] eqn:R.
  subst out. unfold trace, value; cbn [fst snd].
  apply applyLabel_labelOps in R.
  assert (S : stripped = if str_eqb labelToAdd releaseNoteLabelNeeded then []
                         else ensureOps lib n prLabels).
  { subst stripped. destruct (str_eqb _ _); [reflexivity |].
    now rewrite ensureOps_names. }
  assert (Changes : failures (additions tr) = [] ->
                    labelOps tr =
                    stripped
                    ++ (if hasLabel lib labelToAdd prLabels then [] else [AddOp n labelToAdd])
                    ++ map (RemoveOp n) (filter (wanted lib labelToAdd prLabels) allRNLabels)).
  { intros F. destruct R as [[_ R] | (e & R & _)]; [| rewrite R in F; discriminate].
    rewrite R, S. reflexivity. }
  split; [exact Changes | split].
  - intros e I. destruct R as [[R _] | (e' & R1 & R2 & _ & R4)].
    + rewrite R in I. destruct I.
    + rewrite R1 in I. destruct I as [<- | []]. split; [exact R2 |].
      rewrite R4, S. reflexivity.
  - intros F N H. rewrite removed_labelOps, (Changes F). subst stripped.
    apply str_eqb_neq in N. rewrite N.
    unfold allRNLabels, wanted. cbn [filter]. rewrite H.
    assert (negb (str_eqb releaseNoteLabelNeeded labelToAdd) = true) as ->.
    { apply negb_true_iff, str_eqb_neq. apply str_eqb_neq in N. congruence. }
    cbn [andb].
    repeat match goal with
           | |- context [if ?b then _ else _] => destruct b
           end; vm_compute; reflexivity.
Qed.

Lemma state_in_family l : In l stateLabels -> In l allRNLabels.
Proof.
  intros [<- | [<- | [<- | [<- | []]]]]; unfold allRNLabels; cbn [In]; auto 10.
Qed.

(** [applyLabel] on labels that hold, of the five release-note labels,
    the label to apply and no other: no comment, no addition, no
    removal. *)
Lemma applyLabel_settled pr prLabels labelToAdd comments :
  In labelToAdd stateLabels ->
  (forall l, In l allRNLabels -> hasLabel lib l prLabels = str_eqb l labelToAdd) ->
  always (fun e => postedBy e = [] /\ addedBy e = [] /\ removalBy e = [])
    (applyLabel lib pr prLabels labelToAdd comments).
Proof.
  intros T Only.
  assert (Self : hasLabel lib labelToAdd prLabels = true).
  { rewrite Only; [apply str_eqb_refl | now apply state_in_family]. }
  apply applyLabel_always; try (now repeat split).
  - intros -> H. congruence.
  - intros N l r Hl H. exfalso.
    rewrite Only in H by now apply needed_in_family.
    apply str_eqb_eq in H. subst l.
    destruct Hl as [<- | [<- | []]]; [now apply N |].
    destruct T as [T | [T | [T | [T | []]]]]; discriminate.
  - intros H. congruence.
  - intros elem r Hl W. exfalso. apply wanted_true in W as [W1 W2].
    rewrite Only in W2 by exact Hl. apply str_eqb_eq in W2. contradiction.
  - apply clearStaleComments_always; now repeat split.
Qed.

(** X12: a pull request that is already in the state [handlePR]
    arrives at is left alone.  Let the labels read hold, of the five
    release-note labels, exactly the label [target].  When the body
    holds a release note and [target] is the label for it, no label is
    added, none is removed and no comment is posted.  When the
    comments of the pull request are listed, so that its body holds no
    note, and [target] is release-note-none with a none-command among
    them and the needed label without, again no label is added and
    none removed; and no comment is posted when [target] is the needed
    label, while with release-note-none the advice on the parents may
    still be posted. *)
Theorem settled_labels_untouched pr s prLabels s0 target :
  let out := run client (handlePR lib pr) s in
  let label := determineReleaseNoteLabel lib (PRBody (PRPullRequest pr)) in
  client (GetIssueLabels (Login (Owner (PRRepo pr))) (RepoName (PRRepo pr)) (PRNumber pr)) s
  = (Ok prLabels, s0) ->
  (forall l, In l allRNLabels -> hasLabel lib l prLabels = str_eqb l target) ->
  (label <> releaseNoteLabelNeeded -> target = label ->
   added (trace out) = [] /\ removals (trace out) = [] /\ posted (trace out) = [])
  /\ (forall comments,
         fetches (trace out) = [Ok comments] ->
         target = (if containsNoneCommand (elems comments) then releaseNoteNone
                   else releaseNoteLabelNeeded) ->
         added (trace out) = [] /\ removals (trace out) = []
         /\ (target = releaseNoteLabelNeeded -> posted (trace out) = [])).
Proof.
  intros out label E Only. subst out. split.
  - intros N ->.
    assert (F : Forall (fun e => postedBy e = [] /\ addedBy e = [] /\ removalBy e = [])
                  (trace (run client (handlePR lib pr) s))).
    { apply handlePR_from_labels; [now repeat split |].
      intros prLabels' s0' E'.
      assert (Ok prLabels' = Ok prLabels) as Q by (eapply same_answer; eassumption).
      injection Q as ->.
      unfold labelPullRequest. fold label.
      apply str_eqb_neq in N. rewrite N.
      apply applyLabel_settled; [apply determineReleaseNoteLabel_state | exact Only]. }
    repeat split; apply silent_flat_map; (eapply Forall_impl; [| exact F]);
      now intros e (H1 & H2 & H3).
  - intros comments F T.
    assert (A : PRAction pr <> PullRequestActionOther)
      by (intros A; rewrite handlePR_labelPullRequest, A in F; discriminate).
    rewrite (@handlePR_run_labels lib St client pr s prLabels s0 A E) in *.
    destruct (run client (labelPullRequest lib pr prLabels) s0) as [[v tr] s'] eqn:R.
    unfold trace in *; cbn [fst snd] in *.
    change (fetches tr = [Ok comments]) in F.
    change (added tr = [] /\ removals tr = []
            /\ (target = releaseNoteLabelNeeded -> posted tr = [])).
    unfold labelPullRequest in R. fold label in R.
    destruct (str_eqb label releaseNoteLabelNeeded) eqn:N;
      [| apply applyLabel_cleanup in R as (R & _); rewrite R in F; discriminate].
    apply str_eqb_eq in N. rewrite N in R.
    rewrite run_bind in R.
    assert (PM : hasLabel lib releaseNoteLabelNeeded prLabels = true ->
                 Forall (fun e : Event => postedBy e = [])
                   (trace (run client (prMustFollowRelNoteProcess lib pr prLabels true) s0))).
    { intros H. apply always_run. apply mustFollow_always; try reflexivity.
      intros _ H'. congruence. }
    destruct (run client (prMustFollowRelNoteProcess lib pr prLabels true) s0)
      as [[must trM] sM] eqn:M.
    unfold trace in PM; cbn [fst snd] in PM.
    apply mustFollow_quiet in M; destruct M as (M1 & M2 & M3 & _).
    destruct must; simpl negb in R; cbv iota in R.
    2: { rewrite run_bind in R.
         pose proof (@always_run (labelStep []) _ _ St client sM
                       (ensure_labelStep lib [] pr prLabels)) as En.
         destruct (run client (ensureNoRelNoteNeededLabel lib pr prLabels) sM)
           as [[u trE] sE].
         unfold trace in En; cbn [fst snd] in En.
         apply labelStep_trace in En; destruct En as (En & _).
         destruct (run client (clearStaleComments _ _ _ _) sE) as [[vC trC] sC] eqn:Cl.
         apply clearStaleComments_run in Cl; destruct Cl as (_ & _ & _ & Cl & _).
         injection R as _ <- _; unfold fetches in *.
         rewrite !flat_map_app, M3, En, Cl in F; discriminate. }
    simpl in R.
    destruct (client (ListIssueComments _ _ _) sM) as [[listed | err] sL];
      [| injection R as _ <- _; unfold fetches in F, M3;
         rewrite flat_map_app, M3 in F; discriminate].
    destruct (run client (applyLabel _ _ _ _ _) sL) as [[v0 tr0] s1] eqn:Ap.
    injection R as _ <- _.
    pose proof (@applyLabel_cleanup lib St client _ _ _ _ _ _ _ _ Ap) as (F0 & _).
    unfold fetches in F, M3, F0; rewrite flat_map_app, M3 in F; simpl in F.
    rewrite F0 in F; injection F as ->.
    rewrite <- T in Ap.
    assert (G : Forall (fun e => postedBy e = [] /\ addedBy e = [] /\ removalBy e = []) tr0).
    { change tr0 with (trace (v0, tr0, s1)). rewrite <- Ap. apply always_run.
      apply applyLabel_settled; [| exact Only].
      rewrite T. destruct (containsNoneCommand _); simpl; auto. }
    assert (G1 : posted tr0 = []).
    { apply silent_flat_map. eapply Forall_impl; [| exact G]. now intros e (H & _). }
    assert (G2 : added tr0 = []).
    { apply silent_flat_map. eapply Forall_impl; [| exact G]. now intros e (_ & H & _). }
    assert (G3 : removals tr0 = []).
    { apply silent_flat_map. eapply Forall_impl; [| exact G]. now intros e (_ & _ & H). }
    unfold added, removals, posted in *.
    rewrite !flat_map_app, M1, M2. simpl. rewrite G1, G2, G3.
    repeat split. intros Tn. rewrite app_nil_r.
    apply silent_flat_map. apply PM.
    rewrite Only by (simpl; auto). rewrite Tn. apply str_eqb_refl.
Qed.

(** X13: the verdict of [prMustFollowRelNoteProcess] does not depend
    on whether it may comment.  From the same state, the run that may
    comment makes the calls of the run that may not, with the same
    answers and the same result, and then either nothing more or the
    one call that posts the advice on the parents, followed by its log
    entry when the call fails.  It adds nothing exactly when the
    result is false, or the needed label is among the labels given, or
    no parent was looked at; the two runs are then the same. *)
Theorem comment_flag_only_comments pr prLabels s :
  let quiet := run client (prMustFollowRelNoteProcess lib pr prLabels false) s in
  let loud := run client (prMustFollowRelNoteProcess lib pr prLabels true) s in
  let org := Login (Owner (PRRepo pr)) in
  let repo := RepoName (PRRepo pr) in
  let text := parentComment lib pr (noteless lib (parentChecks (trace quiet))) in
  value loud = value quiet
  /\ posted (trace quiet) = []
  /\ exists extra,
       trace loud = trace quiet ++ extra
       /\ (extra = []
           \/ exists answer,
                extra =
                  Called (CreateComment org repo (PRNumber pr) text) answer
                  :: match answer with
                     | Some e =>
                         [Logged (WithErrorErrorf e
                                    (lit "Error creating comment on %s/%s#%d with comment %q.")
                                    [ArgS org; ArgS repo; ArgD (PRNumber pr); ArgS text])]
                     | None => []
                     end)
       /\ (extra = [] <->
           value quiet = false
           \/ hasLabel lib releaseNoteLabelNeeded prLabels = true
           \/ parentChecks (trace quiet) = [])
       /\ (extra = [] -> loud = quiet).
Proof.
  intros quiet loud org repo text. subst quiet loud text.
  unfold prMustFollowRelNoteProcess. fold org repo.
  assert (Same : forall (x : bool * list Event * St),
             posted (trace x) = [] ->
             (value x = false
              \/ hasLabel lib releaseNoteLabelNeeded prLabels = true
              \/ parentChecks (trace x) = []) ->
             let text := parentComment lib pr (noteless lib (parentChecks (trace x))) in
             value x = value x
             /\ posted (trace x) = []
             /\ exists extra,
                  trace x = trace x ++ extra
                  /\ (extra = []
                      \/ exists answer,
                           extra =
                             Called (CreateComment org repo (PRNumber pr) text) answer
                             :: match answer with
                                | Some e =>
                                    [Logged (WithErrorErrorf e
                                               (lit "Error creating comment on %s/%s#%d with comment %q.")
                                               [ArgS org; ArgS repo; ArgD (PRNumber pr);
                                                ArgS text])]
                                | None => []
                                end)
                  /\ (extra = [] <->
                      value x = false
                      \/ hasLabel lib releaseNoteLabelNeeded prLabels = true
                      \/ parentChecks (trace x) = [])
                  /\ (extra = [] -> x = x)).
  { intros x Q W text. split; [reflexivity | split; [exact Q |]].
    exists []. rewrite app_nil_r. repeat split; auto. }
  destruct (str_eqb _ _); [apply Same; [reflexivity | now right; right] |].
  destruct (_ =? 0) eqn:L; [apply Same; [reflexivity | now right; right] |].
  rewrite !run_bind.
  destruct (run client (collectNoteless _ _ _ _ _ _) s) as [[missing tr0] s1] eqn:R.
  apply collectNoteless_run in R. destruct R as (R1 & R2 & _ & R4 & _).
  simpl app in R1.
  assert (Q : posted (tr0 ++ []) = []) by now rewrite app_nil_r.
  destruct (length missing =? 0) eqn:Z; [apply Same; [exact Q | now left] |].
  cbn [andb].
  destruct (hasLabel lib releaseNoteLabelNeeded prLabels) eqn:H; cbn [negb];
    [apply Same; [exact Q | now right; left] |].
  simpl.
  assert (NE : parentChecks (tr0 ++ []) <> []).
  { rewrite app_nil_r. intros E. rewrite E in R2. simpl in R2. rewrite <- R2 in L.
    discriminate. }
  destruct (client (CreateComment _ _ _ _) s1) as [answer s2] eqn:C.
  unfold value, trace; cbn [fst snd].
  assert (T : parentComment lib pr missing
              = parentComment lib pr (noteless lib (parentChecks (tr0 ++ [])))).
  { now rewrite app_nil_r, R1. }
  destruct answer as [e |]; simpl;
    (split; [reflexivity | split; [exact Q |]]);
    match goal with |- exists extra, tr0 ++ ?x = _ /\ _ => exists x end;
    (split; [rewrite app_nil_r; reflexivity |]);
    (split; [right; rewrite <- T;
             match goal with |- context [Called _ ?a] => exists a end; reflexivity |]);
    (split; [| discriminate]);
    (split; [discriminate | intros [? | [? | ?]]; [discriminate | discriminate | contradiction]]).
Qed.
End LabelWrites.

Section Text.
Variable lib : Imports.

Lemma HasPrefix_spec s p :
  Strings.HasPrefix s p = true <-> exists post, s = p ++ post.
Proof.
  revert s. induction p as [| c p IH]; intros s.
  - rewrite HasPrefix_nil. split; [intros _; now exists s | reflexivity].
  - destruct s as [| x s]; simpl.
    + split; [discriminate | intros [post E]; discriminate].
    + rewrite andb_true_iff, IH. split.
      * intros [E [post ->]]. apply Ascii.eqb_eq in E. subst x. now exists post.
      * intros [post E]. injection E as -> ->. split; [apply Ascii.eqb_refl | now exists post].
Qed.

Lemma Contains_spec s sub :
  Strings.Contains s sub = true <-> exists pre post, s = pre ++ sub ++ post.
Proof.
  induction s as [| x s IH]; cbn [Strings.Contains]; rewrite orb_true_iff, HasPrefix_spec.
  - split.
    + intros [[post E] | H]; [now exists [], post | discriminate].
    + intros (pre & post & E). left. destruct pre; [now exists post |]. discriminate.
  - rewrite IH. split.
    + intros [[post E] | (pre & post & E)].
      * now exists [], post.
      * exists (x :: pre), post. simpl. now rewrite E.
    + intros (pre & post & E). destruct pre as [| y pre].
      * left. now exists post.
      * right. injection E as _ E. now exists pre, post.
Qed.

Lemma Contains_false s sub pre post :
  Strings.Contains s sub = false -> s <> pre ++ sub ++ post.
Proof.
  intros H E.
  assert (Strings.Contains s sub = true) by (apply Contains_spec; now exists pre, post).
  congruence.
Qed.

Lemma labelForNote_nil : labelForNote lib [] = releaseNoteLabelNeeded.
Proof. reflexivity. Qed.

(** X14: a body without a fence, or with neither the words "Release
    note**:" nor an opening fence tagged release-note, holds no release
    note: the note extracted is empty and the label for the body is the
    needed label. *)
Theorem body_without_block body :
  Strings.Contains body fence = false
  \/ (Strings.Contains body (lit "Release note**:") = false
      /\ Strings.Contains body (lit "```release-note") = false) ->
  getReleaseNote body = []
  /\ determineReleaseNoteLabel lib body = releaseNoteLabelNeeded.
Proof.
  intros H.
  assert (S : search noteMatcherRE None [] body = None).
  { apply search_none_iff. intros pre m rest caps M.
    apply MatchesAt_Block in M as (o & c & (E & O & _) & _).
    destruct H as [H | [H1 H2]].
    - apply (@Contains_false body fence (pre ++ o ++ c) rest H).
      rewrite E. now rewrite <- !app_assoc.
    - destruct O as [(ws & cmt & tag & -> & _) | ->].
      + apply (@Contains_false body (lit "Release note**:") pre
                 (ws ++ cmt ++ fence ++ tag ++ c ++ fence ++ rest) H1).
        rewrite E. now rewrite <- !app_assoc.
      + apply (@Contains_false body (lit "```release-note") pre (c ++ fence ++ rest) H2).
        exact E. }
  assert (G : getReleaseNote body = []).
  { unfold getReleaseNote, FindStringSubmatch. now rewrite S. }
  split; [exact G |].
  unfold determineReleaseNoteLabel. rewrite G. apply labelForNote_nil.
Qed.

(** *** Trimming *)

Lemma leadingSpace_le s : Strings.leadingSpace s <= length s.
Proof.
  unfold Strings.leadingSpace. destruct s as [| c s]; [simpl; lia |].
  destruct (Strings.isAsciiSpace c); [simpl; lia |].
  destruct (find _ _) as [r |] eqn:F; [| lia].
  apply find_some in F as [_ F]. apply HasPrefix_spec in F as [post ->].
  rewrite length_app. lia.
Qed.

Lemma trailingSpace_le r : Strings.trailingSpace r <= length r.
Proof.
  unfold Strings.trailingSpace. destruct r as [| c r]; [simpl; lia |].
  destruct (Strings.isAsciiSpace c); [simpl; lia |].
  destruct (find _ _) as [sp |] eqn:F; [| lia].
  apply find_some in F as [_ F]. apply HasPrefix_spec in F as [post E].
  rewrite E, length_app, length_rev. lia.
Qed.

(** With enough fuel, what [dropWhile] leaves starts with nothing that
    is to be dropped. *)
Lemma dropWhile_done width :
  (forall s, width s <= length s) ->
  forall fuel s, length s <= fuel -> width (Strings.dropWhile width fuel s) = 0.
Proof.
  intros W. induction fuel as [| fuel IH]; intros s L; cbn [Strings.dropWhile].
  - pose proof (W s). lia.
  - destruct (width s) as [| w] eqn:E; [exact E |].
    apply IH. rewrite length_skipn. pose proof (W s). lia.
Qed.

Lemma dropWhile_fixed width fuel s : width s = 0 -> Strings.dropWhile width fuel s = s.
Proof. intros E. destruct fuel; cbn [Strings.dropWhile]; [reflexivity |]. now rewrite E. Qed.

(** What [dropWhile] leaves is an end of the text. *)
Lemma dropWhile_suffix width fuel s :
  exists dropped, s = dropped ++ Strings.dropWhile width fuel s.
Proof.
  revert s. induction fuel as [| fuel IH]; intros s; cbn [Strings.dropWhile].
  - now exists [].
  - destruct (width s) as [| w]; [now exists [] |].
    destruct (IH (skipn (S w) s)) as [d E].
    exists (firstn (S w) s ++ d). rewrite <- app_assoc, <- E. symmetry. apply firstn_skipn.
Qed.

Lemma HasPrefix_app s p post : Strings.HasPrefix s p = true -> Strings.HasPrefix (s ++ post) p = true.
Proof.
  intros H. apply HasPrefix_spec in H as [q ->]. apply HasPrefix_spec.
  exists (q ++ post). now rewrite app_assoc.
Qed.

Lemma find_none_weaken {A} (p q : A -> bool) l :
  (forall x, p x = true -> q x = true) -> find q l = None -> find p l = None.
Proof.
  intros PQ. induction l as [| x l IH]; simpl; [reflexivity |].
  destruct (q x) eqn:Q; [discriminate |].
  destruct (p x) eqn:P; [apply PQ in P; congruence | exact IH].
Qed.

Lemma spaceRunes_nonempty r : In r Strings.spaceRunes -> 0 < length r.
Proof.
  intros I. unfold Strings.spaceRunes in I.
  apply in_map_iff in I as (codes & <- & I). rewrite length_map.
  repeat (destruct I as [<- | I]; [simpl; lia |]). destruct I.
Qed.

(** Text that starts with no white space keeps doing so when shortened
    at its end, as long as something is left. *)
Lemma leadingSpace_prefix s post :
  Strings.leadingSpace (s ++ post) = 0 -> Strings.leadingSpace s = 0.
Proof.
  unfold Strings.leadingSpace. destruct s as [| c s]; [reflexivity |].
  cbn [app]. destruct (Strings.isAsciiSpace c); [discriminate |].
  destruct (find (Strings.HasPrefix (c :: s ++ post)) Strings.spaceRunes) as [r |] eqn:F.
  - apply find_some in F as [I _]. apply spaceRunes_nonempty in I. lia.
  - intros _.
    rewrite (@find_none_weaken _ (Strings.HasPrefix (c :: s))
               (Strings.HasPrefix (c :: s ++ post))); [reflexivity | | exact F].
    intros x H. exact (HasPrefix_app (c :: s) x post H).
Qed.

Lemma TrimSpace_trimmed s :
  Strings.leadingSpace (Strings.TrimSpace s) = 0
  /\ Strings.trailingSpace (rev (Strings.TrimSpace s)) = 0.
Proof.
  unfold Strings.TrimSpace, Strings.TrimRightSpace.
  set (t := Strings.TrimLeftSpace s).
  assert (L : Strings.leadingSpace t = 0).
  { subst t. unfold Strings.TrimLeftSpace.
    apply dropWhile_done; [apply leadingSpace_le | lia]. }
  split.
  - destruct (dropWhile_suffix Strings.trailingSpace (length t) (rev t)) as [d E].
    apply (f_equal (@rev ascii)) in E. rewrite rev_involutive, rev_app_distr in E.
    rewrite E in L. now apply leadingSpace_prefix in L.
  - rewrite rev_involutive. apply dropWhile_done; [apply trailingSpace_le |].
    now rewrite length_rev.
Qed.

Lemma TrimSpace_fixed s :
  Strings.leadingSpace s = 0 -> Strings.trailingSpace (rev s) = 0 -> Strings.TrimSpace s = s.
Proof.
  intros L T. unfold Strings.TrimSpace, Strings.TrimRightSpace, Strings.TrimLeftSpace.
  rewrite (dropWhile_fixed _ _ _ L), (dropWhile_fixed _ _ _ T). apply rev_involutive.
Qed.

Lemma TrimSpace_idempotent s : Strings.TrimSpace (Strings.TrimSpace s) = Strings.TrimSpace s.
Proof. destruct (TrimSpace_trimmed s) as [L T]. now apply TrimSpace_fixed. Qed.

(** X15: the note [getReleaseNote] returns is trimmed: it neither
    starts nor ends with white space, and trimming it again changes
    nothing.  So the trimming in [determineReleaseNoteLabel] is
    idle: the label is decided on the lowered note as extracted. *)
Theorem extracted_note_is_trimmed body :
  let note := getReleaseNote body in
  Strings.leadingSpace note = 0
  /\ Strings.trailingSpace (rev note) = 0
  /\ Strings.TrimSpace note = note
  /\ determineReleaseNoteLabel lib body =
       (let composedReleaseNote := stringsToLower lib note in
        if str_eqb composedReleaseNote [] then releaseNoteLabelNeeded
        else if str_eqb composedReleaseNote noReleaseNoteComment then releaseNoteNone
        else if Strings.Contains composedReleaseNote actionRequiredNote
             then releaseNoteActionRequired
        else releaseNote).
Proof.
  intros note.
  assert (T : Strings.leadingSpace note = 0 /\ Strings.trailingSpace (rev note) = 0).
  { subst note. unfold getReleaseNote.
    destruct (FindStringSubmatch noteMatcherRE body); [now split | apply TrimSpace_trimmed]. }
  destruct T as [L T].
  assert (F : Strings.TrimSpace note = note) by now apply TrimSpace_fixed.
  repeat split; try assumption.
  unfold determineReleaseNoteLabel, labelForNote. fold note. now rewrite F.
Qed.
End Text.

Section Parents.
Variable lib : Imports.
Variable St : Type.
Variable client : forall R, Op R -> St -> R * St.

(** Every piece [strings.Split] cuts at the newlines is a part of the text. *)
Lemma splitFrom_infix line : forall s cur,
  In line (Strings.splitFrom [nl] 0 cur s) ->
  exists a b, rev cur ++ s = a ++ line ++ b.
Proof.
  induction s as [| c s IH]; intros cur I; cbn [Strings.splitFrom] in I.
  - destruct I as [<- | []]. exists [], []. now rewrite !app_nil_r.
  - cbn [Strings.HasPrefix length Nat.sub] in I. rewrite HasPrefix_nil, andb_true_r in I.
    destruct (Ascii.eqb c nl).
    + destruct I as [<- | I].
      * exists [], (c :: s). reflexivity.
      * apply IH in I as (a & b & E). simpl in E.
        exists (rev cur ++ c :: a), b. rewrite E. now rewrite <- app_assoc.
    + apply IH in I as (a & b & E). exists a, b. rewrite <- E.
      simpl. now rewrite <- app_assoc.
Qed.

Lemma Split_infix body line :
  In line (Strings.Split body [nl]) -> exists a b, body = a ++ line ++ b.
Proof. intros I. apply splitFrom_infix in I. exact I. Qed.

Lemma lineParent_length line : length (lineParent line) <= 1.
Proof.
  destruct (lineParent line) as [| n l] eqn:E; [simpl; lia |].
  assert (I : In n (lineParent line)) by (rewrite E; now left).
  apply lineParent_sound in I as (_ & _ & _ & _ & _ & _ & _ & I).
  rewrite E in I. injection I as ->. simpl. lia.
Qed.

Lemma flat_map_length_le {A B} (f : A -> list B) l :
  (forall x, length (f x) <= 1) -> length (flat_map f l) <= length l.
Proof.
  intros H. induction l as [| x l IH]; simpl; [lia |].
  rewrite length_app. specialize (H x). lia.
Qed.

(** X16: the parents read from a body.  Every number is between 0 and
    the largest [int]; a line gives at most one number, so there are no
    more numbers than lines; and a body that does not contain the text
    "Cherry pick of #" names no parent, so that a pull request with
    such a body has to follow the process, which is decided without a
    call. *)
Theorem parent_numbers body :
  Forall (fun n => (0 <= n <= Strconv.maxInt)%Z) (getCherrypickParentPRNums body)
  /\ length (getCherrypickParentPRNums body) <= length (Strings.Split body [nl])
  /\ (Strings.Contains body (lit "Cherry pick of #") = false ->
      getCherrypickParentPRNums body = []
      /\ forall pr prLabels comment s,
           PRBody (PRPullRequest pr) = body ->
           run client (prMustFollowRelNoteProcess lib pr prLabels comment) s
           = (true, [], s)).
Proof.
  rewrite getCherrypickParentPRNums_lines. split; [| split].
  - apply Forall_forall. intros n I. apply in_flat_map in I as (line & _ & I).
    apply lineParent_sound in I as (_ & ds & _ & _ & [_ D] & <- & V & _).
    split; [| exact V].
    exact (digitsVal_nonneg ds D (Z.le_refl 0)).
  - apply flat_map_length_le, lineParent_length.
  - intros C.
    assert (E : flat_map lineParent (Strings.Split body [nl]) = []).
    { destruct (flat_map lineParent (Strings.Split body [nl])) as [| n l] eqn:E;
        [reflexivity |].
      assert (I : In n (flat_map lineParent (Strings.Split body [nl])))
        by (rewrite E; now left).
      apply in_flat_map in I as (line & I1 & I2).
      apply Split_infix in I1 as (a & b & ->).
      apply lineParent_sound in I2 as (pre & ds & tail & -> & _).
      exfalso.
      apply (@Contains_false _ cpHead (a ++ pre) ((ds ++ cpMid ++ tail) ++ b) C).
      now rewrite <- !app_assoc. }
    split; [exact E |].
    intros pr prLabels comment s B. unfold prMustFollowRelNoteProcess.
    rewrite B, getCherrypickParentPRNums_lines, E.
    destruct (str_eqb _ _); reflexivity.
Qed.

Lemma equalFold_map a b :
  equalFold a b = str_eqb (map Strings.lowerByte a) (map Strings.lowerByte b).
Proof.
  revert b. induction a as [| x a IH]; intros [| y b]; simpl; try reflexivity.
  rewrite IH.
  destruct (Ascii.eqb_spec (Strings.lowerByte x) (Strings.lowerByte y)) as [E | N]; simpl.
  - rewrite E. unfold str_eqb.
    destruct (list_eq_dec ascii_dec (map Strings.lowerByte a) (map Strings.lowerByte b))
      as [-> | N];
      destruct (list_eq_dec ascii_dec _ _) as [E' | N']; try reflexivity; congruence.
  - unfold str_eqb. destruct (list_eq_dec ascii_dec _ _) as [E' | N']; congruence.
Qed.

(** X17: [hasLabel] disregards case.  For a label and label names
    that are ASCII text, it says whether some label of the issue has
    that name up to the case of its letters; in particular the answer
    does not change when the label asked for is written in another
    case. *)
Theorem hasLabel_disregards_case label issueLabels :
  Strings.isASCII label = true ->
  Forall (fun l => Strings.isASCII (Name l) = true) issueLabels ->
  hasLabel lib label issueLabels = existsb (fun l => equalFold (Name l) label) issueLabels
  /\ forall label',
       Strings.isASCII label' = true -> equalFold label' label = true ->
       hasLabel lib label' issueLabels = hasLabel lib label issueLabels.
Proof.
  intros A F.
  assert (G : forall q, Strings.isASCII q = true ->
                hasLabel lib q issueLabels =
                existsb (fun l => equalFold (Name l) q) issueLabels).
  { intros q Q. unfold hasLabel, stringsToLower, Strings.ToLower. rewrite Q.
    induction F as [| l ls H _ IH]; simpl; [reflexivity |].
    rewrite H, IH, equalFold_map. reflexivity. }
  split; [now apply G |].
  intros label' A' E. rewrite !G by assumption.
  rewrite equalFold_map in E. apply str_eqb_eq in E.
  clear G F. induction issueLabels as [| l ls IH]; simpl; [reflexivity |].
  rewrite IH, !equalFold_map. now rewrite E.
Qed.
End Parents.

Section Budget.
Variable lib : Imports.
Variable St : Type.
Variable client : forall R, Op R -> St -> R * St.

Lemma atMost_mono {A} (p : Prog A) : forall n m, n <= m -> atMost n p -> atMost m p.
Proof.
  induction p as [a | R op k IH | e k IH]; intros n m L H; simpl in *.
  - exact I.
  - destruct n as [| n]; [destruct H |]. destruct m as [| m]; [lia |].
    intros r. apply (IH r n m); [lia | apply H].
  - now apply (IH n m).
Qed.

Lemma atMost_bind {A B} (p : Prog A) (f : A -> Prog B) m :
  forall n, atMost n p -> (forall a, atMost m (f a)) -> atMost (n + m) (bind p f).
Proof.
  induction p as [a | R op k IH | e k IH]; intros n Hp Hf; simpl in *.
  - apply atMost_mono with (n := m); [lia | apply Hf].
  - destruct n as [| n]; [destruct Hp |]. simpl. intros r. now apply IH.
  - now apply IH.
Qed.

Lemma atMost_run {A} (p : Prog A) :
  forall n s, atMost n p -> calls (trace (run client p s)) <= n.
Proof.
  unfold calls, trace.
  induction p as [a | R op k IH | e k IH]; intros n s H; cbn [run atMost] in *.
  - simpl. lia.
  - destruct n as [| n]; [destruct H |].
    destruct (client op s) as [r s1]. specialize (IH r n s1 (H r)).
    destruct (run client (k r) s1) as [[a tr] s2].
    cbn [fst snd filter isCall length] in *. lia.
  - specialize (IH n s H). destruct (run client k s) as [[a tr] s1]. exact IH.
Qed.

Lemma collectNoteless_atMost org repo number parents acc :
  atMost (length parents) (collectNoteless lib org repo number parents acc).
Proof.
  revert acc. induction parents as [| parent rest IH]; intros acc; simpl; [exact I |].
  intros r. destruct r as [parentLabels | err]; simpl.
  - destruct (_ && _); apply IH.
  - apply IH.
Qed.

Lemma mustFollow_atMost pr prLabels comment :
  atMost (length (getCherrypickParentPRNums (PRBody (PRPullRequest pr))) + 1)
    (prMustFollowRelNoteProcess lib pr prLabels comment).
Proof.
  unfold prMustFollowRelNoteProcess.
  destruct (str_eqb _ _); [exact I |].
  destruct (_ =? 0); [exact I |].
  apply atMost_bind; [apply collectNoteless_atMost |].
  intros missing. destruct (_ =? 0); [exact I |].
  change 1 with (1 + 0). apply atMost_bind; [| intros; exact I].
  destruct (_ && _); [| exact I]. simpl. intros r. destruct r; exact I.
Qed.

Lemma ensure_atMost pr prLabels :
  atMost 2 (ensureNoRelNoteNeededLabel lib pr prLabels).
Proof.
  unfold ensureNoRelNoteNeededLabel. change 2 with (1 + 1).
  apply atMost_bind; [| intros _];
    (destruct (hasLabel _ _ _); [| exact I]); simpl; intros r; destruct r; exact I.
Qed.

Lemma removeEach_atMost org repo number label labelSet currentLabels errs :
  atMost (length (filter (wanted lib label currentLabels) labelSet))
    (removeEach lib (fun l => call (RemoveLabel org repo number l))
       label labelSet currentLabels errs).
Proof.
  revert errs. induction labelSet as [| elem rest IH]; intros errs; simpl; [exact I |].
  unfold wanted at 1.
  destruct (negb (str_eqb elem label) && hasLabel lib elem currentLabels); [| apply IH].
  simpl. intros r. destruct r; apply IH.
Qed.

(** Of the five release-note labels, at most four are other than a
    given one of them. *)
Lemma others_of_label label currentLabels :
  In label allRNLabels ->
  length (filter (wanted lib label currentLabels) allRNLabels) <= 4.
Proof.
  intros Hl. unfold allRNLabels in *. unfold wanted. cbn [filter].
  generalize (hasLabel lib releaseNoteNone currentLabels);
    generalize (hasLabel lib releaseNoteActionRequired currentLabels);
    generalize (hasLabel lib deprecatedReleaseNoteLabelNeeded currentLabels);
    generalize (hasLabel lib releaseNoteLabelNeeded currentLabels);
    generalize (hasLabel lib releaseNote currentLabels).
  intros b1 b2 b3 b4 b5.
  repeat (destruct Hl as [<- | Hl]; [destruct b1, b2, b3, b4, b5; vm_compute; lia |]).
  destruct Hl.
Qed.

Lemma removeOtherLabels_atMost org repo number label currentLabels :
  In label allRNLabels ->
  atMost 4 (removeOtherLabels lib (fun l => call (RemoveLabel org repo number l))
              label allRNLabels currentLabels).
Proof.
  intros Hl. unfold removeOtherLabels. change 4 with (4 + 0).
  apply atMost_bind.
  - eapply atMost_mono; [| apply removeEach_atMost]. now apply others_of_label.
  - intros errs. destruct (0 <? _); exact I.
Qed.

Lemma mustFollow_atMost_quiet pr prLabels :
  atMost (length (getCherrypickParentPRNums (PRBody (PRPullRequest pr))))
    (prMustFollowRelNoteProcess lib pr prLabels false).
Proof.
  unfold prMustFollowRelNoteProcess.
  destruct (str_eqb _ _); [exact I |].
  destruct (_ =? 0); [exact I |].
  rewrite <- (Nat.add_0_r (length _)).
  apply atMost_bind; [apply collectNoteless_atMost |].
  intros missing. destruct (_ =? 0); exact I.
Qed.

Lemma clearStaleComments_atMost pr prLabels comments :
  atMost (length (getCherrypickParentPRNums (PRBody (PRPullRequest pr))) + 2)
    (clearStaleComments lib pr prLabels comments).
Proof.
  unfold clearStaleComments.
  apply atMost_bind; [apply mustFollow_atMost_quiet |].
  intros must. destruct (_ && _); [exact I |].
  simpl. intros r. destruct r; simpl; [intros r; exact I | exact I].
Qed.

Lemma applyLabel_atMost pr prLabels labelToAdd comments :
  In labelToAdd stateLabels ->
  atMost (length (getCherrypickParentPRNums (PRBody (PRPullRequest pr))) + 9)
    (applyLabel lib pr prLabels labelToAdd comments).
Proof.
  intros T. unfold applyLabel.
  apply atMost_mono
    with (n := 2 + (1 + (4 + (0 + (length (getCherrypickParentPRNums
                                             (PRBody (PRPullRequest pr))) + 2)))));
    [lia |].
  apply atMost_bind.
  { destruct (str_eqb _ _); [| apply ensure_atMost].
    destruct (negb _); [| exact I]. simpl. intros r. destruct r; exact I. }
  intros _. apply atMost_bind.
  { destruct (negb _); [| exact I]. simpl. intros r. exact I. }
  intros [e |]; [exact I |].
  apply atMost_bind; [apply removeOtherLabels_atMost; now apply state_in_family |].
  intros err. apply atMost_bind; [destruct err; exact I |].
  intros _. apply clearStaleComments_atMost.
Qed.

(** X18: the calls of one run of [handlePR] are bounded by the number
    of parents the body names: with [p] parents, no run makes more than
    2 p + 12 calls, whatever the client answers. *)
Theorem handlePR_call_budget pr s :
  calls (trace (run client (handlePR lib pr) s))
  <= 2 * length (getCherrypickParentPRNums (PRBody (PRPullRequest pr))) + 12.
Proof.
  set (p := length (getCherrypickParentPRNums (PRBody (PRPullRequest pr)))).
  assert (K : forall prLabels, atMost ((p + 1) + (p + 10)) (labelPullRequest lib pr prLabels)).
  { intros prLabels. unfold labelPullRequest.
    destruct (str_eqb _ releaseNoteLabelNeeded).
    - apply atMost_bind; [apply mustFollow_atMost |].
      intros must. destruct must; simpl negb; cbv iota.
      + apply atMost_mono with (n := S (p + 9)); [lia |].
        cbn [bind call atMost]. intros r. destruct r as [comments | err]; [| exact I].
        apply applyLabel_atMost.
        destruct (containsNoneCommand _);
          [simpl; auto | apply determineReleaseNoteLabel_state].
      + apply atMost_mono with (n := 2 + (p + 2)); [lia |].
        apply atMost_bind; [apply ensure_atMost |].
        intros _. apply clearStaleComments_atMost.
    - eapply atMost_mono; [| apply applyLabel_atMost, determineReleaseNoteLabel_state].
      fold p. lia. }
  apply atMost_run. rewrite handlePR_labelPullRequest.
  apply atMost_mono with (n := S ((p + 1) + (p + 10))); [lia |].
  destruct (PRAction pr); try exact I.
  all: cbn [bind call atMost]; intros r; destruct r as [prLabels | err];
    [apply K | exact I].
Qed.
End Budget.

Section NoneAmongComments.
Variable lib : Imports.
Variable St : Type.
Variable client : forall R, Op R -> St -> R * St.

Lemma added_of_removals n ls :
  flat_map (fun op => match op with AddOp _ l => [l] | RemoveOp _ _ => [] end)
    (map (RemoveOp n) ls) = [].
Proof. induction ls; simpl; auto. Qed.

(** [applyLabel] attempts the addition of the label exactly when the
    labels lack it. *)
Lemma applyLabel_added pr prLabels labelToAdd comments s v tr s' :
  run client (applyLabel lib pr prLabels labelToAdd comments) s = (v, tr, s') ->
  added tr = if hasLabel lib labelToAdd prLabels then [] else [labelToAdd].
Proof.
  intros R. apply applyLabel_labelOps in R. rewrite added_labelOps.
  assert (E : flat_map (fun op => match op with AddOp _ l => [l] | RemoveOp _ _ => [] end)
                (if str_eqb labelToAdd releaseNoteLabelNeeded then []
                 else ensureOps lib (PRNumber pr) prLabels) = []).
  { destruct (str_eqb _ _); [reflexivity |].
    rewrite ensureOps_names. apply added_of_removals. }
  destruct R as [[_ ->] | (e & _ & _ & H & ->)].
  - unfold applyOps, removeOps. rewrite !flat_map_app, E, added_of_removals.
    destruct (hasLabel lib labelToAdd prLabels); reflexivity.
  - rewrite flat_map_app, E, H. reflexivity.
Qed.

Lemma containsNoneCommand_true comments :
  containsNoneCommand comments = true <->
  exists c, In c comments /\ hasCommandLine (lit "/release-note-none") (CommentBody c).
Proof.
  unfold containsNoneCommand. rewrite existsb_exists.
  split; intros (c & I & H); exists c; (split; [exact I |]);
    now apply MatchString_commandRE.
Qed.

Lemma mustFollow_false_posts_nothing pr prLabels comment s tr s' :
  run client (prMustFollowRelNoteProcess lib pr prLabels comment) s = (false, tr, s') ->
  posted tr = [].
Proof.
  intros R. unfold prMustFollowRelNoteProcess in R.
  destruct (str_eqb _ _); [discriminate |].
  destruct (_ =? 0); [discriminate |].
  rewrite run_bind in R.
  destruct (run client (collectNoteless _ _ _ _ _ _) s) as [[missing tr0] s1] eqn:C.
  apply collectNoteless_run in C. destruct C as (_ & _ & _ & C & _).
  destruct (length missing =? 0).
  - simpl in R. injection R as <- _. now rewrite app_nil_r.
  - rewrite run_bind in R.
    match type of R with context [run client ?p s1] =>
      destruct (run client p s1) as [[u tr1] s2] end.
    simpl in R. discriminate.
Qed.

Lemma ensure_removed pr prLabels s :
  map fst (removals (trace (run client (ensureNoRelNoteNeededLabel lib pr prLabels) s))) =
  filter (fun l => hasLabel lib l prLabels)
    [releaseNoteLabelNeeded; deprecatedReleaseNoteLabelNeeded].
Proof.
  rewrite removed_labelOps, ensure_labelOps, ensureOps_names.
  induction (filter _ _) as [| l ls IH]; simpl; [reflexivity | now rewrite IH].
Qed.

(** X19: the label applied to a pull request without a release note.
    A run of [handlePR] that lists the comments of the pull request
    applies release-note-none when one of them, whoever wrote it, has
    a line /release-note-none, and the needed label when none has: the
    addition of that label is attempted exactly when the labels read
    lack it, and no other label is added.  With the none-command, the
    advice on the release note is not posted; the only comment such a
    run can post is the advice on the parents. *)
Theorem label_after_listing pr s prLabels s0 comments :
  let out := run client (handlePR lib pr) s in
  let target :=
    if containsNoneCommand (elems comments) then releaseNoteNone
    else releaseNoteLabelNeeded in
  client (GetIssueLabels (Login (Owner (PRRepo pr))) (RepoName (PRRepo pr)) (PRNumber pr)) s
  = (Ok prLabels, s0) ->
  fetches (trace out) = [Ok comments] ->
  added (trace out) = (if hasLabel lib target prLabels then [] else [target])
  /\ (containsNoneCommand (elems comments) = true <->
      exists c, In c (elems comments)
                /\ hasCommandLine (lit "/release-note-none") (CommentBody c))
  /\ (containsNoneCommand (elems comments) = true ->
      forall p, In p (posted (trace out)) ->
        exists notelessParents, snd p = parentComment lib pr notelessParents).
Proof.
  intros out target E F. subst out.
  split; [| split; [apply containsNoneCommand_true |]].
  all: assert (A : PRAction pr <> PullRequestActionOther)
    by (intros A; rewrite handlePR_labelPullRequest, A in F; discriminate).
  all: rewrite (@handlePR_run_labels lib St client pr s prLabels s0 A E) in *.
  all: destruct (run client (labelPullRequest lib pr prLabels) s0) as [[v tr] s'] eqn:R.
  all: unfold trace in *; cbn [fst snd] in *.
  all: change (fetches tr = [Ok comments]) in F.
  1: change (added tr = (if hasLabel lib target prLabels then [] else [target])).
  2: change (containsNoneCommand (elems comments) = true ->
             forall p, In p (posted tr) ->
               exists notelessParents, snd p = parentComment lib pr notelessParents).
  all: unfold labelPullRequest in R.
  all: destruct (str_eqb _ releaseNoteLabelNeeded) eqn:N;
    [| apply applyLabel_cleanup in R as (R & _); rewrite R in F; discriminate].
  all: apply str_eqb_eq in N; rewrite N in R.
  all: rewrite run_bind in R.
  all: pose proof (@always_run
                (fun e : Event => forall p, In p (postedBy e) ->
                            exists notelessParents,
                              snd p = parentComment lib pr notelessParents)
                _ (prMustFollowRelNoteProcess lib pr prLabels true) St client s0) as PM.
  all: destruct (run client (prMustFollowRelNoteProcess lib pr prLabels true) s0)
    as [[must trM] sM] eqn:M.
  all: unfold trace in PM; cbn [fst snd] in PM.
  all: assert (PM' : forall p, In p (posted trM) ->
                  exists notelessParents, snd p = parentComment lib pr notelessParents).
  1, 3: intros p I; unfold posted in I; apply in_flat_map in I as (e & I1 & I2);
    assert (G : Forall (fun e : Event => forall p, In p (postedBy e) ->
                          exists notelessParents,
                            snd p = parentComment lib pr notelessParents) trM);
    [ apply PM; apply mustFollow_always;
      [ intros parent r; simpl; intros q []
      | intros l; simpl; intros q []
      | intros _ _ missing r; simpl; intros q [<- | []]; now exists missing ]
    | rewrite Forall_forall in G; exact (G e I1 p I2) ].
  all: clear PM.
  all: apply mustFollow_quiet in M; destruct M as (M1 & _ & M3 & _).
  all: destruct must; simpl negb in R; cbv iota in R.
  2, 4: rewrite run_bind in R;
    pose proof (@always_run (labelStep []) _ _ St client sM
                  (ensure_labelStep lib [] pr prLabels)) as En;
    destruct (run client (ensureNoRelNoteNeededLabel lib pr prLabels) sM) as [[u trE] sE];
    unfold trace in En; cbn [fst snd] in En;
    apply labelStep_trace in En; destruct En as (En & _);
    destruct (run client (clearStaleComments _ _ _ _) sE) as [[vC trC] sC] eqn:Cl;
    apply clearStaleComments_run in Cl; destruct Cl as (_ & _ & _ & Cl & _);
    injection R as _ <- _; unfold fetches in *;
    rewrite !flat_map_app, M3, En, Cl in F; discriminate.
  all: simpl in R.
  all: destruct (client (ListIssueComments _ _ _) sM) as [[listed | err] sL];
    [| injection R as _ <- _; unfold fetches in F, M3;
       rewrite flat_map_app, M3 in F; discriminate].
  all: destruct (run client (applyLabel _ _ _ _ _) sL) as [[v0 tr0] s1] eqn:Ap.
  all: injection R as _ <- _.
  all: pose proof (@applyLabel_cleanup lib St client _ _ _ _ _ _ _ _ Ap) as (F0 & _).
  all: unfold fetches in F, M3, F0; rewrite flat_map_app, M3 in F; simpl in F.
  all: rewrite F0 in F; injection F as ->.
  - pose proof (applyLabel_added _ _ _ _ _ Ap) as Ad.
    unfold added in *. rewrite flat_map_app, M1. simpl. exact Ad.
  - intros C. rewrite C in Ap.
    assert (Po : posted tr0 = []).
    { change tr0 with (trace (v0, tr0, s1)). rewrite <- Ap.
      apply silent_flat_map, always_run.
      apply applyLabel_always; try reflexivity; [discriminate |].
      apply clearStaleComments_always; reflexivity. }
    intros p I. unfold posted in I, Po. rewrite flat_map_app in I. simpl in I.
    rewrite Po, app_nil_r in I. now apply PM'.
Qed.

(** X20: the run for an exempt cherry-pick.  When the body holds no
    release note and [handlePR] does not come to list the comments,
    the lineage check has exempted the pull request: no label is added
    and no comment posted, and the only removals attempted are those of
    the needed label and of its deprecated alias, each if it is among
    the labels read. *)
Theorem exempt_run_only_strips pr s prLabels s0 :
  let out := run client (handlePR lib pr) s in
  PRAction pr <> PullRequestActionOther ->
  client (GetIssueLabels (Login (Owner (PRRepo pr))) (RepoName (PRRepo pr)) (PRNumber pr)) s
  = (Ok prLabels, s0) ->
  determineReleaseNoteLabel lib (PRBody (PRPullRequest pr)) = releaseNoteLabelNeeded ->
  fetches (trace out) = [] ->
  added (trace out) = [] /\ posted (trace out) = []
  /\ map fst (removals (trace out)) =
       filter (fun l => hasLabel lib l prLabels)
         [releaseNoteLabelNeeded; deprecatedReleaseNoteLabelNeeded].
Proof.
  intros out A E N F. subst out.
  rewrite (@handlePR_run_labels lib St client pr s prLabels s0 A E) in *.
  destruct (run client (labelPullRequest lib pr prLabels) s0) as [[v tr] s'] eqn:R.
  unfold trace in *; cbn [fst snd] in *.
  change (fetches tr = []) in F.
  change (added tr = [] /\ posted tr = []
          /\ map fst (removals tr) =
               filter (fun l => hasLabel lib l prLabels)
                 [releaseNoteLabelNeeded; deprecatedReleaseNoteLabelNeeded]).
  unfold labelPullRequest in R. rewrite N, str_eqb_refl in R.
  rewrite run_bind in R.
  destruct (run client (prMustFollowRelNoteProcess lib pr prLabels true) s0)
    as [[must trM] sM] eqn:M.
  destruct must; simpl negb in R; cbv iota in R.
  { simpl in R.
    destruct (client (ListIssueComments _ _ _) sM) as [[listed | err] sL];
      [destruct (run client (applyLabel _ _ _ _ _) sL) as [[v0 tr0] s1] |];
      injection R as _ <- _; unfold fetches in F; rewrite flat_map_app in F;
      apply app_eq_nil in F as [_ F]; discriminate. }
  pose proof (mustFollow_false_posts_nothing _ _ _ _ M) as P0.
  apply mustFollow_quiet in M. destruct M as (M1 & M2 & _).
  rewrite run_bind in R.
  pose proof (ensure_removed pr prLabels sM) as Er.
  pose proof (@always_run (fun e => postedBy e = [] /\ addedBy e = []) _ _ St client sM
                (ensure_always lib (fun e => postedBy e = [] /\ addedBy e = []) pr prLabels
                   (fun l r _ _ => conj eq_refl eq_refl)
                   (fun l => conj eq_refl eq_refl))) as En.
  destruct (run client (ensureNoRelNoteNeededLabel lib pr prLabels) sM) as [[u trE] sE].
  unfold trace in Er, En; cbn [fst snd] in Er, En.
  destruct (run client (clearStaleComments _ _ _ _) sE) as [[vC trC] sC] eqn:Cl.
  apply clearStaleComments_run in Cl. destruct Cl as (C1 & C2 & C3 & _).
  injection R as _ <- _.
  assert (E1 : posted trE = []).
  { apply silent_flat_map. eapply Forall_impl; [| exact En]. now intros e [H _]. }
  assert (E2 : added trE = []).
  { apply silent_flat_map. eapply Forall_impl; [| exact En]. now intros e [_ H]. }
  unfold added, posted, removals in *.
  rewrite !flat_map_app, M1, M2, P0, E1, E2, C1, C2, C3. simpl.
  rewrite app_nil_r. repeat split. exact Er.
Qed.
End NoneAmongComments.

Section Advice.
Variable lib : Imports.
Variable St : Type.
Variable client : forall R, Op R -> St -> R * St.

(** X21: what [handlePR] posts, the cleanup recognises.  Provided the
    layout of a response contains its message, every comment a run of
    [handlePR] posts holds one of the texts the stale-comment test
    looks for: once it is a comment of the bot, a later cleanup that
    reaches [DeleteStaleComments] hands over a test that is true of
    it. *)
Theorem advice_is_stale pr s :
  (forall to message reason,
      Strings.Contains (FormatResponse lib to message reason) message = true) ->
  forall p, In p (posted (trace (run client (handlePR lib pr) s))) ->
  forall id botName,
    isStale botName
      {| CommentID := id; CommentBody := snd p; CommentUser := {| Login := botName |} |}
    = true.
Proof.
  intros Layout.
  assert (F : Forall (fun e => forall p, In p (postedBy e) ->
                        Strings.Contains (snd p) releaseNoteBody = true
                        \/ Strings.Contains (snd p) parentReleaseNoteBody = true)
                (trace (run client (handlePR lib pr) s))).
  { apply handlePR_from_labels; [intros r; simpl; intros q [] |].
    intros prLabels s0 _.
    assert (C : forall comments,
               always (fun e => forall p, In p (postedBy e) ->
                         Strings.Contains (snd p) releaseNoteBody = true
                         \/ Strings.Contains (snd p) parentReleaseNoteBody = true)
                 (clearStaleComments lib pr prLabels comments)).
    { intros comments. apply clearStaleComments_always; intros; contradiction. }
    assert (A : forall label comments,
               always (fun e => forall p, In p (postedBy e) ->
                         Strings.Contains (snd p) releaseNoteBody = true
                         \/ Strings.Contains (snd p) parentReleaseNoteBody = true)
                 (applyLabel lib pr prLabels label comments)).
    { intros label comments.
      apply applyLabel_always; try (intros; contradiction).
      - intros _ _ r. simpl. intros q [<- | []]. left. apply Layout.
      - apply C. }
    unfold labelPullRequest.
    destruct (str_eqb _ releaseNoteLabelNeeded); [| apply A].
    apply always_bind.
    { apply mustFollow_always.
      - intros parent r. simpl. intros q [].
      - intros l. simpl. intros q [].
      - intros _ _ missing r. simpl. intros q [<- | []]. right. apply Layout. }
    intros must. destruct must; simpl negb; cbv iota.
    - simpl. intros r. split; [intros q [] |]. destruct r; [apply A | exact I].
    - apply always_bind; [| intros _; apply C].
      apply ensure_always; intros; contradiction. }
  intros p I id botName.
  unfold posted in I. apply in_flat_map in I as (e & I1 & I2).
  rewrite Forall_forall in F. specialize (F e I1 p I2).
  unfold isStale. cbn [CommentUser CommentBody Login]. rewrite str_eqb_refl.
  destruct F as [-> | ->]; [reflexivity | now rewrite orb_true_r].
Qed.
End Advice.

Section CommentResult.
Variable lib : Imports.
Variable St : Type.
Variable client : forall R, Op R -> St -> R * St.

Lemma Forall_removelast {A} (P : A -> Prop) l : Forall P l -> Forall P (removelast l).
Proof.
  induction 1 as [| x l H _ IH]; simpl; [constructor |].
  destruct l; [constructor | now constructor].
Qed.

Lemma lastCommentFailure_quiet tr :
  Forall (fun e => commentFailureOf e = None) tr -> lastCommentFailure tr = None.
Proof.
  intros F. unfold lastCommentFailure.
  destruct (rev tr) as [| e l] eqn:E; [reflexivity |].
  rewrite Forall_forall in F. apply F. apply in_rev. rewrite E. now left.
Qed.

(** X22: what [handleComment] returns.  It stops at the first failure
    to learn the membership of the commenter, to post a notice or to
    add the label, and returns that failure; no call follows it.  When
    it comes to removing labels, it returns the combined error of the
    removals that failed; in every other case it returns nil. *)
Theorem handleComment_result ic s :
  let out := run client (handleComment lib ic) s in
  Forall (fun e => commentFailureOf e = None) (removelast (trace out))
  /\ value out =
       match failures (removals (trace out)) with
       | [] => lastCommentFailure (trace out)
       | errs => Some (removalError errs)
       end.
Proof.
  intros out. subst out. unfold handleComment.
  destruct (_ || _); [split; [constructor | reflexivity] |].
  destruct (commandLabel _) as [label |]; [| split; [constructor | reflexivity]].
  destruct (_ || _).
  { simpl. destruct (client (CreateComment _ _ _ _) s) as [r s1].
    split; [constructor | reflexivity]. }
  simpl. destruct (client (IsMember _ _) s) as [[isMember | err] s1];
    [| split; [constructor | reflexivity]].
  destruct (_ && _).
  { simpl. destruct (client (CreateComment _ _ _ _) s1) as [r s2].
    split; [repeat constructor | reflexivity]. }
  destruct (_ || _).
  { simpl. destruct (client (CreateComment _ _ _ _) s1) as [r s2].
    split; [repeat constructor | reflexivity]. }
  assert (Tail : forall pre s2,
             Forall (fun e => commentFailureOf e = None) pre -> removals pre = [] ->
             let outR := run client
                           (removeOtherLabels lib
                              (fun l => call (RemoveLabel (Login (Owner (ICRepo ic)))
                                                (RepoName (ICRepo ic))
                                                (IssueNumber (ICIssue ic)) l))
                              releaseNoteNone allRNLabels (IssueLabels (ICIssue ic))) s2 in
             Forall (fun e => commentFailureOf e = None) (removelast (pre ++ trace outR))
             /\ value outR =
                  match failures (removals (pre ++ trace outR)) with
                  | [] => lastCommentFailure (pre ++ trace outR)
                  | errs => Some (removalError errs)
                  end).
  { intros pre s2 Q N outR.
    assert (F : Forall (fun e => commentFailureOf e = None) (trace outR)).
    { apply always_run. apply removeOtherLabels_always. reflexivity. }
    assert (V := @removeOtherLabels_run lib St client (Login (Owner (ICRepo ic)))
                   (RepoName (ICRepo ic)) (IssueNumber (ICIssue ic))
                   releaseNoteNone allRNLabels (IssueLabels (ICIssue ic)) s2).
    subst outR.
    destruct (run client (removeOtherLabels _ _ _ _ _) s2) as [[v tr] s3].
    destruct (V _ _ _ eq_refl) as (_ & -> & _).
    unfold value, trace in *; cbn [fst snd] in *.
    assert (All : Forall (fun e => commentFailureOf e = None) (pre ++ tr))
      by (apply Forall_app; now split).
    split; [now apply Forall_removelast |].
    unfold removals in *. rewrite flat_map_app, N. cbn [app].
    destruct (failures (flat_map removalBy tr)); [| reflexivity].
    symmetry. now apply lastCommentFailure_quiet. }
  destruct (negb (HasLabel lib (ICIssue ic) releaseNoteNone)); simpl.
  - destruct (client (AddLabel _ _ _ _) s1) as [[e |] s2]; simpl.
    + split; [repeat constructor | reflexivity].
    + pose proof (Tail [Called (IsMember (Login (Owner (ICRepo ic)))
                                     (Login (CommentUser (ICComment ic)))) (Ok isMember);
                          Called (AddLabel (Login (Owner (ICRepo ic))) (RepoName (ICRepo ic))
                                    (IssueNumber (ICIssue ic)) releaseNoteNone) None] s2) as T.
      cbv zeta in T.
      destruct (run client (removeOtherLabels _ _ _ _ _) s2) as [[v tr] s3].
      apply T; [repeat constructor | reflexivity].
  - pose proof (Tail [Called (IsMember (Login (Owner (ICRepo ic)))
                                   (Login (CommentUser (ICComment ic)))) (Ok isMember)]
                  s1) as T.
    cbv zeta in T.
    destruct (run client (removeOtherLabels _ _ _ _ _) s1) as [[v tr] s3].
    apply T; [repeat constructor | reflexivity].
Qed.
End CommentResult.

Section Twice.
Variable lib : Imports.

Lemma applyOps_settled n label prLabels :
  In label stateLabels ->
  (forall l, In l allRNLabels -> hasLabel lib l prLabels = str_eqb l label) ->
  applyOps lib n label prLabels = [].
Proof.
  intros T Only.
  unfold applyOps, ensureOps, removeOps, wanted, allRNLabels. cbn [filter].
  rewrite (Only label) by now apply state_in_family.
  rewrite !Only by (unfold allRNLabels; cbn [In]; auto 10).
  destruct T as [<- | [<- | [<- | [<- | []]]]]; vm_compute; reflexivity.
Qed.

(** X23: reconciling twice changes nothing the second time.  Against
    a tracker on which every call succeeds, after a run of [handlePR]
    for a body that holds a release note, the label for that note is
    the one release-note label on the pull request, and a second run
    for the same event attempts no addition and no removal and leaves
    the labels as they are. *)
Theorem noted_run_is_idempotent pr t :
  let label := determineReleaseNoteLabel lib (PRBody (PRPullRequest pr)) in
  let once := run (tracker lib) (handlePR lib pr) t in
  let twice := run (tracker lib) (handlePR lib pr) (final once) in
  PRAction pr <> PullRequestActionOther ->
  label <> releaseNoteLabelNeeded ->
  (forall l, In l allRNLabels ->
     hasLabel lib l (labelsOf (final once) (PRNumber pr)) = str_eqb l label)
  /\ labelOps (trace twice) = []
  /\ labelsOf (final twice) = labelsOf (final once).
Proof.
  intros label once twice Hact N.
  assert (T : In label stateLabels) by apply determineReleaseNoteLabel_state.
  apply str_eqb_neq in N.
  assert (Ops : forall t0,
             labelOps (trace (run (tracker lib) (handlePR lib pr) t0)) =
             applyOps lib (PRNumber pr) label (labelsOf t0 (PRNumber pr))).
  { intros t0. destruct (handlePR_tracker lib pr t0 Hact) as [_ L].
    fold label in L. rewrite N in L. exact L. }
  assert (Only : forall l, In l allRNLabels ->
                   hasLabel lib l (labelsOf (final once) (PRNumber pr)) = str_eqb l label).
  { intros l Hl. subst once.
    rewrite (@tracker_labels lib _ (handlePR lib pr) t), !hasLabel_hasKey.
    rewrite presentAfter_spec by (rewrite Ops; apply applyOps_number).
    rewrite Ops, <- hasLabel_hasKey. now apply applyOps_present. }
  assert (Z : labelOps (trace twice) = []).
  { subst twice. rewrite Ops. now apply applyOps_settled. }
  split; [exact Only | split; [exact Z |]].
  subst twice. rewrite (@tracker_labels lib _ (handlePR lib pr) (final once)).
  now rewrite Z.
Qed.
End Twice.

(** ** The advice on parents and the none-command *)

Section LineageAdvice.
Variable lib : Imports.
Variable St : Type.
Variable client : forall R, Op R -> St -> R * St.

Lemma Join_holds (x : str) l sep :
  In x l -> exists pre post, Strings.Join l sep = pre ++ x ++ post.
Proof.
  induction l as [| y l IH]; [intros [] |].
  intros [-> | I].
  - destruct l as [| z l].
    + exists [], []. simpl. now rewrite app_nil_r.
    + exists [], (sep ++ Strings.Join (z :: l) sep). reflexivity.
  - destruct l as [| z l]; [destruct I |].
    destruct (IH I) as (pre & post & E).
    exists (y ++ sep ++ pre), post.
    change (Strings.Join (y :: z :: l) sep) with (y ++ sep ++ Strings.Join (z :: l) sep).
    rewrite E. now rewrite <- !app_assoc.
Qed.

Lemma noteless_filter checks :
  noteless lib checks =
  map (fun c => lit "#" ++ Strconv.Itoa (fst c))
    (filter (fun c : Z * res (list Label) =>
               match snd c with
               | Ok ls => negb (hasLabel lib releaseNote ls)
                          && negb (hasLabel lib releaseNoteActionRequired ls)
               | Err _ => false
               end) checks).
Proof.
  unfold noteless. induction checks as [| [n r] rest IH]; [reflexivity |].
  cbn [flat_map filter snd]. rewrite IH. unfold notelessCheck. cbn [fst snd].
  destruct r as [ls | e]; [| reflexivity].
  destruct (negb _ && negb _); reflexivity.
Qed.

(** C3: the lineage policy.  With the base branch "master" the result
    is true and nothing is called; with no cherry-pick parent in the
    body the result is true and nothing is called; otherwise every
    parent's labels are asked for once, in the order of the body.  The
    result is false, and nothing is posted, when every parent whose
    labels were obtained carries release-note or
    release-note-action-required.  If not, the result is true and
    exactly one comment is posted, on the pull request itself, if and
    only if commenting is enabled and the needed label is absent: the
    response to the author whose message is the advice on parents and
    whose reason lists "#" and the number of each parent whose labels
    were obtained and hold neither label, in the order of the body,
    separated by ", "; the reason contains each of these numbers. *)
Theorem mustFollowProcess_lineage pr prLabels comment s :
  let out := run client (prMustFollowRelNoteProcess lib pr prLabels comment) s in
  let org := Login (Owner (PRRepo pr)) in
  let repo := RepoName (PRRepo pr) in
  let parents := getCherrypickParentPRNums (PRBody (PRPullRequest pr)) in
  let checks := parentChecks (trace out) in
  let satisfied :=
    forall n ls, In (n, Ok ls) checks ->
      hasLabel lib releaseNote ls = true \/
      hasLabel lib releaseNoteActionRequired ls = true in
  let lacksNote (c : Z * res (list Label)) :=
    match snd c with
    | Ok ls => negb (hasLabel lib releaseNote ls)
               && negb (hasLabel lib releaseNoteActionRequired ls)
    | Err _ => false
    end in
  let names := map (fun c => lit "#" ++ Strconv.Itoa (fst c)) (filter lacksNote checks) in
  let message :=
    lit "All 'parent' PRs of a cherry-pick PR must have one of the "
    ++ [quote] ++ lit "release-note" ++ [quote] ++ lit " or "
    ++ [quote] ++ lit "release-note-action-required" ++ [quote]
    ++ lit " labels, or this PR must follow the standard/parent release note labeling requirement." in
  let reason :=
    lit "The following parent PRs have neither the "
    ++ [quote] ++ lit "release-note" ++ [quote] ++ lit " nor the "
    ++ [quote] ++ lit "release-note-action-required" ++ [quote]
    ++ lit " labels: " ++ Strings.Join names (lit ", ") ++ lit "." in
  (Ref (Base (PRPullRequest pr)) = lit "master" ->
     value out = true /\ trace out = [])
  /\ (parents = [] -> value out = true /\ trace out = [])
  /\ (Ref (Base (PRPullRequest pr)) <> lit "master" -> parents <> [] ->
       map fst checks = parents
       /\ (satisfied -> value out = false /\ posted (trace out) = [])
       /\ (~ satisfied ->
            value out = true
            /\ posted (trace out) =
                 (if comment && negb (hasLabel lib releaseNoteLabelNeeded prLabels)
                  then [(org, repo, PRNumber pr,
                         FormatResponse lib (Login (PRUser (PRPullRequest pr)))
                           message reason)]
                  else [])
            /\ forall n ls, In (n, Ok ls) checks ->
                 hasLabel lib releaseNote ls = false ->
                 hasLabel lib releaseNoteActionRequired ls = false ->
                 In (lit "#" ++ Strconv.Itoa n) names
                 /\ Strings.Contains reason (lit "#" ++ Strconv.Itoa n) = true)).
Proof.
  intros out org repo parents checks satisfied lacksNote names message reason.
  split; [| split].
  - intros Hbase. subst out. unfold prMustFollowRelNoteProcess.
    rewrite Hbase. rewrite str_eqb_refl. now split.
  - intros Hpar. subst out. unfold prMustFollowRelNoteProcess.
    destruct (str_eqb _ _); [now split |].
    fold parents. rewrite Hpar. now split.
  - intros Hbase Hpar.
    assert (T : parentComment lib pr (noteless lib checks)
                = FormatResponse lib (Login (PRUser (PRPullRequest pr))) message reason).
    { subst reason names lacksNote. rewrite noteless_filter. reflexivity. }
    assert (Nm : noteless lib checks = names).
    { subst names lacksNote. apply noteless_filter. }
    assert (C : forall x, In x names -> Strings.Contains reason x = true).
    { intros x I. apply Contains_spec.
      destruct (@Join_holds x names (lit ", ") I) as (pre & post & E).
      exists (lit "The following parent PRs have neither the "
              ++ [quote] ++ lit "release-note" ++ [quote] ++ lit " nor the "
              ++ [quote] ++ lit "release-note-action-required" ++ [quote]
              ++ lit " labels: " ++ pre), (post ++ lit ".").
      subst reason. rewrite E. now rewrite <- !app_assoc. }
    clearbody names reason message.
    destruct (run client (prMustFollowRelNoteProcess lib pr prLabels comment) s)
      as [[v tr] s'] eqn:R.
    subst out checks. unfold value, trace in *; cbn [fst snd] in *.
    destruct (@lineage_run lib St client _ _ _ _ _ _ _ R Hbase Hpar)
      as (L1 & L2 & L3 & _).
    split; [exact L1 | split].
    + intros Hs. apply noteless_nil in Hs.
      rewrite Hs in L2, L3. simpl in L2, L3. now split.
    + intros Hn.
      assert (N : noteless lib (parentChecks tr) <> []).
      { intro E. apply Hn. exact (proj1 (noteless_nil lib (parentChecks tr)) E). }
      assert (Z : (length (noteless lib (parentChecks tr)) =? 0) = false).
      { destruct (length _ =? 0) eqn:Z; [| reflexivity].
        apply length_zero in Z. contradiction. }
      rewrite Z in L2, L3. simpl in L2, L3. rewrite T in L3.
      split; [exact L2 | split; [exact L3 |]].
      intros n ls I H1 H2.
      assert (I' : In (lit "#" ++ Strconv.Itoa n) names).
      { rewrite <- Nm. now apply (@noteless_names lib _ n ls). }
      split; [exact I' |].
      now apply C.
Qed.
End LineageAdvice.

Section NoneCommand.
Variable lib : Imports.
Variable St : Type.
Variable client : forall R, Op R -> St -> R * St.

Lemma others_than_none currentLabels :
  filter (wanted lib releaseNoteNone currentLabels) allRNLabels =
  filter (fun l => hasLabel lib l currentLabels)
    [releaseNoteActionRequired; deprecatedReleaseNoteLabelNeeded;
     releaseNoteLabelNeeded; releaseNote].
Proof.
  unfold allRNLabels, wanted. cbn [filter]. rewrite str_eqb_refl. cbn [negb andb].
  reflexivity.
Qed.

Lemma removeOtherLabels_additions org repo number label labelSet currentLabels s :
  additions (trace (run client
                      (removeOtherLabels lib (fun l => call (RemoveLabel org repo number l))
                         label labelSet currentLabels) s)) = [].
Proof.
  apply silent_flat_map, always_run, removeOtherLabels_always. reflexivity.
Qed.

(** C8, as the code has it: a none-command on a pull request.  The
    membership of the commenter is looked up first; when the lookup
    fails, its error is returned and nothing else is called.  From
    someone who is neither member nor author, only the rejection is
    posted and no label changes.  From a member or the author while
    the body gives release-note or release-note-action-required, only
    the explanation is posted and no label changes.  From a member or
    the author while the body's block is empty or says none, nothing
    is posted; release-note-none is added if the issue lacks it, and
    the removal of every other release-note label the issue carries
    follows, unless the addition fails: then its error is returned and
    nothing is removed. *)
Theorem none_command_authorization ic s :
  let out := run client (handleComment lib ic) s in
  let org := Login (Owner (ICRepo ic)) in
  let repo := RepoName (ICRepo ic) in
  let number := IssueNumber (ICIssue ic) in
  let user := Login (CommentUser (ICComment ic)) in
  let isAuthor := IsAuthor lib (ICIssue ic) user in
  let blockNL := determineReleaseNoteLabel lib (IssueBody (ICIssue ic)) in
  let others :=
    filter (fun l => hasLabel lib l (IssueLabels (ICIssue ic)))
      [releaseNoteActionRequired; deprecatedReleaseNoteLabelNeeded;
       releaseNoteLabelNeeded; releaseNote] in
  IsPullRequest lib (ICIssue ic) = true ->
  ICAction ic = IssueCommentActionCreated ->
  commandLabel (CommentBody (ICComment ic)) = Some releaseNoteNone ->
  match fst (client (IsMember org user) s) with
  | Err err =>
      trace out = [Called (IsMember org user) (Err err)] /\ value out = Some err
  | Ok isMember =>
      (isMember = false -> isAuthor = false ->
       posted (trace out) =
         [(org, repo, number,
           FormatICResponse lib (ICComment ic)
             (lit "you can only set the release note label to release-note-none if you are the PR author or an org member."))]
       /\ labelOps (trace out) = [])
      /\ (isMember || isAuthor = true ->
          blockNL = releaseNote \/ blockNL = releaseNoteActionRequired ->
          posted (trace out) =
            [(org, repo, number,
              FormatICResponse lib (ICComment ic)
                (lit "you can only set the release note label to release-note-none if the release-note block in the PR body text is empty or "
                 ++ [quote] ++ lit "none" ++ [quote] ++ lit "."))]
          /\ labelOps (trace out) = [])
      /\ (isMember || isAuthor = true ->
          blockNL = releaseNoteLabelNeeded \/ blockNL = releaseNoteNone ->
          posted (trace out) = []
          /\ (HasLabel lib (ICIssue ic) releaseNoteNone = true ->
              labelOps (trace out) = map (RemoveOp number) others)
          /\ (HasLabel lib (ICIssue ic) releaseNoteNone = false ->
              exists answer,
                additions (trace out) = [(releaseNoteNone, answer)]
                /\ match answer with
                   | None =>
                       labelOps (trace out) =
                         AddOp number releaseNoteNone :: map (RemoveOp number) others
                   | Some err =>
                       labelOps (trace out) = [AddOp number releaseNoteNone]
                       /\ value out = Some err
                   end))
  end.
Proof.
  intros out org repo number user isAuthor blockNL others Hpr Hact Hcmd.
  subst out. rewrite (@handleComment_none lib ic Hpr Hact Hcmd). cbv zeta.
  fold org repo number user isAuthor blockNL.
  change (lit "you can only set the release note label to release-note-none if you are the PR author or an org member.")
    with notAuthorizedNotice.
  change (lit "you can only set the release note label to release-note-none if the release-note block in the PR body text is empty or "
          ++ [quote] ++ lit "none" ++ [quote] ++ lit ".")
    with noteInBodyNotice.
  simpl run.
  destruct (client (IsMember org user) s) as [[isMember | err] s1] eqn:Hm; cbn [fst];
    [| now split].
  split; [| split].
  - intros -> ->. simpl.
    destruct (client (CreateComment org repo number _) s1) as [e s2].
    now split.
  - intros Auth Hb.
    assert (negb isMember && negb isAuthor = false) as ->.
    { destruct isMember, isAuthor; try reflexivity; discriminate. }
    assert (str_eqb blockNL releaseNote || str_eqb blockNL releaseNoteActionRequired = true)
      as ->.
    { destruct Hb as [-> | ->]; reflexivity. }
    simpl.
    destruct (client (CreateComment org repo number _) s1) as [e s2].
    now split.
  - intros Auth Hb.
    assert (negb isMember && negb isAuthor = false) as ->.
    { destruct isMember, isAuthor; try reflexivity; discriminate. }
    assert (str_eqb blockNL releaseNote || str_eqb blockNL releaseNoteActionRequired = false)
      as ->.
    { destruct Hb as [-> | ->]; reflexivity. }
    cbv iota.
    pose proof (fun s2 => @removeOtherLabels_labelOps lib St client org repo number
                  releaseNoteNone allRNLabels (IssueLabels (ICIssue ic)) s2) as RL.
    pose proof (fun s2 => @removeOtherLabels_run lib St client org repo number
                  releaseNoteNone allRNLabels (IssueLabels (ICIssue ic)) s2) as RR.
    pose proof (fun s2 => @removeOtherLabels_additions org repo number
                  releaseNoteNone allRNLabels (IssueLabels (ICIssue ic)) s2) as RA.
    rewrite others_than_none in RL. fold others in RL.
    destruct (HasLabel lib (ICIssue ic) releaseNoteNone) eqn:HL; simpl.
    + specialize (RL s1). specialize (RR s1).
      destruct (run client (removeOtherLabels _ _ _ _ _) s1) as [[v trR] sR].
      destruct (RR _ _ _ eq_refl) as (_ & _ & R3 & _).
      unfold trace in *; cbn [fst snd] in *.
      split; [exact R3 | split; [intros _; exact RL | discriminate]].
    + destruct (client (AddLabel org repo number releaseNoteNone) s1) as [[e |] s2] eqn:A.
      * simpl. split; [reflexivity | split; [discriminate |]].
        intros _. exists (Some e). now repeat split.
      * specialize (RL s2). specialize (RR s2). specialize (RA s2).
        destruct (run client (removeOtherLabels _ _ _ _ _) s2) as [[v trR] sR].
        destruct (RR _ _ _ eq_refl) as (_ & _ & R3 & _).
        unfold trace in *; cbn [fst snd] in *.
        split; [exact R3 | split; [discriminate |]].
        intros _. exists None. unfold additions, labelOps in *. simpl.
        rewrite RA, RL. now split.
Qed.
End NoneCommand.

(** The runs that C8's second case does not cover.  The author of pull
    request #7, whose body has no release-note block, asks for
    release-note-none.  When the membership lookup fails, its error is
    returned and that lookup is the only call: no label is added and
    none removed.  When the addition of the label is refused, its error
    is returned and release-note is not removed. *)
Lemma none_command_not_carried_out :
  IsAuthor sampleImports (ICIssue noneCommand) (Login (CommentUser (ICComment noneCommand)))
  = true
  /\ getReleaseNote (IssueBody (ICIssue noneCommand)) = []
  /\ run failingClient (handleComment sampleImports noneCommand) tt
     = (Some (lit "unreachable"),
        [Called (IsMember (lit "kubernetes") (lit "author")) (Err (lit "unreachable"))],
        tt)
  /\ value (run (frozenTracker sampleImports) (handleComment sampleImports noneCommand)
              noneCommandTracker) = Some (lit "labels are frozen")
  /\ removals (trace (run (frozenTracker sampleImports)
                        (handleComment sampleImports noneCommand) noneCommandTracker)) = []
  /\ labelsOf (final (run (frozenTracker sampleImports)
                        (handleComment sampleImports noneCommand) noneCommandTracker)) 7
     = [ {| Name := releaseNote |} ].
Proof. vm_compute. repeat split; reflexivity. Qed.

(** The author's none-command on a pull request without a note, every
    call succeeding: release-note-none is added and release-note
    removed. *)
Lemma none_command_authorization_witness :
  IsPullRequest sampleImports (ICIssue noneCommand) = true
  /\ ICAction noneCommand = IssueCommentActionCreated
  /\ commandLabel (CommentBody (ICComment noneCommand)) = Some releaseNoteNone
  /\ labelOps (trace (run (tracker sampleImports) (handleComment sampleImports noneCommand)
                        noneCommandTracker))
     = [AddOp 7 releaseNoteNone; RemoveOp 7 releaseNote].
Proof.
  split; [reflexivity | split; [reflexivity | split; [reflexivity |]]].
  pose proof (@none_command_authorization sampleImports _ (tracker sampleImports)
                noneCommand noneCommandTracker eq_refl eq_refl eq_refl) as H.
  cbv zeta in H. cbn [fst tracker] in H.
  destruct H as (_ & _ & H).
  destruct (H eq_refl (or_introl eq_refl)) as (_ & _ & H3).
  destruct (H3 eq_refl) as ([e |] & H4 & H5).
  - exfalso. vm_compute in H4. discriminate.
  - exact H5.
Defined.

(** ** Cleanup comes last *)

Section CleanupLast.
Variable lib : Imports.



End CleanupLast.

Section CleanupOrder.
Variable lib : Imports.





End CleanupOrder.


(** ** The hypotheses of the properties above, met *)

Lemma deprecated_command_answered_witness :
  exists r,
    trace (run (tracker sampleImports) (handleComment sampleImports twoCommands)
             noneCommandTracker)
    = [Called (CreateComment (lit "kubernetes") (lit "kubernetes") 7
                 (FormatICResponse sampleImports (ICComment twoCommands) deprecationNotice))
         r]
    /\ value (run (tracker sampleImports) (handleComment sampleImports twoCommands)
                noneCommandTracker) = r.
Proof.
  apply (@deprecated_command_answered sampleImports _ (tracker sampleImports)
           twoCommands noneCommandTracker); [reflexivity | reflexivity |].
  left. exists (lit "/release-note-none" ++ [nl]), (lit "/RELEASE-NOTE"), (lit "  "), [].
  repeat split; try reflexivity.
  repeat (apply FoldByte; [reflexivity |]). apply FoldNil.
Defined.

Lemma flagged_gets_no_comment_witness :
  posted (trace (run (tracker sampleImports) (handlePR sampleImports emptyNotePR)
                   flaggedTracker)) = [].
Proof.
  apply (@flagged_gets_no_comment sampleImports _ (tracker sampleImports) emptyNotePR
           flaggedTracker [ {| Name := releaseNoteLabelNeeded |} ] flaggedTracker);
    reflexivity.
Defined.

Lemma noted_body_needs_no_comments_witness :
  posted (trace (run (tracker sampleImports) (handlePR sampleImports notedPR) notedTracker))
  = []
  /\ fetches (trace (run (tracker sampleImports) (handlePR sampleImports notedPR)
                       notedTracker)) = [].
Proof.
  destruct (@noted_body_needs_no_comments sampleImports _ (tracker sampleImports)
              notedPR notedTracker) as (H1 & H2 & _).
  - apply str_eqb_neq. vm_compute. reflexivity.
  - now split.
Defined.

Lemma first_note_label_keeps_comments_witness :
  offers (trace (run (tracker sampleImports) (handlePR sampleImports emptyNotePR)
                   notelessParentTracker)) = []
  /\ botNames (trace (run (tracker sampleImports) (handlePR sampleImports emptyNotePR)
                        notelessParentTracker)) = [].
Proof.
  apply (@first_note_label_keeps_comments sampleImports _ (tracker sampleImports)
           emptyNotePR notelessParentTracker [] notelessParentTracker);
    [left; reflexivity | reflexivity | reflexivity].
Defined.

Lemma label_changes_follow_the_labels_read_witness :
  added (trace (run (tracker sampleImports) (handlePR sampleImports notedPR) flaggedTracker))
  = [releaseNote]
  /\ hasLabel sampleImports releaseNote (labelsOf flaggedTracker 4) = false
  /\ ~ In releaseNote
         (map fst (removals (trace (run (tracker sampleImports)
                                      (handlePR sampleImports notedPR) flaggedTracker)))).
Proof.
  destruct (@label_changes_follow_the_labels_read sampleImports _ (tracker sampleImports)
              notedPR flaggedTracker (labelsOf flaggedTracker 4) flaggedTracker eq_refl)
    as (H1 & _ & H3).
  split; [vm_compute; reflexivity |].
  split; [apply H1 | apply H3]; vm_compute; left; reflexivity.
Defined.

Lemma settled_labels_untouched_witness :
  added (trace (run (tracker sampleImports) (handlePR sampleImports notedPR) notedTracker))
  = []
  /\ removals (trace (run (tracker sampleImports) (handlePR sampleImports notedPR)
                        notedTracker)) = []
  /\ posted (trace (run (tracker sampleImports) (handlePR sampleImports notedPR)
                      notedTracker)) = [].
Proof.
  destruct (@settled_labels_untouched sampleImports _ (tracker sampleImports) notedPR
              notedTracker [ {| Name := releaseNote |} ] notedTracker releaseNote)
    as [H _].
  - reflexivity.
  - intros l [<- | [<- | [<- | [<- | [<- | []]]]]]; vm_compute; reflexivity.
  - apply H; [| vm_compute; reflexivity].
    apply str_eqb_neq. vm_compute. reflexivity.
Defined.

Lemma body_without_block_witness :
  getReleaseNote (lit "Fixes a typo.") = []
  /\ determineReleaseNoteLabel sampleImports (lit "Fixes a typo.") = releaseNoteLabelNeeded.
Proof.
  apply (@body_without_block sampleImports (lit "Fixes a typo.")). left. reflexivity.
Defined.

Lemma hasLabel_disregards_case_witness :
  hasLabel sampleImports (lit "Release-Note") [ {| Name := lit "RELEASE-NOTE" |} ] = true.
Proof.
  destruct (@hasLabel_disregards_case sampleImports (lit "Release-Note")
              [ {| Name := lit "RELEASE-NOTE" |} ]) as [H _].
  - reflexivity.
  - repeat constructor.
  - rewrite H. reflexivity.
Defined.

Lemma label_after_listing_witness :
  added (trace (run (tracker sampleImports) (handlePR sampleImports emptyNotePR)
                  strangersTracker)) = [releaseNoteNone].
Proof.
  destruct (@label_after_listing sampleImports _ (tracker sampleImports)
              emptyNotePR strangersTracker [] strangersTracker (Some [strangersCommand]))
    as [H _].
  - reflexivity.
  - vm_compute. reflexivity.
  - exact H.
Defined.

Lemma exempt_run_only_strips_witness :
  added (trace (run (tracker sampleImports) (handlePR sampleImports cherryPickPR)
                  twoLabelTracker)) = []
  /\ posted (trace (run (tracker sampleImports) (handlePR sampleImports cherryPickPR)
                      twoLabelTracker)) = []
  /\ map fst (removals (trace (run (tracker sampleImports)
                                 (handlePR sampleImports cherryPickPR) twoLabelTracker)))
     = [].
Proof.
  apply (@exempt_run_only_strips sampleImports _ (tracker sampleImports) cherryPickPR
           twoLabelTracker (labelsOf twoLabelTracker 1) twoLabelTracker).
  - discriminate.
  - reflexivity.
  - vm_compute. reflexivity.
  - vm_compute. reflexivity.
Defined.

Lemma sampleImports_layout to message reason :
  Strings.Contains (FormatResponse sampleImports to message reason) message = true.
Proof.
  apply Contains_spec. exists (lit "@" ++ to ++ lit ": "), ([nl] ++ reason).
  simpl. now rewrite <- !app_assoc.
Qed.

Lemma advice_is_stale_witness :
  isStale (lit "k8s-ci-robot")
    {| CommentID := 100;
       CommentBody := FormatResponse sampleImports (lit "author") releaseNoteBody
                        releaseNoteSuffix;
       CommentUser := {| Login := lit "k8s-ci-robot" |} |} = true.
Proof.
  apply (@advice_is_stale sampleImports _ (tracker sampleImports) emptyNotePR
           notelessParentTracker sampleImports_layout
           (lit "kubernetes", lit "kubernetes", 3%Z,
            FormatResponse sampleImports (lit "author") releaseNoteBody releaseNoteSuffix)).
  vm_compute. left. reflexivity.
Defined.

Lemma noted_run_is_idempotent_witness :
  labelOps (trace (run (tracker sampleImports) (handlePR sampleImports notedPR)
                     (final (run (tracker sampleImports) (handlePR sampleImports notedPR)
                               flaggedTracker)))) = [].
Proof.
  destruct (@noted_run_is_idempotent sampleImports notedPR flaggedTracker) as (_ & H & _).
  - discriminate.
  - apply str_eqb_neq. vm_compute. reflexivity.
  - exact H.
Defined.

End Releasenote.
